(** * ProtoMAML emotion detection: episodic samplers and the ProtoMAML model

    A shallow embedding of

    - [src/data/utils/data_loader.py]: [StratifiedLoader] and
      [AdaptiveNKShotLoader], whose floating-point draws enter as the integer
      support sizes they produce;
    - [src/models/protomaml_seqtransformer.py]: [ProtoMAMLSeqTransformer];
    - [src/ProtoMAML_train_restarts.py]: the outer steps of an episode and the
      optimizer step that ends it.

    Python objects with mutable attributes become records threaded through a
    small state-and-exception monad; a Python exception is a [Raise] result
    that leaves the state as it was when the exception was thrown. *)

From Stdlib Require Import ZArith List Lia Sorted.
From stdpp Require Import base option list gmap strings sorting.

Set Default Proof Using "Type".

(** ** Python results: values and exceptions *)

Inductive PyExc : Type :=
| TypeError
| KeyError
| ValueError
| AttributeError
| RuntimeError
| IndexError
| StopIteration.

Inductive Res (A : Type) : Type :=
| Ok (a : A)
| Raise (e : PyExc).
Arguments Ok {A} a.
Arguments Raise {A} e.

(** ** A state monad with exceptions *)

Module PyM.

Definition M (St A : Type) : Type := St -> Res A * St.

Definition ret {St A} (a : A) : M St A := fun s => (Ok a, s).

Definition raise {St A} (e : PyExc) : M St A := fun s => (Raise e, s).

Definition bind {St A B} (m : M St A) (f : A -> M St B) : M St B :=
  fun s => match m s with
           | (Ok a, s') => f a s'
           | (Raise e, s') => (Raise e, s')
           end.

Definition get {St} : M St St := fun s => (Ok s, s).
Definition gets {St A} (f : St -> A) : M St A := fun s => (Ok (f s), s).
Definition modify {St} (f : St -> St) : M St unit := fun s => (Ok tt, f s).

Definition lift {St A} (r : Res A) : M St A := fun s => (r, s).

(** [for x in l: acc = body acc x], the loop variable threaded by hand. *)
Fixpoint foldM {St A B} (body : B -> A -> M St B) (l : list A) (acc : B) : M St B :=
  match l with
  | [] => ret acc
  | x :: l' => bind (body acc x) (foldM body l')
  end.

(** [for _ in range(n): body] *)
Fixpoint repeatM {St} (n : nat) (body : nat -> M St unit) (i : nat) : M St unit :=
  match n with
  | O => ret tt
  | S n' => bind (body i) (fun _ => repeatM n' body (S i))
  end.

End PyM.

(** stdpp's monad notations ([x ← m; k], [m ;; k]) are used for [PyM.M]. *)
#[global] Instance PyM_bind {St} : MBind (PyM.M St) := fun A B f m => PyM.bind m f.
#[global] Instance PyM_ret {St} : MRet (PyM.M St) := fun A a => PyM.ret a.

#[global] Instance Res_bind : MBind Res := fun A B f r =>
  match r with
  | Ok a => f a
  | Raise e => Raise e
  end.
#[global] Instance Res_ret : MRet Res := fun A a => Ok a.

(** A list comprehension whose element expression may raise. *)
Fixpoint mapRes {A B} (f : A -> Res B) (l : list A) : Res (list B) :=
  match l with
  | [] => Ok []
  | x :: l' => y ← f x; ys ← mapRes f l'; Ok (y :: ys)
  end.

(** ** Specifications of monadic code *)

Section Logic.
Context {St : Type}.

(** [triple P m Q E]: started in a state satisfying [P], the computation [m]
    either returns a value and a state related by [Q], or raises and leaves
    a state satisfying [E]. *)
Definition triple {A} (P : St -> Prop) (m : PyM.M St A) (Q : A -> St -> Prop)
    (E : St -> Prop) : Prop :=
  forall s, P s -> match m s with
                   | (Ok a, s') => Q a s'
                   | (Raise _, s') => E s'
                   end.

(** A computation that never changes the state. *)
Definition readonly {A} (m : PyM.M St A) : Prop := forall s, (m s).2 = s.

End Logic.

(** ** [src/data/utils/data_loader.py] *)

Module DataLoader.

(** One example of a dataset: [{'text': ..., 'labels': ...}]. *)
Record Example : Type := mkExample { text : string; labels : Z }.

#[global] Instance Example_eq_dec : EqDecision Example.
Proof. solve_decision. Defined.

(** A value stored under [self.data[c]]: a list of examples, or Python's
    [None]. *)
Definition Pool : Type := option (list Example).

(** [a.extend(b)] mutates the receiver and returns [None]: the pair is the
    receiver after the call and the value of the call expression. *)
Definition list_extend (a b : list Example) : list Example * Pool :=
  (a ++ b, None).

(** [defaultdict(list)] holding the two keys the loaders fill. *)
Record ExampleSet : Type := mkSet { set_text : list string; set_labels : list Z }.

Definition empty_set : ExampleSet := mkSet [] [].

(** What [_data_to_model_input] uses of torch: [LongTensor l] is
    [torch.LongTensor(l).to(device)], a tensor given by the list of its
    elements. The call is torch's and may raise (torch refuses an integer
    that does not fit 64 bits, or the device). *)
Class TorchLong : Type := {
  LongTensor : list Z -> Res (list Z)
}.

Section Loaders.

(** What the tokenizer returns for a list of strings (a padded batch). *)
Context {Tok : Type}.
Context {torch : TorchLong}.

(** The 'text' entry of a returned set: the raw strings, or the tokenizer's
    output when a tokenizer was given. *)
Inductive Batch : Type :=
| RawText (l : list string)
| ModelInput (t : Tok).

(** *** StratifiedLoader *)

(** [self.k] is a number of samples; [self.device] only says where tensors
    are placed and is left out. A tokenizer [tok] is any callable: [tok l]
    is [tokenizer(l, return_tensors='pt', padding=True).to(device)], which may
    raise. *)
Record StratifiedLoader : Type := mkStratifiedLoader {
  self_k : nat;
  self_data : gmap Z Pool;
  self_labels : list Z;
  self_tokenizer : option (list string -> Res Tok);
  self_n_classes : nat
}.

Definition set_data (c : Z) (v : Pool) (self : StratifiedLoader) : StratifiedLoader :=
  mkStratifiedLoader (self_k self) (<[c := v]> (self_data self)) (self_labels self)
                     (self_tokenizer self) (self_n_classes self).

(** [random.shuffle(self.data[c])]: [random_shuffle c] is the permutation
    drawn for the list of class [c]. *)
Definition shuffle_class (random_shuffle : Z -> list Example -> list Example)
    (d : gmap Z Pool) (c : Z) : gmap Z Pool :=
  match d !! c with
  | Some (Some l) => <[c := Some (random_shuffle c l)]> d
  | _ => d
  end.

(** [__init__]: the dataset is an insertion-ordered dict from class to its
    examples, given as its item list. *)
Definition __init__ (random_shuffle : Z -> list Example -> list Example)
    (dataset : list (Z * list Example)) (k : nat)
    (tokenizer : option (list string -> Res Tok)) (shuffle : bool) : StratifiedLoader :=
  let data : gmap Z Pool := list_to_map (prod_map id Some <$> dataset) in
  let labels := dataset.*1 in
  let data :=
    if shuffle
    then foldl (shuffle_class random_shuffle) data labels
    else data in
  mkStratifiedLoader k data labels tokenizer (length labels).

(** [self.data[c]] followed by a slice: a missing key and [None] both raise. *)
Definition read_pool (c : Z) : PyM.M StratifiedLoader (list Example) :=
  fun self => match self_data self !! c with
              | None => (Raise KeyError, self)
              | Some None => (Raise TypeError, self)
              | Some (Some l) => (Ok l, self)
              end.

(** The body of [for c in self.labels]. *)
Definition next_step (acc : ExampleSet * ExampleSet) (c : Z)
  : PyM.M StratifiedLoader (ExampleSet * ExampleSet) :=
  let '(support_set, query_set) := acc in
  k ← PyM.gets self_k;
  pool ← read_pool c;
  let samples := take (2 * k) pool in
  rest ← read_pool c;
  PyM.modify (set_data c (snd (list_extend (drop (2 * k) rest) samples)));;
  let support_set :=
    mkSet (set_text support_set ++ (text <$> take k samples))
          (set_labels support_set ++ (labels <$> take k samples)) in
  let query_set :=
    mkSet (set_text query_set ++ (text <$> drop k samples))
          (set_labels query_set ++ (labels <$> drop k samples)) in
  PyM.ret (support_set, query_set).

(** A set as [__next__] returns it: its 'text' and 'labels' entries. *)
Record ModelSet : Type := mkModelSet { model_text : Batch; model_labels : list Z }.

(** [_data_to_model_input]: the four conversions in the order of the source;
    the first one that raises ends the call. *)
Definition _data_to_model_input (support_set query_set : ExampleSet)
    (tokenizer : list string -> Res Tok) : Res (ModelSet * ModelSet) :=
  support_text ← tokenizer (set_text support_set);
  support_labels ← LongTensor (set_labels support_set);
  query_text ← tokenizer (set_text query_set);
  query_labels ← LongTensor (set_labels query_set);
  Ok (mkModelSet (ModelInput support_text) support_labels,
      mkModelSet (ModelInput query_text) query_labels).

(** The end of [__next__]: the conversion when a tokenizer was given, and the
    returned tuple. *)
Definition return_sets (tokenizer : option (list string -> Res Tok))
    (support_set query_set : ExampleSet) : Res (list Z * Batch * list Z * Batch) :=
  '(support_set, query_set) ←
    match tokenizer with
    | Some tok => _data_to_model_input support_set query_set tok
    | None => Ok (mkModelSet (RawText (set_text support_set)) (set_labels support_set),
                  mkModelSet (RawText (set_text query_set)) (set_labels query_set))
    end;
  Ok (model_labels support_set, model_text support_set,
      model_labels query_set, model_text query_set).

Definition __next__ : PyM.M StratifiedLoader (list Z * Batch * list Z * Batch) :=
  labels ← PyM.gets self_labels;
  '(support_set, query_set) ← PyM.foldM next_step labels (empty_set, empty_set);
  tokenizer ← PyM.gets self_tokenizer;
  PyM.lift (return_sets tokenizer support_set query_set).

(** *** Vocabulary for the sampler's guarantees *)

(** The [2k] window that one call takes from class [c]. *)
Definition window (self : StratifiedLoader) (c : Z) : list Example :=
  match self_data self !! c with
  | Some (Some l) => take (2 * self_k self) l
  | _ => []
  end.

(** The examples behind a returned (labels, text) pair of lists. *)
Definition examples_of (ls : list Z) (ts : list string) : list Example :=
  zip_with mkExample ts ls.

(** The 'text' and 'labels' lists of a list of examples. *)
Definition set_of (l : list Example) : ExampleSet := mkSet (text <$> l) (labels <$> l).


(** Class [c] holds at least [2k] distinct examples, each labelled [c]. *)
Definition class_ready (self : StratifiedLoader) (c : Z) : Prop :=
  exists l, self_data self !! c = Some (Some l) /\ NoDup l /\
            2 * self_k self <= length l /\ (forall e, e ∈ l -> labels e = c).

Definition stratified_ready (self : StratifiedLoader) : Prop :=
  NoDup (self_labels self) /\ forall c, c ∈ self_labels self -> class_ready self c.



(** The same condition on the dataset handed to [__init__]. *)
Definition class_grouped (k : nat) (dataset : list (Z * list Example)) : Prop :=
  NoDup dataset.*1 /\
  Forall (fun cl => NoDup cl.2 /\ 2 * k <= length cl.2 /\
                    Forall (fun e => labels e = cl.1) cl.2) dataset.

#[global] Instance class_grouped_dec k dataset : Decision (class_grouped k dataset).
Proof. unfold class_grouped. apply _. Defined.

(** The loader after one pass over the classes [cs]. *)
Definition exhaust (cs : list Z) (self : StratifiedLoader) : StratifiedLoader :=
  foldl (fun s c => set_data c None s) self cs.

(** The two sets after [sup] and [qry] were appended. *)
Definition extend_sets (acc : ExampleSet * ExampleSet) (sup qry : list Example)
  : ExampleSet * ExampleSet :=
  (mkSet (set_text acc.1 ++ (text <$> sup)) (set_labels acc.1 ++ (labels <$> sup)),
   mkSet (set_text acc.2 ++ (text <$> qry)) (set_labels acc.2 ++ (labels <$> qry))).

Definition has_pool (self : StratifiedLoader) (c : Z) : Prop :=
  exists l, self_data self !! c = Some (Some l).

End Loaders.
Arguments Batch : clear implicits.
Arguments ModelSet : clear implicits.
Arguments StratifiedLoader : clear implicits.

(** *** AdaptiveNKShotLoader: the number of classes of an episode *)

Record AdaptiveNKShotLoader : Type := mkAdaptiveNKShotLoader {
  nk_data : gmap Z (list Example);
  nk_classes : list Z;
  nk_subset_classes : bool;
  nk_max_support_size : nat;
  nk_temp_map : bool
}.

(** [np.random.randint(low, high)] draws uniformly from the half-open range
    [low, high): the value is its list of equally likely outcomes; numpy
    raises [ValueError] when the range is empty. *)
Definition np_random_randint (low high : Z) : Res (list Z) :=
  if (low <? high)%Z then Ok (seqZ low (high - low)) else Raise ValueError.

(** The first statement of [AdaptiveNKShotLoader.__next__]: the equally
    likely values of [self.n_classes]. *)
Definition next_n_classes (self : AdaptiveNKShotLoader) : Res (list Z) :=
  let len_classes := Z.of_nat (length (nk_classes self)) in
  if (len_classes <=? 3)%Z || negb (nk_subset_classes self)
  then Ok [len_classes]
  else np_random_randint 2 len_classes.

(** *** AdaptiveNKShotLoader: the rest of an episode *)

(** [sorted(set(l))] *)
Definition sorted_set (l : list Z) : list Z := merge_sort Z.le (remove_dups l).

(** The dict comprehension
    [{true_label: temp_label for temp_label, true_label in
      enumerate(sorted(set(classes_sample)))}]. *)
Definition make_temp_map (classes_sample : list Z) : gmap Z Z :=
  list_to_map (imap (fun temp_label true_label => (true_label, Z.of_nat temp_label))
                    (sorted_set classes_sample)).

(** [list(map(lambda x: temp_map[x], labels))] *)
Definition map_labels (temp_map : gmap Z Z) (labels : list Z) : Res (list Z) :=
  mapRes (fun x => match temp_map !! x with
                   | Some temp_label => Ok temp_label
                   | None => Raise KeyError
                   end) labels.



(** [np.min(a)]: [ValueError] on an empty array. *)
Definition np_min (a : list Z) : Res Z :=
  match a with
  | [] => Raise ValueError
  | x :: a' => Ok (foldl Z.min x a')
  end.



Section Episode.

(** The numpy release in use and the permutations drawn by the calls of
    [np.random.choice]: one for the classes, one per class pool. *)
Context (choice_allows_empty : bool).
Context (perm_classes : list Z -> list Z).
Context (perm_pool : Z -> list Example -> list Example).

(** [np.array([len(self.data[c]) for c in classes_sample])] *)
Definition class_lens (self : AdaptiveNKShotLoader) (classes_sample : list Z) : Res (list Z) :=
  mapRes (fun c => match nk_data self !! c with
                   | Some l => Ok (Z.of_nat (length l))
                   | None => Raise KeyError
                   end) classes_sample.

(** The query set size. [self.n_classes] is the length of [classes_sample],
    hence of [class_lens]; it is not zero where the division is reached,
    since [np.min] has raised on an empty array. [np.floor(0.5 * n)] is
    [n / 2] rounded down. *)
Definition query_size (self : AdaptiveNKShotLoader) (class_lens : list Z) : Res Z :=
  min_class_size ← np_min ((fun n => n / 2)%Z <$> class_lens);
  Ok (Z.min (Z.of_nat (nk_max_support_size self) / Z.of_nat (length class_lens))
            min_class_size).



End Episode.

(** *** Vocabulary for the adaptive loader's guarantees *)


(** The label an example's label is replaced by. *)
Definition relabel (temp_map : option (gmap Z Z)) (l : Z) : Z :=
  match temp_map with
  | Some m => default l (m !! l)
  | None => l
  end.





End DataLoader.

(** ** [src/models/protomaml_seqtransformer.py] *)

Module ProtoMAML.

(** Identity of a [torch.nn.Parameter] object. *)
Abbreviation loc := nat.

(** What [torch.autograd.grad] differentiates with respect to. *)
Inductive Ref : Type :=
| RefW
| Refb
| RefParam (l : loc).

(** The parts of torch and of the encoder that the model calls: scalar
    arithmetic, [SeqTransformer.forward], [F.linear], [torch.autograd.grad]
    and [torch.nn.utils.clip_grad_norm_]. A tensor of an encoder parameter is
    the list of its elements; a 2-D tensor is the list of its rows. *)
Class Torch : Type := {
  scalar : Type;
  zero : scalar;
  add : scalar -> scalar -> scalar;
  sub : scalar -> scalar -> scalar;
  mul : scalar -> scalar -> scalar;
  div : scalar -> scalar -> scalar;
  neg : scalar -> scalar;
  sqrt : scalar -> scalar;
  of_Z : Z -> scalar;
  ltb : scalar -> scalar -> bool;
  (** [model_input]: the tokenizer's batch *)
  Input : Type;
  (** a loss tensor together with its autograd graph *)
  Loss : Type;
  (** the encoder applied with given parameter values and training flag *)
  seq_transformer : list (list scalar) -> bool -> Input -> Res (list (list scalar));
  linear : list (list scalar) -> list (list scalar) -> list scalar -> Res (list (list scalar));
  autograd_grad : Loss -> list Ref -> Res (list (list scalar));
  autograd_grad_length : forall loss refs gs,
    autograd_grad loss refs = Ok gs -> length gs = length refs;
  (** [clip_grad_norm_] on the gradients that are not [None] *)
  clip_grad_norm_ : list (list scalar) -> scalar -> list (list scalar);
  clip_grad_norm_length : forall gs max_norm,
    length (clip_grad_norm_ gs max_norm) = length gs;
  (** the default of [zero_grad(set_to_none=...)] in the installed torch *)
  zero_grad_set_to_none : bool
}.

(** An attribute of the model object: deleted by [del], bound to [None], or
    bound to a value. *)
Inductive Slot (A : Type) : Type :=
| Absent
| PyNone
| Val (a : A).
Arguments Absent {A}.
Arguments PyNone {A}.
Arguments Val {A} a.

Section Model.
Context `{Torch}.

Abbreviation Vec := (list scalar).
Abbreviation Mat := (list (list scalar)).
Abbreviation PTensor := (list scalar).

(** *** Tensor operations *)

Definition vadd (a b : Vec) : Vec := zip_with add a b.
Definition vsub (a b : Vec) : Vec := zip_with sub a b.
Definition madd (a b : Mat) : Mat := zip_with vadd a b.
Definition msub (a b : Mat) : Mat := zip_with vsub a b.
Definition tdiv (a : PTensor) (n : scalar) : PTensor := (fun x => div x n) <$> a.

(** [torch.unique(labels)]: the distinct values in ascending order. *)
Fixpoint insert_unique (x : Z) (l : list Z) : list Z :=
  match l with
  | [] => [x]
  | y :: l' => if (x <? y)%Z then x :: l
               else if (x =? y)%Z then l
               else y :: insert_unique x l'
  end.

Definition torch_unique (l : list Z) : list Z := foldr insert_unique [] l.

(** [y[mask]] for a boolean mask over the first dimension. *)
Fixpoint mask_select (y : Mat) (mask : list bool) : Mat :=
  match y, mask with
  | r :: y', m :: mask' => if m then r :: mask_select y' mask' else mask_select y' mask'
  | _, _ => []
  end.

Definition index_mask (y : Mat) (mask : list bool) : Res Mat :=
  if decide (length mask = length y) then Ok (mask_select y mask) else Raise IndexError.

(** [torch.mean(rows, dim=0)] of at least one row, as the rows selected for
    a label that occurs are. *)
Definition sum_dim0 (rows : Mat) : Vec :=
  match rows with
  | [] => []
  | r :: rs => foldl vadd r rs
  end.

Definition mean_dim0 (rows : Mat) : Vec :=
  (fun s => div s (of_Z (Z.of_nat (length rows)))) <$> sum_dim0 rows.

(** [torch.stack] of a list of 1-D tensors *)
Definition torch_stack (vs : list Vec) : Res Mat :=
  match vs with
  | [] => Raise RuntimeError
  | _ => Ok vs
  end.

(** [torch.norm(v, p=2)] *)
Definition norm2 (v : Vec) : scalar :=
  sqrt (foldl add zero ((fun x => mul x x) <$> v)).

(** *** Objects *)

Record Param : Type := mkParam {
  data : PTensor;
  grad : option PTensor;
  requires_grad : bool
}.

(** An encoder module: its [parameters()] in order, and its mode. *)
Record SeqTransformer : Type := mkSeqTransformer {
  parameters : list loc;
  training : bool
}.

(** [W_task] and [b_task]: a tensor and its [.grad]. *)
Record Leaf (A : Type) : Type := mkLeaf {
  leaf_data : A;
  leaf_grad : option PTensor
}.
Arguments mkLeaf {A} _ _.
Arguments leaf_data {A} _.
Arguments leaf_grad {A} _.

Record ProtoMAMLSeqTransformer : Type := mkModel {
  heap : list Param;
  model_shared : SeqTransformer;
  model_task : Slot SeqTransformer;
  n_inner : Z;
  n_outer : Z;
  inner_lr : scalar;
  output_lr : scalar;
  lossfn : Mat -> list Z -> Res Loss;
  task_name : Slot string;
  W_task : Slot (Leaf Mat);
  b_task : Slot (Leaf Vec);
  clip_val : scalar
}.

Definition set_heap (h : list Param) (self : ProtoMAMLSeqTransformer) :=
  mkModel h (model_shared self) (model_task self) (n_inner self) (n_outer self)
    (inner_lr self) (output_lr self) (lossfn self) (task_name self) (W_task self)
    (b_task self) (clip_val self).

Definition set_model_shared (m : SeqTransformer) (self : ProtoMAMLSeqTransformer) :=
  mkModel (heap self) m (model_task self) (n_inner self) (n_outer self)
    (inner_lr self) (output_lr self) (lossfn self) (task_name self) (W_task self)
    (b_task self) (clip_val self).

Definition set_model_task (m : Slot SeqTransformer) (self : ProtoMAMLSeqTransformer) :=
  mkModel (heap self) (model_shared self) m (n_inner self) (n_outer self)
    (inner_lr self) (output_lr self) (lossfn self) (task_name self) (W_task self)
    (b_task self) (clip_val self).

Definition set_task_name (t : Slot string) (self : ProtoMAMLSeqTransformer) :=
  mkModel (heap self) (model_shared self) (model_task self) (n_inner self) (n_outer self)
    (inner_lr self) (output_lr self) (lossfn self) t (W_task self)
    (b_task self) (clip_val self).

Definition set_W_task (w : Slot (Leaf Mat)) (self : ProtoMAMLSeqTransformer) :=
  mkModel (heap self) (model_shared self) (model_task self) (n_inner self) (n_outer self)
    (inner_lr self) (output_lr self) (lossfn self) (task_name self) w
    (b_task self) (clip_val self).

Definition set_b_task (b : Slot (Leaf Vec)) (self : ProtoMAMLSeqTransformer) :=
  mkModel (heap self) (model_shared self) (model_task self) (n_inner self) (n_outer self)
    (inner_lr self) (output_lr self) (lossfn self) (task_name self) (W_task self)
    b (clip_val self).

Definition set_grad (g : option PTensor) (p : Param) : Param :=
  mkParam (data p) g (requires_grad p).

Abbreviation M := (PyM.M ProtoMAMLSeqTransformer).

(** Reading an attribute: [AttributeError] once it was deleted. *)
Definition getattr {A} (f : ProtoMAMLSeqTransformer -> Slot A) : M (option A) :=
  fun self => match f self with
              | Absent => (Raise AttributeError, self)
              | PyNone => (Ok None, self)
              | Val a => (Ok (Some a), self)
              end.

(** [del self.attr] *)
Definition delattr {A} (f : ProtoMAMLSeqTransformer -> Slot A)
    (set : Slot A -> ProtoMAMLSeqTransformer -> ProtoMAMLSeqTransformer) : M unit :=
  fun self => match f self with
              | Absent => (Raise AttributeError, self)
              | _ => (Ok tt, set Absent self)
              end.

(** *** Methods *)

(** [__init__(config)]: [SeqTransformer(config)] builds the shared encoder
    from its initial parameters. *)
Definition __init__ (encoder_params : list Param) (config_n_inner config_n_outer : Z)
    (config_inner_lr config_output_lr : scalar) (config_lossfn : Mat -> list Z -> Res Loss)
    (config_clip_val : scalar) : ProtoMAMLSeqTransformer :=
  mkModel encoder_params
          (mkSeqTransformer (seq 0 (length encoder_params)) true)
          PyNone config_n_inner config_n_outer config_inner_lr config_output_lr
          config_lossfn PyNone PyNone PyNone config_clip_val.

Definition set_training (b : bool) (m : SeqTransformer) : SeqTransformer :=
  mkSeqTransformer (parameters m) b.

Definition set_mode (b : bool) : M unit :=
  PyM.modify (fun self => set_model_shared (set_training b (model_shared self)) self);;
  task ← getattr model_task;
  match task with
  | None => mret tt
  | Some m => PyM.modify (set_model_task (Val (set_training b m)))
  end.

Definition train : M unit := set_mode true.
Definition eval : M unit := set_mode false.

Definition is_updateable (h : list Param) (l : loc) : bool :=
  match h !! l with
  | Some p => requires_grad p
  | None => false
  end.

Definition _get_updateable_parameters (model : SeqTransformer) : M (list loc) :=
  PyM.gets (fun self => filter (fun l => is_updateable (heap self) l = true) (parameters model)).

(** [model.parameters()] on an attribute that may hold [None] *)
Definition parameters_of (model : option SeqTransformer) : M SeqTransformer :=
  match model with
  | None => PyM.raise AttributeError
  | Some m => mret m
  end.

Definition param_values (h : list Param) (m : SeqTransformer) : list PTensor :=
  omap (fun l => data <$> h !! l) (parameters m).

(** [model(model_input)] *)
Definition call_model (model : option SeqTransformer) (model_input : Input) : M Mat :=
  match model with
  | None => PyM.raise TypeError
  | Some m => h ← PyM.gets heap; PyM.lift (seq_transformer (param_values h m) (training m) model_input)
  end.

(** [self.attr == None] *)
Definition is_None {A} (f : ProtoMAMLSeqTransformer -> Slot A) : M bool :=
  v ← getattr f; mret (if v is None then true else false).

(** Using an attribute as a tensor: on [None] the operation raises [e]. *)
Definition leaf_of {A} (e : PyExc) (v : option (Leaf A)) : M (Leaf A) :=
  match v with
  | None => PyM.raise e
  | Some x => mret x
  end.

Definition forward (model_input : Input) : M Mat :=
  w_none ← is_None W_task;
  none ← (if (w_none : bool) then mret true else is_None b_task);
  if (none : bool) then PyM.raise ValueError
  else
    task ← getattr model_task;
    y ← call_model task model_input;
    W ← getattr W_task; W ← leaf_of TypeError W;
    b ← getattr b_task; b ← leaf_of TypeError b;
    PyM.lift (linear y (leaf_data W) (leaf_data b)).

Definition prototypes_of (y : Mat) (labels : list Z) : Res (list Vec) :=
  mapRes (fun i => rows ← index_mask y ((fun l => bool_decide (l = i)) <$> labels);
                   Ok (mean_dim0 rows))
         (torch_unique labels).

Definition _generate_protoypes (labels : list Z) (model_input : Input) : M Mat :=
  shared ← PyM.gets model_shared;
  y ← call_model (Some shared) model_input;
  prototypes ← PyM.lift (prototypes_of y labels);
  PyM.lift (torch_stack prototypes).

Definition generate_clf_weights (labels : list Z) (model_input : Input) : M (Mat * Vec) :=
  prototypes ← _generate_protoypes labels model_input;
  let W_init := fmap (mul (of_Z 2)) <$> prototypes in
  let b_init := (fun p => neg (norm2 p)) <$> prototypes in
  mret (W_init, b_init).

(** [deepcopy(self.model_shared)]: fresh parameter objects holding copies of
    the data; [Parameter.__deepcopy__] does not copy [.grad]. *)
Definition copy_parameter (p : Param) : Param :=
  mkParam (data p) None (requires_grad p).

Definition deepcopy (m : SeqTransformer) : M SeqTransformer :=
  fun self =>
    let ps := omap (fun l => heap self !! l) (parameters m) in
    let base := length (heap self) in
    (Ok (mkSeqTransformer (seq base (length ps)) (training m)),
     set_heap (heap self ++ (copy_parameter <$> ps)) self).

Definition zero_grad_buffer (g : option PTensor) : option PTensor :=
  if zero_grad_set_to_none then None
  else match g with
       | Some t => Some ((fun _ => zero) <$> t)
       | None => None
       end.

Definition update_param (f : Param -> Param) (l : loc) (h : list Param)
  : list Param :=
  match h !! l with
  | Some p => <[l := f p]> h
  | None => h
  end.

Definition zero_grad (m : SeqTransformer) : M unit :=
  PyM.modify (fun self =>
    set_heap (foldl (fun h l => update_param (fun p => set_grad (zero_grad_buffer (grad p)) p) l h)
                    (heap self) (parameters m)) self).

(** [param.grad = grad] *)
Definition store_grad (r : Ref) (g : PTensor) : M unit :=
  match r with
  | RefW => W ← getattr W_task; W ← leaf_of AttributeError W;
            PyM.modify (set_W_task (Val (mkLeaf (leaf_data W) (Some g))))
  | Refb => b ← getattr b_task; b ← leaf_of AttributeError b;
            PyM.modify (set_b_task (Val (mkLeaf (leaf_data b) (Some g))))
  | RefParam l => PyM.modify (fun self => set_heap (update_param (set_grad (Some g)) l (heap self)) self)
  end.

(** [torch.nn.utils.clip_grad_norm_(params, max_norm)]: rescales the
    gradients of the parameters that have one. *)
Definition has_grad (h : list Param) (l : loc) : bool :=
  match h !! l with
  | Some p => if grad p is Some _ then true else false
  | None => false
  end.

Definition clip (params : list loc) (max_norm : scalar) : M unit :=
  PyM.modify (fun self =>
    let h := heap self in
    let with_grad := filter (fun l => has_grad h l = true) params in
    let grads := omap (fun l => h !! l ≫= grad) with_grad in
    let clipped := clip_grad_norm_ grads max_norm in
    set_heap (foldl (fun h' '(l, g) => update_param (set_grad (Some g)) l h')
                    h (zip with_grad clipped)) self).

(** [[self.W_task, self.b_task] + self._get_updateable_parameters(self.model_task)] *)
Definition task_refs : M (list Ref) :=
  W ← getattr W_task;
  b ← getattr b_task;
  task ← getattr model_task;
  task ← parameters_of task;
  ps ← _get_updateable_parameters task;
  mret (RefW :: Refb :: (RefParam <$> ps)).

(** One iteration of the inner loop of [adapt]. *)
Definition inner_step (labels : list Z) (model_input : Input) (i : nat) : M unit :=
  logits ← forward model_input;
  lossfn ← PyM.gets lossfn;
  loss ← PyM.lift (lossfn logits labels);
  refs ← task_refs;
  task_grads ← PyM.lift (autograd_grad loss refs);
  refs ← task_refs;
  PyM.foldM (fun _ '(param, grad) => store_grad param grad) (zip refs task_grads) tt;;
  clip_val ← PyM.gets clip_val;
  (if ltb zero clip_val
   then task ← getattr model_task; task ← parameters_of task;
        ps ← _get_updateable_parameters task;
        clip ps clip_val
   else mret tt).

Definition adapt (labels : list Z) (model_input : Input) (name : option string)
    (verbose : bool) : M unit :=
  PyM.modify (set_task_name (if name is Some s then Val s else PyNone));;
  delattr model_task set_model_task;;
  delattr W_task set_W_task;;
  delattr b_task set_b_task;;
  shared ← PyM.gets model_shared;
  task ← deepcopy shared;
  PyM.modify (set_model_task (Val task));;
  zero_grad task;;
  '(W_init, b_init) ← generate_clf_weights labels model_input;
  PyM.modify (set_W_task (Val (mkLeaf W_init None)));;
  PyM.modify (set_b_task (Val (mkLeaf b_init None)));;
  n_inner ← PyM.gets n_inner;
  PyM.repeatM (Z.to_nat n_inner) (inner_step labels model_input) 0;;
  W ← getattr W_task; W ← leaf_of TypeError W;
  PyM.modify (set_W_task (Val (mkLeaf (madd W_init (msub (leaf_data W) W_init)) None)));;
  b ← getattr b_task; b ← leaf_of TypeError b;
  PyM.modify (set_b_task (Val (mkLeaf (vadd b_init (vsub (leaf_data b) b_init)) None))).

(** [param.grad = x] when the buffer is [None], [param.grad += x] otherwise *)
Definition accumulate (buffer : option PTensor) (x : PTensor) : option PTensor :=
  match buffer with
  | None => Some x
  | Some g => Some (vadd g x)
  end.

Definition accumulate_step (n : Z) (_ : unit) (item : loc * PTensor * PTensor) : M unit :=
  let '(param, g_task, g_shared) := item in
  PyM.modify (fun self =>
    set_heap (update_param
                (fun p => set_grad (accumulate (grad p) (tdiv (vadd g_shared g_task) (of_Z n))) p)
                param (heap self)) self).

Definition zip3 {A B C} (a : list A) (b : list B) (c : list C) : list (A * B * C) :=
  zip (zip a b) c.

(** The gradient computations and the accumulation loop of [backward]. *)
Definition backward_accumulate (loss : Loss) : M unit :=
  task ← getattr model_task; task ← parameters_of task;
  task_params ← _get_updateable_parameters task;
  task_grads ← PyM.lift (autograd_grad loss (RefParam <$> task_params));
  shared ← PyM.gets model_shared;
  shared_params ← _get_updateable_parameters shared;
  shared_grads ← PyM.lift (autograd_grad loss (RefParam <$> shared_params));
  n_outer ← PyM.gets n_outer;
  PyM.foldM (accumulate_step n_outer) (zip3 shared_params task_grads shared_grads) tt.

(** The clipping that ends [backward]. *)
Definition backward_clip : M unit :=
  clip_val ← PyM.gets clip_val;
  if ltb zero clip_val
  then shared ← PyM.gets model_shared;
       ps ← _get_updateable_parameters shared;
       clip ps clip_val
  else mret tt.

Definition backward (loss : Loss) : M unit :=
  backward_accumulate loss;; backward_clip.

(** *** Vocabulary for the model's guarantees *)

Implicit Types (s st : ProtoMAMLSeqTransformer) (h : list Param).

(** No pair of task-specific tensors is bound. *)
Definition no_task_parameters st : Prop :=
  forall W b, ~ (W_task st = Val W /\ b_task st = Val b).

(** The embeddings of the support examples labelled [c]. *)
Definition class_embeddings (y : Mat) (labels : list Z) (c : Z) : Mat :=
  (filter (fun p => p.1 = c) (zip labels y)).*2.

(** The prototype of class [c]: the mean of its embeddings. *)
Definition class_prototype (y : Mat) (labels : list Z) (c : Z) : Vec :=
  mean_dim0 (class_embeddings y labels c).

(** [h'] differs from [h] at most in the gradient buffers of the parameters
    at locations [base] and above. *)
Definition grad_only (base : nat) h h' : Prop :=
  take base h' = take base h /\
  data <$> h' = data <$> h /\
  requires_grad <$> h' = requires_grad <$> h.

(** An update of a parameter object that leaves its value alone. *)
Definition keeps_value (f : Param -> Param) : Prop :=
  forall p, data (f p) = data p /\ requires_grad (f p) = requires_grad p.

Definition config_eq st s : Prop :=
  n_inner s = n_inner st /\ n_outer s = n_outer st /\ lossfn s = lossfn st /\
  clip_val s = clip_val st /\ inner_lr s = inner_lr st /\ output_lr s = output_lr st.

(** The shared encoder and every parameter object of [st] are in [s] what
    they were in [st]. *)
Definition shared_frame st s : Prop :=
  model_shared s = model_shared st /\
  take (length (heap st)) (heap s) = heap st /\
  config_eq st s.

(** The shared parameters are distinct live objects. *)
Definition wf st : Prop :=
  NoDup (parameters (model_shared st)) /\
  Forall (fun l => l < length (heap st)) (parameters (model_shared st)).

#[global] Instance wf_dec st : Decision (wf st).
Proof. unfold wf. apply _. Defined.

Definition shared_objects st : list Param :=
  omap (fun l => heap st !! l) (parameters (model_shared st)).

(** The module that [deepcopy] returns in state [st], and the heap it leaves. *)
Definition task_copy st : SeqTransformer :=
  mkSeqTransformer (seq (length (heap st)) (length (shared_objects st)))
                   (training (model_shared st)).

Definition copied_heap st : list Param :=
  heap st ++ (copy_parameter <$> shared_objects st).

(** The states that [adapt], started in [st], runs through once the task
    model is in place. *)
Definition adapting st s : Prop :=
  model_shared s = model_shared st /\
  config_eq st s /\
  grad_only (length (heap st)) (copied_heap st) (heap s) /\
  model_task s = Val (task_copy st).

(** The invariant of the inner loop of [adapt]. *)
Definition inner_inv st (W_init : Mat) (b_init : Vec) s : Prop :=
  adapting st s /\
  exists gw gb, W_task s = Val (mkLeaf W_init gw) /\ b_task s = Val (mkLeaf b_init gb).

(** What a completed [adapt] leaves behind. *)
Definition adapted st (labels : list Z) (model_input : Input) s : Prop :=
  adapting st s /\
  exists W_init b_init s1,
    adapting st s1 /\
    generate_clf_weights labels model_input s1 = (Ok (W_init, b_init), s1) /\
    W_task s = Val (mkLeaf (madd W_init (msub W_init W_init)) None) /\
    b_task s = Val (mkLeaf (vadd b_init (vsub b_init b_init)) None).

(** The states of [adapt] before the task model is copied. *)
Definition adapt_entry st s : Prop :=
  model_shared s = model_shared st /\ heap s = heap st /\ config_eq st s.




(** Scalar arithmetic in which [x + (x - x)] is [x]. *)
Definition exact_cancel : Prop := forall x : scalar, add x (sub x x) = x.

(** Scalar addition is commutative. *)
Definition add_comm : Prop := forall x y : scalar, add x y = add y x.

(** The trainable parameters of the shared encoder. *)
Definition shared_params s : list loc :=
  filter (fun l => is_updateable (heap s) l = true) (parameters (model_shared s)).

(** What one accumulation of [backward] does to a parameter object. *)
Definition accumulate_into (n : Z) (g_task g_shared : PTensor) (q : Param) : Param :=
  set_grad (accumulate (grad q) (tdiv (vadd g_shared g_task) (of_Z n))) q.

Definition accumulate_heap (n : Z) (items : list (loc * PTensor * PTensor)) h : list Param :=
  foldl (fun h' '(p, g_task, g_shared) => update_param (accumulate_into n g_task g_shared) p h')
        h items.

(** The scaled pair-sums that a call [backward(loss)] in the current state
    adds to the buffers: per trainable shared parameter and element by
    element, the gradient with respect to the task copy [x] plus the gradient
    with respect to the shared parameter [y], divided by [n_outer]:
    [(x + y) / n_outer] in the scalar arithmetic of torch. *)
Definition pair_sums (loss : Loss) : M (list PTensor) :=
  task ← getattr model_task; task ← parameters_of task;
  task_params ← _get_updateable_parameters task;
  task_grads ← PyM.lift (autograd_grad loss (RefParam <$> task_params));
  shared_params ← PyM.gets shared_params;
  shared_grads ← PyM.lift (autograd_grad loss (RefParam <$> shared_params));
  n ← PyM.gets n_outer;
  mret (zip_with (fun g_task g_shared =>
                    zip_with (fun x y => div (add x y) (of_Z n)) g_task g_shared)
                 task_grads shared_grads).

(** The task model has as many trainable parameters as the shared encoder. *)
Definition task_mirrors s : Prop :=
  exists task, model_task s = Val task /\
    length (filter (fun l => is_updateable (heap s) l = true) (parameters task)) =
    length (shared_params s).

(** The outer steps of one episode as the training loop runs them: switch
    to training mode, adapt on a support batch, switch to evaluation mode,
    and backpropagate a query loss. Each step is recorded with the scaled
    pair-sums of its [backward] call. *)
Inductive outer_calls :
  ProtoMAMLSeqTransformer -> list (list PTensor) -> ProtoMAMLSeqTransformer -> Prop :=
| outer_calls_nil st : outer_calls st [] st
| outer_calls_cons st labels model_input name verbose st1 loss incs st2 incss st3 :
    (train;; adapt labels model_input name verbose;; eval) st = (Ok tt, st1) ->
    pair_sums loss st1 = (Ok incs, st1) ->
    backward loss st1 = (Ok tt, st2) ->
    outer_calls st2 incss st3 ->
    outer_calls st (incs :: incss) st3.

(** *** The end of an episode in the training loop *)

(** [torch.optim.SGD.step] on one parameter, with the defaults the training
    script leaves in place (no momentum, no weight decay): a parameter whose
    [.grad] is [None] is skipped, otherwise [p.add_(p.grad, alpha=-lr)]. *)
Definition sgd_update (lr : scalar) (p : Param) : Param :=
  match grad p with
  | None => p
  | Some g => mkParam (zip_with (fun x d => add x (mul (neg lr) d)) (data p) g)
                      (grad p) (requires_grad p)
  end.

(** [shared_optimizer.step()]: the optimizer was built over
    [model.model_shared.parameters()]; [lr] is the learning rate the schedule
    has set for this step. *)
Definition shared_optimizer_step (lr : scalar) : M unit :=
  PyM.modify (fun self =>
    set_heap (foldl (fun h l => update_param (sgd_update lr) l h)
                    (heap self) (parameters (model_shared self))) self).

(** [shared_optimizer.step(); model.model_shared.zero_grad();
    model.model_task.zero_grad()].  The [shared_lr_schedule.step()] in between
    only sets the rate of the next episode's step. *)
Definition episode_end (lr : scalar) : M unit :=
  shared_optimizer_step lr;;
  shared ← PyM.gets model_shared;
  zero_grad shared;;
  task ← getattr model_task;
  task ← parameters_of task;
  zero_grad task.

(** *** More vocabulary *)

(** An attribute that [adapt] deletes is missing. *)
Definition poisoned st : Prop :=
  model_task st = Absent \/ W_task st = Absent \/ b_task st = Absent.

(** The gradients held by the parameters [ls], in order, skipping the
    parameters whose [.grad] is [None]. *)
Definition grads_of h (ls : list loc) : list PTensor :=
  omap (fun l => h !! l ≫= grad) ls.

(** [h'] is [h] up to the gradient buffers of the parameters in [ls]. *)
Definition grads_within (ls : list loc) h h' : Prop :=
  grad_only 0 h h' /\ forall l, l ∉ ls -> h' !! l = h !! l.

(** What [backward], started in [st], keeps in every state it runs through. *)
Definition backward_inv st s : Prop :=
  model_shared s = model_shared st /\ model_task s = model_task st /\
  W_task s = W_task st /\ b_task s = b_task st /\ task_name s = task_name st /\
  config_eq st s /\ grads_within (shared_params st) (heap st) (heap s).

(** The heap after [param.grad = g] for each listed pair. *)
Definition set_grads (items : list (loc * PTensor)) h : list Param :=
  foldl (fun h' '(l, g) => update_param (set_grad (Some g)) l h') h items.

(** The heap after [f] was applied to each listed parameter in turn. *)
Definition update_all (f : Param -> Param) (ls : list loc) h : list Param :=
  foldl (fun h' l => update_param f l h') h ls.

(** The state after the calls [adapt(labels, model_input)] for each batch of a
    list, whatever each call did. *)
Definition adapt_all (batches : list (list Z * Input)) st : ProtoMAMLSeqTransformer :=
  foldl (fun s b => (adapt b.1 b.2 None false s).2) st batches.

(** What [adapt] does once the prototype weights are computed. *)
Definition adapt_inner (labels : list Z) (model_input : Input) (W_init : Mat) (b_init : Vec)
  : M unit :=
  PyM.modify (set_W_task (Val (mkLeaf W_init None)));;
  PyM.modify (set_b_task (Val (mkLeaf b_init None)));;
  n_inner ← PyM.gets n_inner;
  PyM.repeatM (Z.to_nat n_inner) (inner_step labels model_input) 0;;
  W ← getattr W_task; W ← leaf_of TypeError W;
  PyM.modify (set_W_task (Val (mkLeaf (madd W_init (msub (leaf_data W) W_init)) None)));;
  b ← getattr b_task; b ← leaf_of TypeError b;
  PyM.modify (set_b_task (Val (mkLeaf (vadd b_init (vsub (leaf_data b) b_init)) None))).

(** What the inner loop differentiates with respect to, in a model that
    [adapt] started on in state [st]: the classifier tensors and the
    trainable parameters of the task copy. *)
Definition inner_refs st : list Ref :=
  RefW :: Refb ::
  (RefParam <$> filter (fun l => is_updateable (copied_heap st) l = true)
                       (parameters (task_copy st))).

(** One pass of the inner loop goes through: the forward pass of the task
    copy, the loss and the gradient computation return. *)
Definition inner_pass_ok st (labels : list Z) (model_input : Input)
    (W_init : Mat) (b_init : Vec) : Prop :=
  exists logits loss grads,
    (y ← seq_transformer (param_values (heap st) (model_shared st))
                         (training (model_shared st)) model_input;
     linear y W_init b_init) = Ok logits /\
    lossfn st logits labels = Ok loss /\
    autograd_grad loss (inner_refs st) = Ok grads.

End Model.

Arguments mkLeaf {_ A} _ _.
Arguments leaf_data {_ A} _.
Arguments leaf_grad {_ A} _.

Abbreviation Vec := (list scalar).
Abbreviation Mat := (list (list scalar)).
Abbreviation PTensor := (list scalar).

End ProtoMAML.

(** ** A small integer backend

    Scalars are integers, the encoder adds its first parameter to every
    input row, the loss is a number and every gradient is that number. It
    serves to run the model on concrete episodes. *)

Module Toy.
Import ProtoMAML.

Definition ZTorch : Torch := {|
  scalar := Z; zero := 0%Z; add := Z.add; sub := Z.sub; mul := Z.mul; div := Z.div;
  neg := Z.opp; sqrt := Z.sqrt; of_Z := fun z => z; ltb := Z.ltb;
  Input := list (list Z);
  Loss := Z;
  seq_transformer := fun params _ x =>
    Ok ((fun row => zip_with Z.add row (default [] (head params))) <$> x);
  linear := fun y W b =>
    Ok ((fun row => zip_with Z.add ((fun w => foldr Z.add 0%Z (zip_with Z.mul row w)) <$> W) b)
          <$> y);
  autograd_grad := fun loss refs => Ok ((fun _ => [loss]) <$> refs);
  autograd_grad_length := ltac:(intros ??? [= <-]; apply length_fmap);
  clip_grad_norm_ := fun gs _ => gs;
  clip_grad_norm_length := ltac:(done);
  zero_grad_set_to_none := true
|}.

(** A model with one trainable and one frozen parameter; [clip] is the
    configured [clip_val]. *)
Definition model (clip : Z) : ProtoMAMLSeqTransformer (H := ZTorch) :=
  __init__ (H := ZTorch)
    [mkParam (H := ZTorch) [1; 2]%Z None true; mkParam (H := ZTorch) [5]%Z None false]
    2 1 0%Z 0%Z (fun _ _ => Ok 7%Z) clip.

Definition support_labels : list Z := [0; 1; 1]%Z.
Definition support_input : list (list Z) := [[1; 2]; [3; 4]; [5; 7]]%Z.

(** The model after one [adapt] on the support batch. *)
Definition adapted_model (clip : Z) : ProtoMAMLSeqTransformer (H := ZTorch) :=
  (adapt (H := ZTorch) support_labels support_input None false (model clip)).2.

(** One outer step of the training loop, and the state it leaves. *)
Definition prepared (st : ProtoMAMLSeqTransformer (H := ZTorch))
  : ProtoMAMLSeqTransformer (H := ZTorch) :=
  ((train (H := ZTorch);; adapt (H := ZTorch) support_labels support_input None false;;
    eval (H := ZTorch)) st).2.

Definition outer_step (loss : Z) (st : ProtoMAMLSeqTransformer (H := ZTorch))
  : ProtoMAMLSeqTransformer (H := ZTorch) :=
  (backward (H := ZTorch) loss (prepared st)).2.

(** A stand-in for [torch.LongTensor]: the elements as they are, refused
    (with [ValueError] here) when one does not fit 64 bits. *)
Definition Int64Long : DataLoader.TorchLong := {|
  DataLoader.LongTensor := fun l =>
    if forallb (fun z => (- 2 ^ 63 <=? z)%Z && (z <? 2 ^ 63)%Z) l
    then Ok l else Raise ValueError
|}.

(** A model whose trainable parameter has one element, as every gradient
    of this backend has; [n] is the configured [n_outer], and clipping is
    off. The support batch has one feature per example. *)
Definition model_1d (n : Z) : ProtoMAMLSeqTransformer (H := ZTorch) :=
  __init__ (H := ZTorch)
    [mkParam (H := ZTorch) [1]%Z None true; mkParam (H := ZTorch) [5]%Z None false]
    2 n 0%Z 0%Z (fun _ _ => Ok 7%Z) 0%Z.

Definition support_input_1d : list (list Z) := [[1]; [3]; [5]]%Z.

Definition prepared_1d (st : ProtoMAMLSeqTransformer (H := ZTorch))
  : ProtoMAMLSeqTransformer (H := ZTorch) :=
  ((train (H := ZTorch);; adapt (H := ZTorch) support_labels support_input_1d None false;;
    eval (H := ZTorch)) st).2.

Definition outer_step_1d (loss : Z) (st : ProtoMAMLSeqTransformer (H := ZTorch))
  : ProtoMAMLSeqTransformer (H := ZTorch) :=
  (backward (H := ZTorch) loss (prepared_1d st)).2.

Definition example (t : string) (l : Z) : DataLoader.Example := DataLoader.mkExample t l.

Definition dataset : list (Z * list DataLoader.Example) :=
  [(0%Z, [example "a" 0; example "b" 0; example "c" 0]);
   (1%Z, [example "d" 1; example "e" 1])].

Definition loader : DataLoader.StratifiedLoader unit :=
  DataLoader.__init__ (fun _ l => l) dataset 1 None true.

(** A class with exactly [2k] examples, and a class with fewer. *)
Definition exact_loader : DataLoader.StratifiedLoader unit :=
  DataLoader.__init__ (fun _ l => l) [(0%Z, [example "a" 0; example "b" 0])] 1 None false.

Definition short_loader : DataLoader.StratifiedLoader unit :=
  DataLoader.__init__ (fun _ l => l) [(0%Z, [example "a" 0])] 1 None false.

Definition four_classes : DataLoader.AdaptiveNKShotLoader :=
  DataLoader.mkAdaptiveNKShotLoader ∅ [0; 1; 2; 3]%Z true 128 true.

End Toy.

(** ** A backend with infinities

    Scalars are integers extended with the two infinities and a
    not-a-number, combined by the rules of floating-point arithmetic:
    [inf - inf] is not a number, and not-a-number absorbs. The encoder
    returns the rows of its input, the loss is a scalar and every gradient
    is that scalar. *)

Module Ext.
Import ProtoMAML.

Inductive num : Type :=
| Fin (z : Z)
| PInf
| NInf
| NaN.

Definition num_neg (x : num) : num :=
  match x with
  | Fin a => Fin (- a)
  | PInf => NInf
  | NInf => PInf
  | NaN => NaN
  end.

Definition num_add (x y : num) : num :=
  match x, y with
  | NaN, _ => NaN
  | _, NaN => NaN
  | Fin a, Fin b => Fin (a + b)
  | PInf, NInf => NaN
  | NInf, PInf => NaN
  | PInf, _ => PInf
  | _, PInf => PInf
  | NInf, _ => NInf
  | _, NInf => NInf
  end.

Definition num_sub (x y : num) : num := num_add x (num_neg y).

(** The sign of a scalar that is a number: -1, 0 or 1. *)
Definition num_sign (x : num) : option Z :=
  match x with
  | Fin a => Some (Z.sgn a)
  | PInf => Some 1%Z
  | NInf => Some (-1)%Z
  | NaN => None
  end.

Definition signed_inf (sign : Z) : num :=
  if (sign =? 0)%Z then NaN else if (0 <? sign)%Z then PInf else NInf.

Definition num_mul (x y : num) : num :=
  match x, y with
  | Fin a, Fin b => Fin (a * b)
  | _, _ => match num_sign x, num_sign y with
            | Some sx, Some sy => signed_inf (sx * sy)
            | _, _ => NaN
            end
  end.

Definition num_div (x y : num) : num :=
  match x, y with
  | NaN, _ => NaN
  | _, NaN => NaN
  | Fin a, Fin b => if (b =? 0)%Z then signed_inf (Z.sgn a) else Fin (a / b)
  | Fin _, _ => Fin 0
  | _, Fin b => match num_sign x with
                | Some sx => signed_inf (sx * (if (b <? 0)%Z then -1 else 1))
                | None => NaN
                end
  | _, _ => NaN
  end.

Definition num_sqrt (x : num) : num :=
  match x with
  | Fin a => if (a <? 0)%Z then NaN else Fin (Z.sqrt a)
  | PInf => PInf
  | NInf => NaN
  | NaN => NaN
  end.

Definition num_ltb (x y : num) : bool :=
  match x, y with
  | NaN, _ => false
  | _, NaN => false
  | Fin a, Fin b => (a <? b)%Z
  | NInf, NInf => false
  | NInf, _ => true
  | _, NInf => false
  | PInf, _ => false
  | _, PInf => true
  end.

Definition XTorch : Torch := {|
  scalar := num; zero := Fin 0; add := num_add; sub := num_sub; mul := num_mul;
  div := num_div; neg := num_neg; sqrt := num_sqrt; of_Z := Fin; ltb := num_ltb;
  Input := list (list num);
  Loss := num;
  seq_transformer := fun _ _ x => Ok x;
  linear := fun y W b =>
    Ok ((fun row =>
           zip_with num_add ((fun w => foldr num_add (Fin 0) (zip_with num_mul row w)) <$> W) b)
          <$> y);
  autograd_grad := fun loss refs => Ok ((fun _ => [loss]) <$> refs);
  autograd_grad_length := ltac:(intros ??? [= <-]; apply length_fmap);
  clip_grad_norm_ := fun gs _ => gs;
  clip_grad_norm_length := ltac:(done);
  zero_grad_set_to_none := true
|}.

(** A model with one trainable parameter, one inner step and no clipping. *)
Definition model : ProtoMAMLSeqTransformer (H := XTorch) :=
  __init__ (H := XTorch) [mkParam (H := XTorch) [Fin 1] None true]
    1 1 (Fin 0) (Fin 0) (fun _ _ => Ok (Fin 0)) (Fin 0).

(** A support batch of one example whose embedding overflowed. *)
Definition support_labels : list Z := [0%Z].
Definition support_input : list (list num) := [[PInf]].

End Ext.

(** More concrete objects: loaders in particular states and a model whose
    [adapt] failed. *)

Module Examples.
Import ProtoMAML.


(** A tokenizer that returns the length of every string, and a loader that
    uses it. *)
Definition lengths (l : list string) : Res (list nat) := Ok (String.length <$> l).

Definition tokenized_loader : DataLoader.StratifiedLoader (list nat) :=
  DataLoader.__init__ (fun _ l => l) Toy.dataset 1 (Some lengths) false.

(** A loader with that tokenizer over a class whose label does not fit 64
    bits. *)
Definition overflow_loader : DataLoader.StratifiedLoader (list nat) :=
  DataLoader.__init__ (fun _ l => l)
    [((2 ^ 63)%Z, [Toy.example "a" (2 ^ 63); Toy.example "b" (2 ^ 63)])]
    1 (Some lengths) false.

(** A loader whose second class was already drained. *)
Definition half_drained_loader : DataLoader.StratifiedLoader unit :=
  DataLoader.mkStratifiedLoader 1
    (<[0%Z := Some [Toy.example "a" 0; Toy.example "b" 0]]> (<[1%Z := None]> ∅))
    [0; 1]%Z None 2.

(** An adaptive loader over two classes. *)
Definition nk_loader : DataLoader.AdaptiveNKShotLoader :=
  DataLoader.mkAdaptiveNKShotLoader
    (<[0%Z := [Toy.example "a" 0; Toy.example "b" 0; Toy.example "c" 0]]>
       (<[1%Z := [Toy.example "d" 1; Toy.example "e" 1]]> ∅))
    [0; 1]%Z true 128 true.

(** The model after [adapt] was called on an empty batch. *)
Definition failed_model : ProtoMAMLSeqTransformer (H := Toy.ZTorch) :=
  (adapt (H := Toy.ZTorch) [] Toy.support_input None false (Toy.model 5)).2.

End Examples.

(** * Proofs *)

(** ** Rules for [triple] *)

Section Triples.
Context {St : Type}.

Lemma triple_ret {A} (P : St -> Prop) (a : A) (Q : A -> St -> Prop) E :
  (forall s, P s -> Q a s) -> triple P (mret a) Q E.
Proof. intros HQ s Hs. by apply HQ. Qed.

Lemma triple_raise {A} (P : St -> Prop) e (Q : A -> St -> Prop) (E : St -> Prop) :
  (forall s, P s -> E s) -> triple P (PyM.raise e) Q E.
Proof. intros HE s Hs. by apply HE. Qed.

Lemma triple_bind {A B} (P : St -> Prop) (m : PyM.M St A) (f : A -> PyM.M St B)
    (Q1 : A -> St -> Prop) (Q : B -> St -> Prop) E :
  triple P m Q1 E -> (forall a, triple (Q1 a) (f a) Q E) -> triple P (m ≫= f) Q E.
Proof.
  intros Hm Hf s Hs. specialize (Hm s Hs).
  unfold mbind, PyM_bind, PyM.bind. destruct (m s) as [[a|e] s']; [|done].
  by apply Hf.
Qed.

Lemma triple_gets {A} (P : St -> Prop) (f : St -> A) (Q : A -> St -> Prop) E :
  (forall s, P s -> Q (f s) s) -> triple P (PyM.gets f) Q E.
Proof. intros HQ s Hs. by apply HQ. Qed.

Lemma triple_modify (P : St -> Prop) (f : St -> St) (Q : unit -> St -> Prop) E :
  (forall s, P s -> Q tt (f s)) -> triple P (PyM.modify f) Q E.
Proof. intros HQ s Hs. by apply HQ. Qed.

Lemma triple_lift {A} (P : St -> Prop) (r : Res A) (Q : A -> St -> Prop) (E : St -> Prop) :
  (forall s, P s -> match r with Ok a => Q a s | Raise _ => E s end) ->
  triple P (PyM.lift r) Q E.
Proof. intros HQ s Hs. specialize (HQ s Hs). unfold PyM.lift. by destruct r. Qed.

Lemma triple_conseq {A} (P P' : St -> Prop) (m : PyM.M St A) (Q Q' : A -> St -> Prop)
    (E E' : St -> Prop) :
  triple P' m Q' E' -> (forall s, P s -> P' s) -> (forall a s, Q' a s -> Q a s) ->
  (forall s, E' s -> E s) -> triple P m Q E.
Proof.
  intros Hm HP HQ HE s Hs. specialize (Hm s (HP s Hs)).
  destruct (m s) as [[a|e] s']; auto.
Qed.

Lemma triple_foldM {A B} (I : St -> Prop) (body : B -> A -> PyM.M St B) (l : list A) E :
  (forall acc x, x ∈ l -> triple I (body acc x) (fun _ => I) E) ->
  forall acc, triple I (PyM.foldM body l acc) (fun _ => I) E.
Proof.
  induction l as [|x l IH]; intros Hbody acc.
  - by apply triple_ret.
  - cbn [PyM.foldM]. apply (triple_bind I (body acc x) _ (fun _ => I)).
    + apply Hbody. left.
    + intros b. apply IH. intros acc' y Hy. apply Hbody. by right.
Qed.

Lemma triple_repeatM (I : St -> Prop) (body : nat -> PyM.M St unit) E n :
  (forall i, triple I (body i) (fun _ => I) E) ->
  forall i, triple I (PyM.repeatM n body i) (fun _ => I) E.
Proof.
  intros Hbody. induction n as [|n IH]; intros i.
  - by apply triple_ret.
  - cbn [PyM.repeatM]. apply (triple_bind I (body i) _ (fun _ => I)); [done|].
    intros _. apply IH.
Qed.

Lemma bind_Ok_inv {A B} (m : PyM.M St A) (f : A -> PyM.M St B) (s : St) b (s' : St) :
  (m ≫= f) s = (Ok b, s') -> exists a s1, m s = (Ok a, s1) /\ f a s1 = (Ok b, s').
Proof.
  unfold mbind, PyM_bind, PyM.bind. destruct (m s) as [[a|e] s1]; [|done]. eauto.
Qed.

End Triples.


(** ** Read-only computations *)
Section ReadOnly.
Context {St : Type}.

Lemma readonly_ret {A} (a : A) : readonly (mret a : PyM.M St A).
Proof. done. Qed.

Lemma readonly_raise {A} e : readonly (PyM.raise e : PyM.M St A).
Proof. done. Qed.

Lemma readonly_gets {A} (f : St -> A) : readonly (PyM.gets f).
Proof. done. Qed.

Lemma readonly_lift {A} (r : Res A) : readonly (PyM.lift r : PyM.M St A).
Proof. done. Qed.

Lemma readonly_bind {A B} (m : PyM.M St A) (f : A -> PyM.M St B) :
  readonly m -> (forall a, readonly (f a)) -> readonly (m ≫= f).
Proof.
  intros Hm Hf s. unfold mbind, PyM_bind, PyM.bind.
  specialize (Hm s). destruct (m s) as [[a|e] s']; cbn in *; subst; [apply Hf|done].
Qed.

Lemma triple_readonly {A} (P : St -> Prop) (m : PyM.M St A) (E : St -> Prop) :
  readonly m -> (forall s, P s -> E s) ->
  triple P m (fun a s => P s /\ m s = (Ok a, s)) E.
Proof.
  intros Hm HE s Hs. specialize (Hm s).
  destruct (m s) as [[a|e] s'] eqn:Hms; cbn in *; subst; auto.
Qed.

End ReadOnly.

(** ** The methods of the model that only read *)
Section ModelFacts.
Import ProtoMAML.
Context `{Torch}.
Implicit Types (self s : ProtoMAMLSeqTransformer) (h : list Param) (l : loc).

Lemma readonly_getattr {A} (f : ProtoMAMLSeqTransformer -> Slot A) : readonly (getattr f).
Proof. intros s. unfold getattr. by destruct (f s). Qed.

Lemma readonly_is_None {A} (f : ProtoMAMLSeqTransformer -> Slot A) : readonly (is_None f).
Proof. apply readonly_bind; [apply readonly_getattr|]. intros ?. apply readonly_ret. Qed.

Lemma readonly_leaf_of {A} e (v : option (Leaf A)) : readonly (leaf_of e v).
Proof. destruct v; [apply readonly_ret|apply readonly_raise]. Qed.

Lemma readonly_parameters_of m : readonly (parameters_of m).
Proof. destruct m; [apply readonly_ret|apply readonly_raise]. Qed.

Lemma readonly_call_model m x : readonly (call_model m x).
Proof.
  destruct m; [|apply readonly_raise].
  apply readonly_bind; [apply readonly_gets|]. intros ?. apply readonly_lift.
Qed.

Lemma readonly_updateable m : readonly (_get_updateable_parameters m).
Proof. apply readonly_gets. Qed.

Create HintDb readonly.
Hint Resolve readonly_ret readonly_raise readonly_gets readonly_lift readonly_getattr
  readonly_is_None readonly_leaf_of readonly_parameters_of readonly_call_model
  readonly_updateable : readonly.

Ltac readonly_tac :=
  repeat first
    [ apply readonly_bind; [|intros ?]
    | match goal with |- readonly (if ?b then _ else _) => destruct b end
    | match goal with |- readonly (match ?x with _ => _ end) => destruct x end
    | solve [auto with readonly] ].

Lemma readonly_forward x : readonly (forward x).
Proof. unfold forward. readonly_tac. Qed.

Lemma readonly_generate_protoypes labels x : readonly (_generate_protoypes labels x).
Proof. unfold _generate_protoypes. readonly_tac. Qed.

Lemma readonly_generate_clf_weights labels x : readonly (generate_clf_weights labels x).
Proof.
  unfold generate_clf_weights.
  apply readonly_bind; [apply readonly_generate_protoypes|]. intros ?. apply readonly_ret.
Qed.

Lemma readonly_task_refs : readonly task_refs.
Proof. unfold task_refs. readonly_tac. Qed.

End ModelFacts.


(** ** StratifiedLoader *)
Section StratifiedLoaderFacts.
Import DataLoader.
Context {Tok : Type}.
Context {torch : TorchLong}.
Implicit Types (self : StratifiedLoader Tok) (c : Z) (cs : list Z).

Lemma next_step_ok self acc c :
  has_pool self c ->
  next_step acc c self =
    (Ok (extend_sets acc (take (self_k self) (window self c))
                         (drop (self_k self) (window self c))),
     set_data c None self).
Proof.
  intros [l Hl]. destruct acc as [sup qry].
  unfold next_step, window, extend_sets, mbind, PyM_bind, PyM.bind, PyM.gets, read_pool,
    PyM.modify, mret, PyM_ret, PyM.ret.
  rewrite Hl. cbn beta iota. rewrite Hl. reflexivity.
Qed.

Lemma window_set_data_ne self c c' v :
  c <> c' -> window (set_data c v self) c' = window self c'.
Proof.
  intros Hne. unfold window, set_data; simpl. by rewrite lookup_insert_ne.
Qed.

Lemma has_pool_set_data_ne self c c' v :
  c <> c' -> has_pool self c' -> has_pool (set_data c v self) c'.
Proof.
  intros Hne [l Hl]. exists l. unfold set_data; simpl. by rewrite lookup_insert_ne.
Qed.

Lemma extend_sets_app acc s1 q1 s2 q2 :
  extend_sets (extend_sets acc s1 q1) s2 q2 = extend_sets acc (s1 ++ s2) (q1 ++ q2).
Proof.
  unfold extend_sets; simpl. by rewrite !fmap_app, !app_assoc.
Qed.

Lemma foldM_next_step_ok cs : forall self acc,
  NoDup cs ->
  (forall c, c ∈ cs -> has_pool self c) ->
  PyM.foldM next_step cs acc self =
    (Ok (extend_sets acc (cs ≫= fun c => take (self_k self) (window self c))
                         (cs ≫= fun c => drop (self_k self) (window self c))),
     exhaust cs self).
Proof.
  induction cs as [|c cs IH]; intros self acc Hnd Hpool.
  - destruct acc as [[] []]; unfold extend_sets; simpl. by rewrite !app_nil_r.
  - apply NoDup_cons in Hnd as [Hc Hnd].
    cbn [PyM.foldM]. unfold PyM.bind. rewrite next_step_ok by (apply Hpool; left).
    rewrite IH; [|done|].
    + rewrite extend_sets_app, !bind_cons. do 2 f_equal.
      change (self_k (set_data c None self)) with (self_k self).
      f_equal; f_equal; apply Forall_bind_ext, Forall_forall; intros c' Hc';
        (rewrite window_set_data_ne; [done | intros ->; done]).
    + intros c' Hc'. apply has_pool_set_data_ne; [intros ->; done|]. apply Hpool. by right.
Qed.

Lemma examples_of_fmap (l : list Example) :
  examples_of (labels <$> l) (text <$> l) = l.
Proof.
  unfold examples_of. induction l as [|[t lb] l IH]; [done|].
  cbn. by rewrite IH.
Qed.




Lemma exhaust_tokenizer cs self :
  self_tokenizer (exhaust cs self) = self_tokenizer self.
Proof.
  revert self. induction cs as [|c cs IH]; intros self; [done|].
  unfold exhaust in *. cbn [foldl]. by rewrite IH.
Qed.

Lemma class_ready_has_pool self c : class_ready self c -> has_pool self c.
Proof. intros (l & Hl & _). by exists l. Qed.

Lemma window_class self c e :
  class_ready self c -> e ∈ window self c -> labels e = c.
Proof.
  intros (l & Hl & _ & _ & Hcl) He. unfold window in He. rewrite Hl in He.
  apply Hcl. by apply (subseteq_take (2 * self_k self)).
Qed.

Lemma window_length self c :
  class_ready self c -> length (window self c) = 2 * self_k self.
Proof.
  intros (l & Hl & _ & Hlen & _). unfold window. rewrite Hl.
  by apply length_take_le.
Qed.


Lemma next_run self :
  NoDup (self_labels self) ->
  (forall c, c ∈ self_labels self -> has_pool self c) ->
  __next__ self =
    (return_sets (self_tokenizer self)
       (set_of (self_labels self ≫= fun c => take (self_k self) (window self c)))
       (set_of (self_labels self ≫= fun c => drop (self_k self) (window self c))),
     exhaust (self_labels self) self).
Proof.
  intros Hnd Hpool.
  unfold __next__, mbind, PyM_bind, PyM.bind, PyM.gets. cbn beta iota.
  rewrite foldM_next_step_ok by done.
  unfold extend_sets, PyM.lift. cbn [fst snd set_text set_labels empty_set app].
  by rewrite exhaust_tokenizer.
Qed.

Lemma return_sets_None (sup qry : list Example) :
  return_sets (Tok := Tok) None (set_of sup) (set_of qry) =
    Ok (labels <$> sup, RawText (text <$> sup), labels <$> qry, RawText (text <$> qry)).
Proof. reflexivity. Qed.


Lemma shuffle_fold_lookup random_shuffle cs : forall (d : gmap Z Pool) c l,
  NoDup cs -> c ∈ cs -> d !! c = Some (Some l) ->
  foldl (shuffle_class random_shuffle) d cs !! c = Some (Some (random_shuffle c l)).
Proof.
  induction cs as [|c0 cs IH]; intros d c l Hnd Hin Hl; [by apply not_elem_of_nil in Hin|].
  apply NoDup_cons in Hnd as [Hc0 Hnd]. cbn [foldl].
  assert (Hother : forall cs' (d' : gmap Z Pool) c', c' ∉ cs' ->
            foldl (shuffle_class random_shuffle) d' cs' !! c' = d' !! c').
  { clear. induction cs' as [|x cs' IH]; intros d' c' Hc'; [done|].
    apply not_elem_of_cons in Hc' as [Hne Hc']. cbn [foldl]. rewrite IH by done.
    unfold shuffle_class. destruct (d' !! x) as [[?|]|]; [|done..].
    by rewrite lookup_insert_ne. }
  destruct (decide (c0 = c)) as [->|Hne].
  - rewrite Hother by done. unfold shuffle_class. rewrite Hl. by rewrite lookup_insert_eq.
  - apply IH; [done| |].
    + apply elem_of_cons in Hin as [->|Hin]; done.
    + unfold shuffle_class. destruct (d !! c0) as [[?|]|]; [|done..].
      by rewrite lookup_insert_ne.
Qed.

Lemma init_lookup random_shuffle dataset k (tok : option (list string -> Res Tok)) shuffle c l :
  NoDup dataset.*1 -> (c, l) ∈ dataset ->
  self_data (__init__ random_shuffle dataset k tok shuffle) !! c =
    Some (Some (if shuffle then random_shuffle c l else l)).
Proof.
  intros Hnd Hin.
  assert (Hbase : (list_to_map (prod_map id Some <$> dataset) : gmap Z Pool) !! c
                  = Some (Some l)).
  { apply elem_of_list_to_map_1.
    - rewrite <- list_fmap_compose.
      rewrite (list_fmap_ext (fst ∘ prod_map id Some) fst dataset); [done|].
      by intros i [c' l'] _.
    - apply list_elem_of_fmap. by exists (c, l). }
  unfold __init__; cbn [self_data]. destruct shuffle; [|done].
  apply (shuffle_fold_lookup random_shuffle); [done| |done].
  apply list_elem_of_fmap. by exists (c, l).
Qed.

Lemma init_ready random_shuffle dataset k (tok : option (list string -> Res Tok)) shuffle :
  (forall c l, random_shuffle c l ≡ₚ l) ->
  class_grouped k dataset ->
  stratified_ready (__init__ random_shuffle dataset k tok shuffle).
Proof.
  intros Hperm [Hnd Hds]. split; [done|].
  intros c [[c' l] [-> Hin]]%list_elem_of_fmap. cbn [fst].
  destruct (proj1 (Forall_forall _ _) Hds _ Hin) as (Hl & Hlen & Hcl).
  cbn [fst snd] in *. rewrite Forall_forall in Hcl.
  eexists. split; [by apply init_lookup|].
  destruct shuffle; [|done].
  pose proof (Hperm c' l) as Hp. rewrite Hp. repeat split; try done.
  intros e He. apply Hcl. by rewrite <- Hp.
Qed.

Lemma next_step_inv self acc c r self' :
  next_step acc c self = (Ok r, self') -> self' = set_data c None self.
Proof.
  destruct acc as [sup qry].
  unfold next_step, mbind, PyM_bind, PyM.bind, PyM.gets, read_pool, PyM.modify,
    mret, PyM_ret, PyM.ret.
  destruct (self_data self !! c) as [[l|]|] eqn:E; cbn beta iota; rewrite ?E;
    cbn beta iota; [|congruence..].
  intros [= _ <-]. reflexivity.
Qed.

Lemma foldM_next_step_inv cs : forall self acc r self',
  PyM.foldM next_step cs acc self = (Ok r, self') ->
  self_labels self' = self_labels self /\
  (forall c, c ∈ cs -> self_data self' !! c = Some None) /\
  (forall c, c ∉ cs -> self_data self' !! c = self_data self !! c).
Proof.
  induction cs as [|c cs IH]; intros self acc r self' H.
  - cbn in H. injection H as _ <-. split; [done|]. split; [|done].
    intros c Hc. by apply not_elem_of_nil in Hc.
  - cbn [PyM.foldM] in H. unfold PyM.bind in H.
    destruct (next_step acc c self) as [[r1|e] s1] eqn:Hstep; [|congruence].
    apply next_step_inv in Hstep as ->.
    apply IH in H as (Hlab & Hnone & Hframe).
    split; [done|]. split.
    + intros c' Hc'. destruct (decide (c' ∈ cs)) as [Hin|Hnin]; [by apply Hnone|].
      apply elem_of_cons in Hc' as [->|?]; [|done].
      rewrite Hframe by done. unfold set_data; cbn [self_data]. by rewrite lookup_insert_eq.
    + intros c' [Hne Hc']%not_elem_of_cons. rewrite Hframe by done.
      unfold set_data; cbn [self_data]. by rewrite lookup_insert_ne.
Qed.

Lemma next_after_ok_raises self r self' :
  self_labels self <> [] ->
  __next__ self = (Ok r, self') ->
  __next__ self' = (Raise TypeError, self').
Proof.
  intros Hne H. unfold __next__, mbind, PyM_bind, PyM.bind, PyM.gets in *.
  cbn beta iota in *.
  destruct (PyM.foldM next_step (self_labels self) (empty_set, empty_set) self)
    as [[[sup qry]|e] s1] eqn:Hfold; [|congruence].
  unfold PyM.lift in H. injection H as _ <-.
  apply foldM_next_step_inv in Hfold as (Hlab & Hnone & _).
  rewrite Hlab. destruct (self_labels self) as [|c cs]; [done|].
  cbn [PyM.foldM]. unfold PyM.bind at 1.
  unfold next_step, mbind, PyM_bind, PyM.bind, PyM.gets, read_pool. cbn beta iota.
  rewrite (Hnone c) by left. reflexivity.
Qed.
Lemma next_step_raises self acc c e self' :
  next_step acc c self = (Raise e, self') -> e = KeyError \/ e = TypeError.
Proof.
  destruct acc as [sup qry].
  unfold next_step, mbind, PyM_bind, PyM.bind, PyM.gets, read_pool, PyM.modify,
    mret, PyM_ret, PyM.ret.
  destruct (self_data self !! c) as [[l|]|] eqn:E; cbn beta iota; rewrite ?E;
    cbn beta iota; intros [=]; auto.
Qed.

Lemma foldM_next_step_raises cs : forall self acc e self',
  PyM.foldM next_step cs acc self = (Raise e, self') -> e = KeyError \/ e = TypeError.
Proof.
  induction cs as [|c cs IH]; intros self acc e self' Hfold; [done|].
  cbn [PyM.foldM] in Hfold. unfold PyM.bind in Hfold.
  destruct (next_step acc c self) as [[r1|e1] s1] eqn:Hstep.
  - by eapply IH.
  - injection Hfold as <- _. by eapply next_step_raises.
Qed.

Lemma next_StopIteration_inv self :
  (__next__ self).1 = Raise StopIteration ->
  exists tok support_set query_set,
    self_tokenizer self = Some tok /\
    _data_to_model_input support_set query_set tok = Raise StopIteration.
Proof.
  unfold __next__, mbind, PyM_bind, PyM.bind, PyM.gets. cbn beta iota.
  destruct (PyM.foldM next_step (self_labels self) (empty_set, empty_set) self)
    as [[[sup qry]|e] s1] eqn:Hfold; cbn [fst].
  - assert (Htok : self_tokenizer s1 = self_tokenizer self).
    { assert (Ht : triple (fun s => self_tokenizer s = self_tokenizer self)
                     (PyM.foldM next_step (self_labels self) (empty_set, empty_set))
                     (fun _ s => self_tokenizer s = self_tokenizer self) (fun _ => True)).
      { apply triple_foldM. intros [sup' qry'] c _ s Hs.
        unfold next_step, mbind, PyM_bind, PyM.bind, PyM.gets, read_pool, PyM.modify,
          mret, PyM_ret, PyM.ret.
        destruct (self_data s !! c) as [[l|]|] eqn:E; cbn beta iota; rewrite ?E;
          cbn beta iota; done. }
      specialize (Ht self eq_refl). by rewrite Hfold in Ht. }
    unfold PyM.lift, return_sets. cbn [fst]. rewrite Htok.
    destruct (self_tokenizer self) as [tok|]; [|done].
    destruct (_data_to_model_input sup qry tok) as [[s q]|e] eqn:Hconv; [done|].
    cbn. intros [= ->]. by exists tok, sup, qry.
  - intros [= ->]. apply foldM_next_step_raises in Hfold as [? | ?]; done.
Qed.

Lemma next_never_StopIteration self :
  self_tokenizer self = None -> (__next__ self).1 <> Raise StopIteration.
Proof.
  intros Hnone Hstop. apply next_StopIteration_inv in Hstop as (tok & _ & _ & Htok & _).
  congruence.
Qed.









End StratifiedLoaderFacts.

(** ** The forward guard and the prototype classifier *)
Section PrototypeFacts.
Import ProtoMAML.
Context `{Torch}.
Implicit Types (self : ProtoMAMLSeqTransformer).

(** C8: while [W_task] and [b_task] are not both bound to tensors, [forward]
    raises and leaves the model untouched: [ValueError] when the missing one
    is [None] (as it is from [__init__] on), [AttributeError] when it was
    deleted; it never returns logits. *)
Theorem forward_before_adapt model_input self :
  no_task_parameters self ->
  (forward model_input self).2 = self /\
  ((forward model_input self).1 = Raise ValueError \/
   (forward model_input self).1 = Raise AttributeError) /\
  (W_task self = PyNone -> (forward model_input self).1 = Raise ValueError).
Proof.
  intros Hno. split; [apply readonly_forward|].
  unfold forward, is_None, getattr, mbind, PyM_bind, PyM.bind, mret, PyM_ret, PyM.ret,
    PyM.raise.
  destruct (W_task self) as [| |W] eqn:HW; cbn; [split; [auto|done]..|].
  destruct (b_task self) as [| |b] eqn:Hb; cbn; [split; [auto|done]..|].
  destruct (Hno W b); done.
Qed.

Lemma mask_select_class (y : Mat) (labels : list Z) c :
  mask_select y ((fun l => bool_decide (l = c)) <$> labels) = class_embeddings y labels c.
Proof.
  unfold class_embeddings. revert labels.
  induction y as [|r y IH]; intros [|l labels]; cbn; try done.
  rewrite IH. case_bool_decide; case_decide; done.
Qed.

Lemma mapRes_ok {A B} (f : A -> Res B) (g : A -> B) (l : list A) :
  (forall x, x ∈ l -> f x = Ok (g x)) -> mapRes f l = Ok (g <$> l).
Proof.
  induction l as [|x l IH]; intros Hf; [done|].
  cbn. rewrite Hf by left. cbn. rewrite IH; [done|].
  intros y Hy. apply Hf. by right.
Qed.

Lemma elem_of_insert_unique (x x' : Z) (l : list Z) :
  x' ∈ insert_unique x l <-> x' = x \/ x' ∈ l.
Proof.
  induction l as [|y l IH]; cbn.
  - rewrite list_elem_of_singleton, elem_of_nil. tauto.
  - destruct (Z.ltb_spec x y); [by rewrite elem_of_cons|].
    destruct (Z.eqb_spec x y) as [->|Hne].
    + rewrite elem_of_cons. tauto.
    + rewrite !elem_of_cons, IH. tauto.
Qed.

Lemma insert_unique_sorted (x : Z) (l : list Z) :
  StronglySorted Z.lt l -> StronglySorted Z.lt (insert_unique x l).
Proof.
  induction 1 as [|y l Hl IH Hy]; cbn.
  - repeat constructor.
  - destruct (Z.ltb_spec x y) as [Hlt|Hge].
    + constructor; [by constructor|]. constructor; [done|].
      eapply Forall_impl; [exact Hy|]. intros z Hz. cbn in Hz. lia.
    + destruct (Z.eqb_spec x y) as [->|Hne]; [by constructor|].
      constructor; [done|]. apply Forall_forall. intros z [->|Hz]%elem_of_insert_unique.
      * lia.
      * by apply (proj1 (Forall_forall _ _) Hy).
Qed.

Lemma torch_unique_sorted (labels : list Z) : StronglySorted Z.lt (torch_unique labels).
Proof.
  induction labels as [|x labels IH]; cbn; [constructor|by apply insert_unique_sorted].
Qed.

Lemma elem_of_torch_unique (labels : list Z) c : c ∈ torch_unique labels <-> c ∈ labels.
Proof.
  induction labels as [|x labels IH]; cbn; [done|].
  rewrite elem_of_insert_unique, elem_of_cons, IH. done.
Qed.

Lemma torch_unique_NoDup (labels : list Z) : NoDup (torch_unique labels).
Proof.
  pose proof (torch_unique_sorted labels) as Hs.
  induction Hs as [|y l Hl IH Hy]; constructor; [|done].
  intros Hin. apply (proj1 (Forall_forall _ _) Hy) in Hin. lia.
Qed.

Lemma torch_unique_length (labels : list Z) :
  length (torch_unique labels) = size (list_to_set labels : gset Z).
Proof.
  rewrite <- (size_list_to_set (C := gset Z) (torch_unique labels)) by apply torch_unique_NoDup.
  f_equal. apply set_eq. intros c. rewrite !elem_of_list_to_set. apply elem_of_torch_unique.
Qed.

Lemma prototypes_of_ok (y : Mat) (labels : list Z) :
  length y = length labels ->
  prototypes_of y labels = Ok (class_prototype y labels <$> torch_unique labels).
Proof.
  intros Hlen. unfold prototypes_of. apply mapRes_ok. intros c _.
  unfold index_mask. rewrite length_fmap. rewrite decide_True by done.
  cbn. by rewrite mask_select_class.
Qed.

(** C6: for a support batch with embeddings [y] from the shared encoder,
    [generate_clf_weights] returns one weight row and one bias entry per
    distinct label, in the order of [torch.unique]: the row is 2 times the
    mean of the embeddings of that label's examples, the bias is minus the
    L2 norm of that mean. The result is this function of [y] and [labels]
    alone, and the model is left unchanged. *)
Theorem generate_clf_weights_prototypes labels model_input self y :
  seq_transformer (param_values (heap self) (model_shared self))
                  (training (model_shared self)) model_input = Ok y ->
  length y = length labels ->
  labels <> [] ->
  exists W b,
    generate_clf_weights labels model_input self = (Ok (W, b), self) /\
    W = (fun c => mul (of_Z 2) <$> class_prototype y labels c) <$> torch_unique labels /\
    b = (fun c => neg (norm2 (class_prototype y labels c))) <$> torch_unique labels /\
    length W = size (list_to_set labels : gset Z) /\
    length b = size (list_to_set labels : gset Z) /\
    NoDup (torch_unique labels) /\
    (forall c, c ∈ torch_unique labels <-> c ∈ labels).
Proof.
  intros Hy Hlen Hne. eexists _, _. split; [|split; [reflexivity|split; [reflexivity|]]].
  - unfold generate_clf_weights, _generate_protoypes, call_model,
      mbind, PyM_bind, PyM.bind, PyM.gets, PyM.lift, mret, PyM_ret, PyM.ret.
    rewrite Hy, prototypes_of_ok by done.
    destruct (torch_unique labels) as [|c cs] eqn:Hu.
    + destruct labels as [|l labels]; [done|].
      assert (l ∈ torch_unique (l :: labels)) as Hin by (apply elem_of_torch_unique; left).
      rewrite Hu in Hin. by apply not_elem_of_nil in Hin.
    + cbn. by rewrite <- !list_fmap_compose.
  - rewrite !length_fmap, torch_unique_length.
    split; [done|]. split; [done|]. split; [apply torch_unique_NoDup|].
    apply elem_of_torch_unique.
Qed.

End PrototypeFacts.


(** ** Updates of gradient buffers *)
Section HeapFacts.
Import ProtoMAML.
Context `{Torch}.
Implicit Types (h : list Param) (l base : nat).

Lemma grad_only_refl base h : grad_only base h h.
Proof. done. Qed.

Lemma grad_only_trans base h1 h2 h3 :
  grad_only base h1 h2 -> grad_only base h2 h3 -> grad_only base h1 h3.
Proof. intros (?&?&?) (?&?&?). repeat split; congruence. Qed.

Lemma grad_only_le base base' h h' :
  base' <= base -> grad_only base h h' -> grad_only base' h h'.
Proof.
  intros Hle (Ht&?&?). repeat split; [|done..].
  rewrite <- (Nat.min_l base' base) by done.
  by rewrite <- !take_take, Ht.
Qed.

Lemma grad_only_length base h h' : grad_only base h h' -> length h' = length h.
Proof. intros (_&Hd&_). by rewrite <- (length_fmap data h'), Hd, length_fmap. Qed.

Lemma keeps_value_set_grad (g : Param -> option PTensor) :
  keeps_value (fun p => set_grad (g p) p).
Proof. done. Qed.

Lemma update_param_values f l h :
  keeps_value f ->
  data <$> update_param f l h = data <$> h /\
  requires_grad <$> update_param f l h = requires_grad <$> h.
Proof.
  intros Hf. unfold update_param. destruct (h !! l) as [p|] eqn:Hl; [|done].
  destruct (Hf p) as [Hd Hr].
  rewrite !list_fmap_insert, Hd, Hr.
  split; apply list_insert_id; by rewrite list_lookup_fmap, Hl.
Qed.

Lemma update_param_grad_only base f l h :
  keeps_value f -> base <= l -> grad_only base h (update_param f l h).
Proof.
  intros Hf Hle. split; [|by apply update_param_values].
  unfold update_param. destruct (h !! l); [|done]. by apply take_insert_ge.
Qed.

Lemma foldl_update_grad_only {A} base (step : list Param -> A -> list Param)
    (items : list A) h :
  (forall h' a, a ∈ items -> grad_only base h' (step h' a)) ->
  grad_only base h (foldl step h items).
Proof.
  revert h. induction items as [|a items IH]; intros h Hstep; [done|].
  cbn [foldl]. eapply grad_only_trans; [apply Hstep; left|].
  apply IH. intros h' a' Ha'. apply Hstep. by right.
Qed.

Lemma param_values_data h h' m :
  data <$> h' = data <$> h -> param_values h' m = param_values h m.
Proof.
  intros Hd. unfold param_values. apply list_omap_ext.
  apply Forall2_same_length_lookup_2; [done|]. intros i l l' Hl Hl'.
  assert (l' = l) as -> by congruence.
  by rewrite <- !list_lookup_fmap, Hd.
Qed.

Lemma is_updateable_flags h h' l :
  requires_grad <$> h' = requires_grad <$> h -> is_updateable h' l = is_updateable h l.
Proof.
  intros Hr. unfold is_updateable.
  assert (requires_grad <$> h' !! l = requires_grad <$> h !! l) as Hl
    by (by rewrite <- !list_lookup_fmap, Hr).
  destruct (h' !! l), (h !! l); cbn in Hl; congruence.
Qed.

End HeapFacts.


(** ** The specification of [adapt] *)
Section AdaptFacts.
Import ProtoMAML.
Context `{Torch}.
Implicit Types (s st : ProtoMAMLSeqTransformer).

Lemma config_eq_refl st : config_eq st st.
Proof. done. Qed.

Lemma init_wf encoder_params n_in n_out lr_in lr_out loss_fn clip_value :
  wf (__init__ encoder_params n_in n_out lr_in lr_out loss_fn clip_value).
Proof.
  split; cbn; [apply NoDup_seq|].
  apply Forall_forall. intros l Hl. apply elem_of_seq in Hl. lia.
Qed.

Lemma wf_lt st l : wf st -> l ∈ parameters (model_shared st) -> l < length (heap st).
Proof. intros [_ Hlt] Hl. by apply (proj1 (Forall_forall _ _) Hlt). Qed.

Lemma adapting_frame st s : adapting st s -> shared_frame st s.
Proof.
  intros (Hsh & Hcfg & (Ht & _) & _). split; [done|]. split; [|done].
  rewrite Ht. unfold copied_heap. by rewrite take_app_length.
Qed.

Lemma inner_inv_frame st W b s : inner_inv st W b s -> shared_frame st s.
Proof. intros [? _]. by apply adapting_frame. Qed.

Lemma triple_readonly_inv {A} (P : ProtoMAMLSeqTransformer -> Prop) (m : PyM.M _ A) E :
  readonly m -> (forall s, P s -> E s) -> triple P m (fun _ => P) E.
Proof.
  intros Hm HE. eapply triple_conseq; [by apply (triple_readonly P m E)|done| |done].
  by intros a s [? _].
Qed.

Lemma triple_delattr {A} (f : ProtoMAMLSeqTransformer -> Slot A) set
    (P : ProtoMAMLSeqTransformer -> Prop) (Q : unit -> _ -> Prop) (E : _ -> Prop) :
  (forall s, P s -> E s) -> (forall s, P s -> Q tt (set Absent s)) ->
  triple P (delattr f set) Q E.
Proof. intros HE HQ s Hs. unfold delattr. destruct (f s); auto. Qed.

Lemma task_refs_fresh st s refs :
  model_task s = Val (task_copy st) ->
  task_refs s = (Ok refs, s) ->
  forall l, RefParam l ∈ refs -> length (heap st) <= l.
Proof.
  intros Ht. unfold task_refs, getattr, parameters_of, _get_updateable_parameters,
    mbind, PyM_bind, PyM.bind, PyM.gets, mret, PyM_ret, PyM.ret.
  destruct (W_task s); [done|..]; (destruct (b_task s); [done|..]); rewrite Ht; cbn;
    intros [= <-] l Hl;
    repeat (apply elem_of_cons in Hl as [?|Hl]; [done|]);
    apply list_elem_of_fmap in Hl as (l' & [= ->] & Hl');
    apply list_elem_of_filter in Hl' as [_ Hl']; apply elem_of_seq in Hl'; lia.
Qed.

Lemma adapting_set_heap st s h :
  adapting st s -> grad_only (length (heap st)) (heap s) h -> adapting st (set_heap h s).
Proof.
  intros (?&?&Hg&?) Hh. split; [done|]. split; [done|]. split; [|done].
  apply (grad_only_trans _ _ _ _ Hg Hh).
Qed.

Lemma triple_store_grad st W b r g :
  (forall l, r = RefParam l -> length (heap st) <= l) ->
  triple (inner_inv st W b) (store_grad r g) (fun _ => inner_inv st W b) (shared_frame st).
Proof.
  intros Hr s [Had (gw & gb & HW & Hb)].
  destruct r as [| |l]; cbn.
  - unfold getattr, leaf_of, mbind, PyM_bind, PyM.bind, mret, PyM_ret, PyM.ret, PyM.modify.
    rewrite HW. cbn. split; [done|]. by exists (Some g), gb.
  - unfold getattr, leaf_of, mbind, PyM_bind, PyM.bind, mret, PyM_ret, PyM.ret, PyM.modify.
    rewrite Hb. cbn. split; [done|]. by exists gw, (Some g).
  - unfold PyM.modify. split; [|by exists gw, gb].
    apply adapting_set_heap; [done|].
    apply update_param_grad_only; [apply (keeps_value_set_grad (fun _ => Some g))|by apply Hr].
Qed.

Lemma triple_clip st W b ps max_norm :
  (forall l, l ∈ ps -> length (heap st) <= l) ->
  triple (inner_inv st W b) (clip ps max_norm) (fun _ => inner_inv st W b) (shared_frame st).
Proof.
  intros Hps s [Had HWb]. unfold clip, PyM.modify. split; [|done].
  apply adapting_set_heap; [done|].
  apply foldl_update_grad_only. intros h' [l g] Hin.
  apply update_param_grad_only; [apply (keeps_value_set_grad (fun _ => Some g))|].
  apply elem_of_zip_l in Hin. apply list_elem_of_filter in Hin as [_ Hin]. by apply Hps.
Qed.

Lemma triple_inner_step st W b labels model_input i :
  triple (inner_inv st W b) (inner_step labels model_input i)
         (fun _ => inner_inv st W b) (shared_frame st).
Proof.
  pose proof (inner_inv_frame st W b) as HE.
  unfold inner_step.
  apply triple_bind with (Q1 := fun _ => inner_inv st W b);
    [apply triple_readonly_inv; [apply readonly_forward|done]|intros logits].
  apply triple_bind with (Q1 := fun _ => inner_inv st W b);
    [apply triple_readonly_inv; [apply readonly_gets|done]|intros lossfn].
  apply triple_bind with (Q1 := fun _ => inner_inv st W b);
    [apply triple_readonly_inv; [apply readonly_lift|done]|intros loss].
  apply triple_bind with (Q1 := fun _ => inner_inv st W b);
    [apply triple_readonly_inv; [apply readonly_task_refs|done]|intros refs0].
  apply triple_bind with (Q1 := fun _ => inner_inv st W b);
    [apply triple_readonly_inv; [apply readonly_lift|done]|intros task_grads].
  eapply triple_bind; [apply (triple_readonly (inner_inv st W b)); [apply readonly_task_refs|done]|].
  intros refs s [Hinv Hrefs].
  assert (Hfresh := task_refs_fresh st s refs (proj2 (proj2 (proj2 (proj1 Hinv)))) Hrefs).
  clear Hrefs. revert s Hinv.
  refine (triple_bind _ _ _ (fun _ => inner_inv st W b) _ _ _ _).
  { apply triple_foldM. intros [] [r g] Hin. apply triple_store_grad.
    intros l ->. apply Hfresh. by apply elem_of_zip_l in Hin. }
  intros _.
  apply triple_bind with (Q1 := fun _ => inner_inv st W b);
    [apply triple_readonly_inv; [apply readonly_gets|done]|intros cv].
  destruct (ltb zero cv); [|by apply triple_ret].
  intros s Hinv. pose proof Hinv as [(_ & _ & _ & Ht) _].
  unfold getattr, parameters_of, _get_updateable_parameters, mbind, PyM_bind, PyM.bind,
    PyM.gets, mret, PyM_ret, PyM.ret.
  rewrite Ht. cbn beta iota.
  apply (triple_clip st W b); [|done].
  intros l [_ Hl]%list_elem_of_filter. apply elem_of_seq in Hl. lia.
Qed.

Lemma adapt_entry_frame st s : adapt_entry st s -> shared_frame st s.
Proof. intros (?&Hh&?). split; [done|]. split; [|done]. rewrite Hh. by apply take_ge. Qed.

Lemma triple_zero_grad st :
  triple (adapting st) (zero_grad (task_copy st)) (fun _ => adapting st) (shared_frame st).
Proof.
  intros s Hs. unfold zero_grad, PyM.modify. apply adapting_set_heap; [done|].
  apply foldl_update_grad_only. intros h' l Hl.
  apply update_param_grad_only;
    [apply (keeps_value_set_grad (fun p => zero_grad_buffer (grad p)))|].
  apply elem_of_seq in Hl. lia.
Qed.

Lemma triple_adapt st labels model_input name verbose :
  triple (fun s => s = st) (adapt labels model_input name verbose)
         (fun _ => adapted st labels model_input) (shared_frame st).
Proof.
  pose proof (adapt_entry_frame st) as HE0.
  pose proof (adapting_frame st) as HE1.
  unfold adapt.
  apply triple_bind with (Q1 := fun _ => adapt_entry st);
    [apply triple_modify; by intros s ->|intros _].
  apply triple_bind with (Q1 := fun _ => adapt_entry st);
    [by apply triple_delattr|intros _].
  apply triple_bind with (Q1 := fun _ => adapt_entry st);
    [by apply triple_delattr|intros _].
  apply triple_bind with (Q1 := fun _ => adapt_entry st);
    [by apply triple_delattr|intros _].
  apply triple_bind with (Q1 := fun sh s => adapt_entry st s /\ sh = model_shared st);
    [apply triple_gets; by intros s (?&?&?)|intros shared].
  apply triple_bind with (Q1 := fun task s =>
    task = task_copy st /\ model_shared s = model_shared st /\ config_eq st s /\
    heap s = copied_heap st /\ model_task s = model_task s).
  { intros s [(Hsh & Hh & Hcfg) ->]. unfold deepcopy, task_copy, copied_heap, shared_objects.
    rewrite Hh. cbn. done. }
  intros task.
  apply triple_bind with (Q1 := fun _ s => task = task_copy st /\ adapting st s).
  { apply triple_modify. intros s (-> & Hsh & Hcfg & Hh & _). split; [done|].
    split; [done|]. split; [done|]. split; [|done].
    cbn. rewrite Hh. apply grad_only_refl. }
  intros _.
  apply triple_bind with (Q1 := fun _ => adapting st).
  { intros s [-> Hs]. by apply triple_zero_grad. }
  intros _.
  eapply triple_bind;
    [apply (triple_readonly (adapting st)); [apply readonly_generate_clf_weights|done]|].
  intros [W_init b_init] s1 [Hs1 Hgen].
  refine (triple_bind (adapting st) _ _
            (fun _ s => adapting st s /\ exists gw, W_task s = Val (mkLeaf W_init gw))
            _ _ _ _ s1 Hs1).
  { apply triple_modify. intros s Hs. split; [by destruct Hs as (?&?&?&?)|by eexists]. }
  intros _.
  apply triple_bind with (Q1 := fun _ => inner_inv st W_init b_init).
  { apply triple_modify. intros s [Hs [gw HW]]. split; [by destruct Hs as (?&?&?&?)|].
    by exists gw, None. }
  intros _.
  pose proof (inner_inv_frame st W_init b_init) as HE2.
  apply triple_bind with (Q1 := fun _ => inner_inv st W_init b_init);
    [apply triple_readonly_inv; [apply readonly_gets|done]|intros n].
  apply triple_bind with (Q1 := fun _ => inner_inv st W_init b_init).
  { apply triple_repeatM. intros i. apply triple_inner_step. }
  intros _ s [Hs (gw & gb & HW & Hb)].
  unfold getattr, leaf_of, mbind, PyM_bind, PyM.bind, mret, PyM_ret, PyM.ret, PyM.modify.
  rewrite HW. cbn. rewrite Hb. cbn.
  split; [by destruct Hs as (?&?&?&?)|].
  exists W_init, b_init, s1. done.
Qed.
End AdaptFacts.


(** ** Consequences for the shared encoder and the class count *)
Section AdaptTheorems.
Import ProtoMAML.
Context `{Torch}.
Implicit Types (s st : ProtoMAMLSeqTransformer).

Lemma adapt_frame st labels model_input name verbose :
  shared_frame st (adapt labels model_input name verbose st).2.
Proof.
  pose proof (triple_adapt st labels model_input name verbose st eq_refl) as Had.
  destruct (adapt labels model_input name verbose st) as [[[]|e] st']; cbn; [|done].
  destruct Had as [Had _]. by apply adapting_frame.
Qed.

Lemma adapt_adapted st labels model_input name verbose st' :
  adapt labels model_input name verbose st = (Ok tt, st') ->
  adapted st labels model_input st'.
Proof.
  intros Heq.
  pose proof (triple_adapt st labels model_input name verbose st eq_refl) as Had.
  by rewrite Heq in Had.
Qed.

Lemma frame_lookup st s l :
  shared_frame st s -> l < length (heap st) -> heap s !! l = heap st !! l.
Proof.
  intros (_ & Ht & _) Hl. rewrite <- (lookup_take_lt (heap s) (length (heap st))) by done.
  by rewrite Ht.
Qed.

(** C9: whether [adapt] returns or raises, the shared encoder module and
    every parameter object that existed before the call, values and gradient
    buffers alike, are afterwards what they were; [forward] and
    [generate_clf_weights] change nothing at all, and [train] and [eval]
    touch no parameter object. Of the model's methods only [backward] writes
    to the shared parameters. *)
Theorem adapt_frames_shared st labels model_input name verbose :
  wf st ->
  let st' := (adapt labels model_input name verbose st).2 in
  model_shared st' = model_shared st /\
  take (length (heap st)) (heap st') = heap st /\
  (forall l, l ∈ parameters (model_shared st) -> heap st' !! l = heap st !! l) /\
  (forall x, (forward x st).2 = st) /\
  (generate_clf_weights labels model_input st).2 = st /\
  heap (train st).2 = heap st /\
  heap (eval st).2 = heap st.
Proof.
  intros Hwf st'. pose proof (adapt_frame st labels model_input name verbose) as Hfr.
  fold st' in Hfr. split; [apply Hfr|]. split; [apply Hfr|]. split.
  - intros l Hl. apply frame_lookup; [done|]. by apply wf_lt.
  - split; [intros x; apply readonly_forward|].
    split; [apply readonly_generate_clf_weights|].
    unfold train, eval, set_mode, getattr, mbind, PyM_bind, PyM.bind, PyM.modify,
      mret, PyM_ret, PyM.ret.
    cbn. by destruct (model_task st).
Qed.

Lemma mapRes_length {A B} (f : A -> Res B) (l : list A) (l' : list B) :
  mapRes f l = Ok l' -> length l' = length l.
Proof.
  revert l'. induction l as [|x l IH]; intros l'; cbn; [by intros [= <-]|].
  destruct (f x) as [y|e]; cbn; [|done].
  destruct (mapRes f l) as [ys|e]; cbn; [|done].
  intros [= <-]. cbn. f_equal. by apply IH.
Qed.

Lemma generate_clf_weights_length labels model_input s W b s' :
  generate_clf_weights labels model_input s = (Ok (W, b), s') ->
  length W = length (torch_unique labels) /\ length b = length (torch_unique labels).
Proof.
  unfold generate_clf_weights, _generate_protoypes, call_model,
    mbind, PyM_bind, PyM.bind, PyM.gets, PyM.lift, mret, PyM_ret, PyM.ret.
  destruct (seq_transformer _ _ _) as [y|e]; [|done].
  destruct (prototypes_of y labels) as [protos|e] eqn:Hp; [|done].
  apply mapRes_length in Hp.
  destruct (torch_stack protos) as [m|e] eqn:Hst; [|done].
  assert (m = protos) as -> by (destruct protos; [done|by injection Hst]).
  intros [= <- <- _]. by rewrite !length_fmap.
Qed.

Lemma length_madd_msub (W : Mat) : length (madd W (msub W W)) = length W.
Proof. unfold madd, msub. rewrite !length_zip_with. lia. Qed.

Lemma length_vadd_vsub (b : Vec) : length (vadd b (vsub b b)) = length b.
Proof. unfold vadd, vsub. rewrite !length_zip_with. lia. Qed.

(** C7: after a completed [adapt], [W_task] has as many rows and [b_task]
    as many entries as there are distinct labels in the support labels. *)
Theorem adapt_class_count st labels model_input name verbose st' :
  adapt labels model_input name verbose st = (Ok tt, st') ->
  exists W b,
    W_task st' = Val W /\ b_task st' = Val b /\
    length (leaf_data W) = size (list_to_set labels : gset Z) /\
    length (leaf_data b) = size (list_to_set labels : gset Z).
Proof.
  intros (_ & W_init & b_init & s1 & _ & Hgen & HW & Hb)%adapt_adapted.
  apply generate_clf_weights_length in Hgen as [HlW Hlb].
  eexists _, _. split; [exact HW|]. split; [exact Hb|]. cbn.
  by rewrite length_madd_msub, length_vadd_vsub, HlW, Hlb, torch_unique_length.
Qed.
End AdaptTheorems.


(** ** The inner loop *)
Section InnerLoopFacts.
Import ProtoMAML.
Context `{Torch}.
Implicit Types (s st : ProtoMAMLSeqTransformer).

(** *** The straight-through reconstruction *)

Lemma vadd_vsub_cancel (v : Vec) : exact_cancel -> vadd v (vsub v v) = v.
Proof.
  intros Hc. unfold vadd, vsub. induction v as [|x v IH]; [done|].
  cbn. by rewrite Hc, IH.
Qed.

Lemma madd_msub_cancel (W : Mat) : exact_cancel -> madd W (msub W W) = W.
Proof.
  intros Hc. unfold madd, msub. induction W as [|r W IH]; [done|].
  cbn. by rewrite vadd_vsub_cancel, IH.
Qed.

Lemma omap_fmap_lookup {A B} (f : A -> B) (g : nat -> option A) (ls : list nat) :
  omap (fun l => f <$> g l) ls = f <$> omap g ls.
Proof.
  induction ls as [|l ls IH]; [done|].
  cbn. destruct (g l); cbn; by rewrite IH.
Qed.

Lemma omap_lookup_app_seq {A} (a c : list A) :
  omap (fun l => (a ++ c) !! l) (seq (length a) (length c)) = c.
Proof.
  revert a. induction c as [|x c IH]; intros a; [done|].
  cbn [length seq]. csimpl. rewrite list_lookup_middle by done. cbn.
  f_equal. specialize (IH (a ++ [x])).
  rewrite length_app, <- app_assoc in IH. cbn in IH.
  by rewrite Nat.add_1_r in IH.
Qed.

Lemma task_copy_values st :
  param_values (copied_heap st) (task_copy st) = param_values (heap st) (model_shared st).
Proof.
  unfold param_values, task_copy, copied_heap. cbn [parameters].
  rewrite !omap_fmap_lookup. fold (shared_objects st).
  rewrite <- (length_fmap copy_parameter (shared_objects st)), omap_lookup_app_seq.
  rewrite <- list_fmap_compose. by apply list_fmap_ext.
Qed.

Lemma shared_values_frame st s :
  wf st -> shared_frame st s ->
  param_values (heap s) (model_shared st) = param_values (heap st) (model_shared st).
Proof.
  intros Hwf Hfr. unfold param_values. apply list_omap_ext.
  apply Forall2_same_length_lookup_2; [done|]. intros i l l' Hl Hl'.
  assert (l' = l) as -> by congruence.
  rewrite (frame_lookup st s l Hfr); [done|].
  apply wf_lt; [done|]. by eapply list_elem_of_lookup_2.
Qed.

Lemma generate_clf_weights_ext labels model_input s s' :
  model_shared s' = model_shared s ->
  param_values (heap s') (model_shared s) = param_values (heap s) (model_shared s) ->
  (generate_clf_weights labels model_input s').1 = (generate_clf_weights labels model_input s).1.
Proof.
  intros Hsh Hpv.
  unfold generate_clf_weights, _generate_protoypes, call_model,
    mbind, PyM_bind, PyM.bind, PyM.gets, PyM.lift, mret, PyM_ret, PyM.ret.
  rewrite Hsh, Hpv.
  destruct (seq_transformer _ _ _) as [y|e]; [|done].
  destruct (prototypes_of y labels) as [protos|e]; [|done].
  by destruct (torch_stack protos).
Qed.

End InnerLoopFacts.


(** ** One call of [backward] *)
Section BackwardFacts.
Import ProtoMAML.
Context `{Torch}.
Implicit Types (s st : ProtoMAMLSeqTransformer) (h : list Param).

Lemma set_heap_set_heap h1 h2 s : set_heap h2 (set_heap h1 s) = set_heap h2 s.
Proof. done. Qed.

Lemma set_heap_id s : set_heap (heap s) s = s.
Proof. by destruct s. Qed.

Lemma foldM_accumulate_step n items : forall s,
  PyM.foldM (accumulate_step n) items tt s =
    (Ok tt, set_heap (accumulate_heap n items (heap s)) s).
Proof.
  induction items as [|[[p gt] gs] items IH]; intros s.
  - cbn. by rewrite set_heap_id.
  - cbn [PyM.foldM]. unfold PyM.bind. cbn [accumulate_step]. unfold PyM.modify.
    rewrite IH. by rewrite set_heap_set_heap.
Qed.

Lemma update_param_lookup_ne f l l' h :
  l <> l' -> update_param f l h !! l' = h !! l'.
Proof.
  intros Hne. unfold update_param. destruct (h !! l); [|done].
  by apply list_lookup_insert_ne.
Qed.

Lemma update_param_lookup_eq f l h q :
  h !! l = Some q -> update_param f l h !! l = Some (f q).
Proof.
  intros Hl. unfold update_param. rewrite Hl.
  apply list_lookup_insert_eq. by eapply lookup_lt_Some.
Qed.

Lemma accumulate_heap_cons n p gt gs items h :
  accumulate_heap n ((p, gt, gs) :: items) h =
  accumulate_heap n items (update_param (accumulate_into n gt gs) p h).
Proof. done. Qed.

Lemma accumulate_heap_other n items : forall h l,
  l ∉ items.*1.*1 -> accumulate_heap n items h !! l = h !! l.
Proof.
  induction items as [|[[p gt] gs] items IH]; intros h l Hl; [done|].
  cbn in Hl. apply not_elem_of_cons in Hl as [Hne Hl].
  rewrite accumulate_heap_cons, IH by done.
  by apply update_param_lookup_ne.
Qed.

Lemma accumulate_heap_lookup n items : forall h i p gt gs q,
  NoDup items.*1.*1 ->
  items !! i = Some (p, gt, gs) ->
  h !! p = Some q ->
  accumulate_heap n items h !! p = Some (accumulate_into n gt gs q).
Proof.
  induction items as [|[[p0 gt0] gs0] items IH]; intros h i p gt gs q Hnd Hi Hq; [done|].
  cbn in Hnd. apply NoDup_cons in Hnd as [Hp0 Hnd].
  rewrite accumulate_heap_cons.
  destruct i as [|i]; cbn in Hi.
  - injection Hi as -> -> ->.
    rewrite (accumulate_heap_other n items) by done.
    by apply update_param_lookup_eq.
  - assert (p0 <> p) as Hne.
    { intros ->. apply Hp0. apply list_elem_of_fmap. exists (p, gt).
      split; [done|]. apply list_elem_of_fmap. exists (p, gt, gs).
      split; [done|]. by eapply list_elem_of_lookup_2. }
    eapply IH; [done|exact Hi|]. by rewrite update_param_lookup_ne.
Qed.

Lemma accumulate_heap_grad_only n items h : grad_only 0 h (accumulate_heap n items h).
Proof.
  apply foldl_update_grad_only. intros h' [[p gt] gs] _.
  apply update_param_grad_only; [|lia].
  apply (keeps_value_set_grad
           (fun q => accumulate (grad q) (tdiv (vadd gs gt) (of_Z n)))).
Qed.

Lemma zip3_fst {A B C} (a : list A) (b : list B) (c : list C) :
  length a = length b -> length a = length c -> (zip3 a b c).*1.*1 = a.
Proof.
  intros Hb Hc. unfold zip3.
  rewrite fst_zip by (rewrite length_zip_with; lia).
  apply fst_zip. lia.
Qed.

Lemma zip3_lookup {A B C} (a : list A) (b : list B) (c : list C) i x y z :
  a !! i = Some x -> b !! i = Some y -> c !! i = Some z ->
  zip3 a b c !! i = Some (x, y, z).
Proof.
  intros Ha Hb Hc. unfold zip3. rewrite !lookup_zip_with, Ha, Hb. cbn. by rewrite Hc.
Qed.

Lemma vadd_comm (a b : PTensor) : add_comm -> vadd a b = vadd b a.
Proof.
  intros Hc. unfold vadd. revert b. induction a as [|x a IH]; intros [|y b]; cbn; try done.
  by rewrite Hc, IH.
Qed.

Lemma tdiv_vadd (a b : PTensor) (n : scalar) :
  tdiv (vadd a b) n = zip_with (fun x y => div (add x y) n) a b.
Proof.
  unfold tdiv, vadd. revert b. induction a as [|x a IH]; intros [|y b]; [done..|].
  cbn. by rewrite IH.
Qed.

Lemma backward_single s loss incs :
  add_comm -> wf s -> task_mirrors s ->
  pair_sums loss s = (Ok incs, s) ->
  exists s_acc,
    backward_accumulate loss s = (Ok tt, s_acc) /\
    backward loss s = backward_clip s_acc /\
    length incs = length (shared_params s) /\
    model_shared s_acc = model_shared s /\ config_eq s s_acc /\
    model_task s_acc = model_task s /\
    grad_only 0 (heap s) (heap s_acc) /\
    (forall l, l ∉ shared_params s -> heap s_acc !! l = heap s !! l) /\
    (forall i p q, shared_params s !! i = Some p -> heap s !! p = Some q ->
       exists inc, incs !! i = Some inc /\
                   heap s_acc !! p = Some (set_grad (accumulate (grad q) inc) q)).
Proof.
  intros Hcomm [Hnd Hwf] (task & Htask & Hlen).
  unfold pair_sums, backward, backward_accumulate, getattr, parameters_of,
    _get_updateable_parameters, mbind, PyM_bind, PyM.bind, PyM.gets, PyM.lift,
    mret, PyM_ret, PyM.ret.
  rewrite Htask. cbn beta iota. fold (shared_params s).
  destruct (autograd_grad loss (RefParam <$> filter _ (parameters task)))
    as [gt|e] eqn:Hgt; [|done].
  destruct (autograd_grad loss (RefParam <$> shared_params s)) as [gs|e] eqn:Hgs; [|done].
  apply autograd_grad_length in Hgt, Hgs. rewrite length_fmap in Hgt, Hgs.
  intros [= <-]. rewrite foldM_accumulate_step.
  eexists. split; [reflexivity|]. split; [reflexivity|].
  assert (Hfst : (zip3 (shared_params s) gt gs).*1.*1 = shared_params s)
    by (apply zip3_fst; lia).
  split; [rewrite length_zip_with; lia|].
  split; [done|]. split; [done|]. split; [done|].
  split; [apply accumulate_heap_grad_only|]. split.
  - intros l Hl. cbn. apply accumulate_heap_other. by rewrite Hfst.
  - intros i p q Hp Hq.
    destruct (lookup_lt_is_Some_2 gt i) as [g_t Hg_t];
      [apply lookup_lt_Some in Hp; lia|].
    destruct (lookup_lt_is_Some_2 gs i) as [g_s Hg_s];
      [apply lookup_lt_Some in Hp; lia|].
    exists (zip_with (fun x y => div (add x y) (of_Z (n_outer s))) g_t g_s). split.
    + by rewrite lookup_zip_with, Hg_t, Hg_s.
    + cbn. erewrite accumulate_heap_lookup; [|rewrite Hfst|by apply zip3_lookup|done].
      * unfold accumulate_into. by rewrite (vadd_comm g_s g_t), tdiv_vadd.
      * by apply NoDup_filter.
Qed.

End BackwardFacts.


(** ** Between two calls of [backward] *)
Section OuterLoopFacts.
Import ProtoMAML.
Context `{Torch}.
Implicit Types (s st : ProtoMAMLSeqTransformer) (h : list Param).

Lemma filter_ext_in {A} (P Q : A -> Prop) `{!forall x, Decision (P x)}
    `{!forall x, Decision (Q x)} (l : list A) :
  (forall x, x ∈ l -> P x <-> Q x) -> filter P l = filter Q l.
Proof.
  induction l as [|x l IH]; intros HPQ; [done|].
  rewrite !filter_cons. rewrite IH by (intros y Hy; apply HPQ; by right).
  destruct (decide (P x)) as [HP|HP], (decide (Q x)) as [HQ|HQ]; try done;
    exfalso; apply (HPQ x) in HP || apply HP, (HPQ x); done || by left.
Qed.

Lemma shared_params_ext s s' :
  parameters (model_shared s') = parameters (model_shared s) ->
  (forall l, l ∈ parameters (model_shared s) -> heap s' !! l = heap s !! l) ->
  shared_params s' = shared_params s.
Proof.
  intros Hp Hl. unfold shared_params. rewrite Hp. apply filter_ext_in.
  intros l Hin. unfold is_updateable. by rewrite Hl.
Qed.

Lemma set_mode_spec b s s' :
  set_mode b s = (Ok tt, s') ->
  heap s' = heap s /\
  parameters (model_shared s') = parameters (model_shared s) /\
  config_eq s s' /\
  (forall task, model_task s = Val task -> model_task s' = Val (set_training b task)).
Proof.
  unfold set_mode, getattr, mbind, PyM_bind, PyM.bind, PyM.modify, mret, PyM_ret, PyM.ret.
  cbn. destruct (model_task s) as [| |task]; [done|..]; intros [= <-]; cbn;
    repeat split; congruence.
Qed.

Lemma wf_transport s s' :
  parameters (model_shared s') = parameters (model_shared s) ->
  length (heap s) <= length (heap s') ->
  wf s -> wf s'.
Proof.
  intros Hp Hlen [Hnd Hlt]. split; rewrite Hp; [done|].
  eapply Forall_impl; [exact Hlt|]. intros l Hl. cbn in Hl. lia.
Qed.

Lemma shared_objects_total st :
  wf st ->
  Forall2 (fun l o => heap st !! l = Some o) (parameters (model_shared st)) (shared_objects st).
Proof.
  intros [_ Hlt]. unfold shared_objects.
  induction Hlt as [|l ls Hl _ IH]; [constructor|].
  destruct (lookup_lt_is_Some_2 (heap st) l) as [o Ho]; [done|].
  csimpl. rewrite Ho. cbn. by constructor.
Qed.

Lemma length_filter_Forall2 {A B} (P : A -> Prop) (Q : B -> Prop)
    `{!forall x, Decision (P x)} `{!forall x, Decision (Q x)} (l : list A) (k : list B) :
  Forall2 (fun a b => P a <-> Q b) l k -> length (filter P l) = length (filter Q k).
Proof.
  induction 1 as [|a b l k Hab _ IH]; [done|].
  rewrite !filter_cons.
  destruct (decide (P a)) as [HP|HP], (decide (Q b)) as [HQ|HQ]; cbn; try lia; tauto.
Qed.

Lemma adapted_task_mirrors st labels model_input s :
  wf st -> adapted st labels model_input s -> task_mirrors s.
Proof.
  intros Hwf [Had _]. pose proof (adapting_frame st s Had) as Hfr.
  destruct Had as (Hsh & _ & (_ & _ & Hrg) & Htask).
  exists (task_copy st). split; [done|]. unfold shared_params. rewrite Hsh.
  cbn [task_copy parameters].
  apply length_filter_Forall2.
  pose proof (shared_objects_total st Hwf) as Hobj.
  apply Forall2_same_length_lookup_2.
  { rewrite length_seq. symmetry. by eapply Forall2_length. }
  intros j l' l Hl' Hl. apply lookup_seq in Hl' as [-> Hj].
  destruct (lookup_lt_is_Some_2 (shared_objects st) j) as [o Ho]; [done|].
  pose proof (Forall2_lookup_lr _ _ _ _ _ _ Hobj Hl Ho) as Hlo.
  assert (is_updateable (heap s) (length (heap st) + j) = requires_grad o) as ->.
  { apply (is_updateable_flags _ _ (length (heap st) + j)) in Hrg. rewrite Hrg.
    unfold is_updateable, copied_heap.
    rewrite lookup_app_r by lia. rewrite list_lookup_fmap.
    replace (length (heap st) + j - length (heap st)) with j by lia.
    by rewrite Ho. }
  assert (is_updateable (heap s) l = requires_grad o) as ->; [|done].
  unfold is_updateable.
  rewrite (frame_lookup st s l Hfr) by exact (lookup_lt_Some _ _ _ Hlo).
  by rewrite Hlo.
Qed.

End OuterLoopFacts.


(** ** The outer steps of an episode *)
Section OuterLoop.
Import ProtoMAML.
Context `{Torch}.
Implicit Types (s st : ProtoMAMLSeqTransformer) (h : list Param).

Lemma config_eq_trans s1 s2 s3 : config_eq s1 s2 -> config_eq s2 s3 -> config_eq s1 s3.
Proof. intros (?&?&?&?&?&?) (?&?&?&?&?&?). repeat split; congruence. Qed.

Lemma adapt_prepares st labels model_input name verbose st' :
  wf st ->
  adapt labels model_input name verbose st = (Ok tt, st') ->
  wf st' /\ task_mirrors st'.
Proof.
  intros Hwf Hadapt%adapt_adapted.
  split; [|by eapply adapted_task_mirrors].
  destruct Hadapt as [(Hsh & _ & Hg & _) _].
  apply (wf_transport st); [by rewrite Hsh| |done].
  rewrite (grad_only_length _ _ _ Hg). unfold copied_heap. rewrite length_app. lia.
Qed.

Lemma outer_prepare st labels model_input name verbose st1 :
  wf st ->
  (train;; adapt labels model_input name verbose;; eval) st = (Ok tt, st1) ->
  wf st1 /\ task_mirrors st1 /\ config_eq st st1 /\
  parameters (model_shared st1) = parameters (model_shared st) /\
  (forall l, l ∈ parameters (model_shared st) -> heap st1 !! l = heap st !! l).
Proof.
  intros Hwf Hrun.
  apply bind_Ok_inv in Hrun as ([] & sa & Htrain & Hrun).
  apply bind_Ok_inv in Hrun as ([] & sb & Hadapt & Heval).
  apply set_mode_spec in Htrain as (Hha & Hpa & Hca & _).
  apply set_mode_spec in Heval as (Hh1 & Hp1 & Hc1 & Ht1).
  assert (wf sa) as Hwfa by (apply (wf_transport st); [done|by rewrite Hha|done]).
  apply adapt_adapted in Hadapt.
  pose proof (adapted_task_mirrors sa labels model_input sb Hwfa Hadapt) as (task & Htask & Hlen).
  destruct Hadapt as [Had _]. pose proof (adapting_frame sa sb Had) as Hfr.
  destruct Had as (Hshb & Hcb & Hgb & _).
  assert (Hlenb : length (heap sa) <= length (heap sb)).
  { rewrite (grad_only_length _ _ _ Hgb). unfold copied_heap. rewrite length_app. lia. }
  assert (Hlk : forall l, l ∈ parameters (model_shared st) -> heap st1 !! l = heap st !! l).
  { intros l Hl. rewrite Hh1, <- Hha. apply frame_lookup; [done|].
    apply wf_lt; [done|]. by rewrite Hpa. }
  split; [|split; [|split; [|split]]]; [| | | |done].
  - apply (wf_transport st); [by rewrite Hp1, Hshb|rewrite Hh1, <- Hha; lia|done].
  - exists (set_training false task). split; [by apply Ht1|].
    cbn [set_training parameters]. rewrite Hh1.
    rewrite (shared_params_ext sb st1); [done|done|]. intros l _. by rewrite Hh1.
  - eapply config_eq_trans; [exact Hca|]. eapply config_eq_trans; [exact Hcb|exact Hc1].
  - by rewrite Hp1, Hshb.
Qed.

Lemma backward_no_clip st loss incs st2 :
  add_comm -> wf st -> task_mirrors st ->
  ltb zero (clip_val st) = false ->
  pair_sums loss st = (Ok incs, st) ->
  backward loss st = (Ok tt, st2) ->
  wf st2 /\ config_eq st st2 /\
  parameters (model_shared st2) = parameters (model_shared st) /\
  shared_params st2 = shared_params st /\
  (forall i p q, shared_params st !! i = Some p -> heap st !! p = Some q ->
     exists inc, incs !! i = Some inc /\
                 heap st2 !! p = Some (set_grad (accumulate (grad q) inc) q)).
Proof.
  intros Hcomm Hwf Hmir Hclip Hps Hback.
  destruct (backward_single st loss incs Hcomm Hwf Hmir Hps)
    as (s_acc & _ & Hb & _ & Hsh & Hcfg & _ & Hg & _ & Hacc).
  rewrite Hb in Hback. unfold backward_clip, mbind, PyM_bind, PyM.bind, PyM.gets in Hback.
  destruct Hcfg as (? & ? & ? & Hcv & ? & ?). rewrite Hcv, Hclip in Hback.
  injection Hback as <-.
  split; [|split; [done|split; [by rewrite Hsh|split; [|done]]]].
  - apply (wf_transport st); [by rewrite Hsh|by rewrite (grad_only_length _ _ _ Hg)|done].
  - unfold shared_params. rewrite Hsh. apply filter_ext_in. intros l _.
    destruct Hg as (_ & _ & Hrg). by rewrite (is_updateable_flags _ _ l Hrg).
Qed.

Lemma outer_calls_sum st incss st' :
  add_comm -> wf st -> ltb zero (clip_val st) = false ->
  outer_calls st incss st' ->
  forall i p q, shared_params st !! i = Some p -> heap st !! p = Some q ->
    exists col q',
      Forall2 (fun incs inc => incs !! i = Some inc) incss col /\
      heap st' !! p = Some q' /\
      data q' = data q /\
      grad q' = foldl accumulate (grad q) col.
Proof.
  intros Hcomm Hwf Hclip Hrun. induction Hrun
    as [st|st labels model_input name verbose st1 loss incs st2 incss st3 Hprep Hps Hback _ IH];
    intros i p q Hp Hq.
  - exists [], q. by repeat split; [constructor|..].
  - destruct (outer_prepare _ _ _ _ _ _ Hwf Hprep) as (Hwf1 & Hmir1 & Hcfg1 & Hpar1 & Hlk1).
    assert (Hsp1 : shared_params st1 = shared_params st) by by apply shared_params_ext.
    assert (Hclip1 : ltb zero (clip_val st1) = false).
    { destruct Hcfg1 as (_ & _ & _ & -> & _). done. }
    destruct (backward_no_clip _ _ _ _ Hcomm Hwf1 Hmir1 Hclip1 Hps Hback)
      as (Hwf2 & Hcfg2 & Hpar2 & Hsp2 & Hacc).
    assert (Hq1 : heap st1 !! p = Some q).
    { rewrite Hlk1; [done|]. apply list_elem_of_lookup_2 in Hp.
      by apply list_elem_of_filter in Hp as [_ Hp]. }
    rewrite <- Hsp1 in Hp. destruct (Hacc i p q Hp Hq1) as (inc & Hinc & Hq2).
    assert (Hclip2 : ltb zero (clip_val st2) = false).
    { destruct Hcfg2 as (_ & _ & _ & -> & _). done. }
    rewrite <- Hsp2 in Hp.
    destruct (IH Hwf2 Hclip2 i p _ Hp Hq2) as (col & q' & Hcol & Hq' & Hd & Hg).
    exists (inc :: col), q'. split; [by constructor|]. split; [done|]. split; [done|].
    by rewrite Hg.
Qed.

Lemma pair_sums_Ok_inv st loss incs :
  pair_sums loss st = (Ok incs, st) ->
  exists task g_task g_shared,
    model_task st = Val task /\
    autograd_grad loss
      (RefParam <$> filter (fun l => is_updateable (heap st) l = true) (parameters task))
      = Ok g_task /\
    autograd_grad loss (RefParam <$> shared_params st) = Ok g_shared /\
    incs = zip_with (fun gt gs => zip_with (fun x y => div (add x y) (of_Z (n_outer st))) gt gs)
                    g_task g_shared.
Proof.
  unfold pair_sums, getattr, parameters_of, _get_updateable_parameters,
    mbind, PyM_bind, PyM.bind, PyM.gets, PyM.lift, PyM.raise, mret, PyM_ret, PyM.ret.
  destruct (model_task st) as [| |task]; cbn beta iota; [done..|].
  destruct (autograd_grad loss (RefParam <$> filter _ (parameters task)))
    as [g_task|e] eqn:Hgt; [|done].
  destruct (autograd_grad loss (RefParam <$> shared_params st)) as [g_shared|e] eqn:Hgs;
    [|done].
  intros [= <-]. by exists task, g_task, g_shared.
Qed.

(** C1: a call [backward(loss)] on a model whose task copy mirrors the
    shared encoder, as it does after every completed [adapt], sets (when
    empty) or increments (otherwise) the gradient buffer of every trainable
    shared parameter by the gradient [gt] with respect to the corresponding
    task-copy parameter plus the gradient [gs] with respect to the shared
    parameter, divided by [n_outer], element by element; clipping follows.
    Without clipping, after any number of outer steps the buffer holds what
    it held before plus the sum of these scaled pair-sums. *)
Theorem backward_accumulates_pair_sums :
  add_comm ->
  (forall st loss incs,
     wf st -> task_mirrors st -> pair_sums loss st = (Ok incs, st) ->
     exists st_acc task g_task g_shared,
       model_task st = Val task /\
       autograd_grad loss
         (RefParam <$> filter (fun l => is_updateable (heap st) l = true) (parameters task))
         = Ok g_task /\
       autograd_grad loss (RefParam <$> shared_params st) = Ok g_shared /\
       backward_accumulate loss st = (Ok tt, st_acc) /\
       backward loss st = backward_clip st_acc /\
       length incs = length (shared_params st) /\
       (forall i p q, shared_params st !! i = Some p -> heap st !! p = Some q ->
          exists gt gs,
            g_task !! i = Some gt /\ g_shared !! i = Some gs /\
            incs !! i =
              Some (zip_with (fun x y => div (add x y) (of_Z (n_outer st))) gt gs) /\
            heap st_acc !! p =
              Some (set_grad
                      (accumulate (grad q)
                         (zip_with (fun x y => div (add x y) (of_Z (n_outer st))) gt gs))
                      q))) /\
  (forall st incss st',
     wf st -> ltb zero (clip_val st) = false -> outer_calls st incss st' ->
     forall i p q, shared_params st !! i = Some p -> heap st !! p = Some q ->
       exists col q',
         Forall2 (fun incs inc => incs !! i = Some inc) incss col /\
         heap st' !! p = Some q' /\
         data q' = data q /\
         grad q' = foldl accumulate (grad q) col) /\
  (forall st labels model_input name verbose st',
     wf st -> adapt labels model_input name verbose st = (Ok tt, st') ->
     wf st' /\ task_mirrors st').
Proof.
  intros Hcomm. split; [|split].
  - intros st loss incs Hwf Hmir Hps.
    destruct (backward_single st loss incs Hcomm Hwf Hmir Hps)
      as (s_acc & Ha & Hb & Hlen & _ & _ & _ & _ & _ & Hacc).
    destruct (pair_sums_Ok_inv st loss incs Hps) as (task & g_task & g_shared & Ht & Hgt & Hgs & Hincs).
    exists s_acc, task, g_task, g_shared.
    do 6 (split; [done|]).
    intros i p q Hp Hq. destruct (Hacc i p q Hp Hq) as (inc & Hinc & Hheap).
    pose proof Hinc as Hinc'. rewrite Hincs, lookup_zip_with in Hinc'.
    destruct (g_task !! i) as [gt|]; [|done]. cbn in Hinc'.
    destruct (g_shared !! i) as [gs|]; [|done]. cbn in Hinc'. injection Hinc' as <-.
    by exists gt, gs.
  - intros st incss st' Hwf Hclip Hrun. by apply outer_calls_sum.
  - intros st labels model_input name verbose st'. apply adapt_prepares.
Qed.

End OuterLoop.


(** ** The samplers on concrete datasets *)

Section Samplers.
Import DataLoader.
Local Open Scope string_scope.
#[local] Existing Instance Toy.Int64Long.

Lemma next_n_classes_range self :
  nk_subset_classes self = true ->
  3 < length (nk_classes self) ->
  exists outcomes,
    next_n_classes self = Ok outcomes /\
    NoDup outcomes /\
    forall n, n ∈ outcomes <-> (2 <= n < Z.of_nat (length (nk_classes self)))%Z.
Proof.
  intros Hsub Hlen. unfold next_n_classes, np_random_randint. rewrite Hsub.
  destruct (Z.leb_spec (Z.of_nat (length (nk_classes self))) 3) as [Hle|_]; [lia|].
  cbn [orb negb]. destruct (Z.ltb_spec 2 (Z.of_nat (length (nk_classes self)))) as [_|Hge]; [|lia].
  eexists. split; [reflexivity|]. split; [apply NoDup_seqZ|].
  intros n. rewrite elem_of_seqZ. lia.
Qed.

(** C10: with [subset_classes] enabled and four classes, the draw of the
    number of classes is uniform over 2 and 3 only; for any dataset of more
    than 3 classes the total number of classes is never drawn, because
    [np.random.randint] excludes its upper bound. *)
Theorem next_n_classes_excludes_all :
  next_n_classes Toy.four_classes = Ok [2; 3]%Z /\
  forall self outcomes,
    nk_subset_classes self = true -> 3 < length (nk_classes self) ->
    next_n_classes self = Ok outcomes ->
    Z.of_nat (length (nk_classes self)) ∉ outcomes.
Proof.
  split; [reflexivity|]. intros self outcomes Hsub Hlen Hnext Hin.
  destruct (next_n_classes_range self Hsub Hlen) as (outcomes' & Hnext' & _ & Hrange).
  assert (outcomes' = outcomes) as -> by congruence.
  apply Hrange in Hin. lia.
Qed.

(** C4: on a class with exactly [2k] examples the first call returns [k]
    support and [k] query items, but it stores [None] as the class pool (the
    value of [list.extend]), and the second call raises [TypeError] instead of
    returning recycled examples. On any dataset with at least one class, the
    call after a call that returned raises [TypeError]. *)
Theorem next_second_call_raises :
  (__next__ Toy.exact_loader).1 = Ok ([0%Z], RawText ["a"], [0%Z], RawText ["b"]) /\
  self_data (__next__ Toy.exact_loader).2 !! 0%Z = Some None /\
  (__next__ (__next__ Toy.exact_loader).2).1 = Raise TypeError /\
  forall (Tok : Type) (torch : TorchLong) (self : StratifiedLoader Tok) r self',
    self_labels self <> [] -> __next__ (torch := torch) self = (Ok r, self') ->
    __next__ (torch := torch) self' = (Raise TypeError, self').
Proof.
  split; [vm_compute; done|]. split; [vm_compute; done|]. split; [vm_compute; done|].
  intros Tok torch self r self'. apply next_after_ok_raises.
Qed.

(** C5: on a class with fewer than [2k] examples the call raises nothing:
    it returns a support set of one example and an empty query set. The
    loader never raises [StopIteration] itself: without a tokenizer no state
    of a loader makes [__next__] raise it, and with a tokenizer a
    [StopIteration] can only come out of the tokenizer or of
    [torch.LongTensor]. *)
Theorem next_short_class_returns :
  (__next__ Toy.short_loader).1 = Ok ([0%Z], RawText ["a"], [], RawText []) /\
  forall (Tok : Type) (torch : TorchLong) (self : StratifiedLoader Tok),
    (self_tokenizer self = None ->
       (__next__ (torch := torch) self).1 <> Raise StopIteration) /\
    ((__next__ (torch := torch) self).1 = Raise StopIteration ->
       exists tok support_set query_set,
         self_tokenizer self = Some tok /\
         _data_to_model_input (torch := torch) support_set query_set tok
           = Raise StopIteration).
Proof.
  split; [vm_compute; done|]. intros Tok torch self.
  split; [apply next_never_StopIteration|apply next_StopIteration_inv].
Qed.



End Samplers.

(** ** The model on a concrete episode *)

Section ToyEpisode.
Import ProtoMAML.
Local Open Scope Z_scope.

Abbreviation T := Toy.ZTorch.
#[local] Existing Instance Toy.ZTorch.

Lemma forward_before_adapt_witness :
  no_task_parameters (Toy.model 5) /\
  (forward (H := T) Toy.support_input (Toy.model 5)).1 = Raise ValueError.
Proof.
  assert (Hno : no_task_parameters (Toy.model 5)).
  { intros W b [HW _]. cbn in HW. discriminate HW. }
  split; [exact Hno|].
  apply (forward_before_adapt (H := T) Toy.support_input (Toy.model 5) Hno).
  reflexivity.
Defined.

Lemma generate_clf_weights_prototypes_witness :
  seq_transformer (param_values (heap (Toy.model 5)) (model_shared (Toy.model 5)))
                  (training (model_shared (Toy.model 5))) Toy.support_input
    = Ok [[2; 4]; [4; 6]; [6; 9]] /\
  length [[2; 4]; [4; 6]; [6; 9]] = length Toy.support_labels /\
  Toy.support_labels <> [] /\
  (generate_clf_weights Toy.support_labels Toy.support_input (Toy.model 5)).1 =
    Ok ([[4; 8]; [10; 14]], [-4; -8]).
Proof.
  assert (Hy : seq_transformer (param_values (heap (Toy.model 5)) (model_shared (Toy.model 5)))
                 (training (model_shared (Toy.model 5))) Toy.support_input
               = Ok [[2; 4]; [4; 6]; [6; 9]]) by (vm_compute; reflexivity).
  assert (Hlen : length [[2; 4]; [4; 6]; [6; 9]] = length Toy.support_labels) by reflexivity.
  assert (Hne : Toy.support_labels <> []) by discriminate.
  split; [exact Hy|]. split; [exact Hlen|]. split; [exact Hne|].
  destruct (generate_clf_weights_prototypes (H := T) Toy.support_labels Toy.support_input
              (Toy.model 5) [[2; 4]; [4; 6]; [6; 9]] Hy Hlen Hne)
    as (W & b & Hgen & -> & -> & _).
  rewrite Hgen. vm_compute. reflexivity.
Defined.

Lemma adapt_class_count_witness :
  adapt Toy.support_labels Toy.support_input None false (Toy.model 5)
    = (Ok tt, Toy.adapted_model 5) /\
  exists W b,
    W_task (Toy.adapted_model 5) = Val W /\ b_task (Toy.adapted_model 5) = Val b /\
    length (leaf_data W) = 2%nat /\ length (leaf_data b) = 2%nat.
Proof.
  assert (Hadapt : adapt Toy.support_labels Toy.support_input None false (Toy.model 5)
                   = (Ok tt, Toy.adapted_model 5)) by (vm_compute; reflexivity).
  split; [exact Hadapt|].
  destruct (adapt_class_count (H := T) (Toy.model 5) Toy.support_labels Toy.support_input
              None false (Toy.adapted_model 5) Hadapt)
    as (W & b & HW & Hb & HlW & Hlb).
  exists W, b. split; [exact HW|]. split; [exact Hb|].
  rewrite HlW, Hlb. split; vm_compute; reflexivity.
Defined.

Lemma adapt_frames_shared_witness :
  wf (Toy.model 5) /\
  model_shared (Toy.adapted_model 5) = model_shared (Toy.model 5) /\
  take 2 (heap (Toy.adapted_model 5)) = heap (Toy.model 5) /\
  heap (Toy.adapted_model 5) !! 0%nat = heap (Toy.model 5) !! 0%nat.
Proof.
  assert (Hwf : wf (Toy.model 5)) by (apply (bool_decide_unpack _); vm_compute; exact I).
  split; [exact Hwf|].
  destruct (adapt_frames_shared (H := T) (Toy.model 5) Toy.support_labels Toy.support_input
              None false Hwf) as (Hsh & Hheap & Hlookup & _).
  split; [exact Hsh|]. split; [exact Hheap|]. apply Hlookup. left.
Defined.

Lemma backward_accumulates_pair_sums_witness :
  add_comm /\
  n_outer (Toy.model_1d 2) = 2 /\
  (wf (Toy.prepared_1d (Toy.model_1d 2)) /\
   task_mirrors (Toy.prepared_1d (Toy.model_1d 2)) /\
   pair_sums 6 (Toy.prepared_1d (Toy.model_1d 2))
     = (Ok [[6]], Toy.prepared_1d (Toy.model_1d 2)) /\
   exists st_acc,
     backward_accumulate 6 (Toy.prepared_1d (Toy.model_1d 2)) = (Ok tt, st_acc) /\
     heap (Toy.prepared_1d (Toy.model_1d 2)) !! 0%nat = Some (mkParam (H := T) [1] None true) /\
     heap st_acc !! 0%nat = Some (mkParam (H := T) [1] (Some [6]) true)) /\
  (wf (Toy.model_1d 2) /\ ltb zero (clip_val (Toy.model_1d 2)) = false /\
   outer_calls (Toy.model_1d 2) [[[6]]; [[3]]]
     (Toy.outer_step_1d 3 (Toy.outer_step_1d 6 (Toy.model_1d 2))) /\
   grad <$> heap (Toy.outer_step_1d 3 (Toy.outer_step_1d 6 (Toy.model_1d 2))) !! 0%nat
     = Some (Some [9])).
Proof.
  assert (Hcomm : add_comm) by (intros x y; cbn; lia).
  destruct (backward_accumulates_pair_sums (H := T) Hcomm) as (Hone & Hall & _).
  assert (Hwf0 : wf (Toy.model_1d 2)) by (apply (bool_decide_unpack _); vm_compute; exact I).
  assert (Hwf1 : wf (Toy.prepared_1d (Toy.model_1d 2)))
    by (apply (bool_decide_unpack _); vm_compute; exact I).
  assert (Hmir1 : task_mirrors (Toy.prepared_1d (Toy.model_1d 2))).
  { exists (mkSeqTransformer [2%nat; 3%nat] false). split; vm_compute; reflexivity. }
  assert (Hps : pair_sums 6 (Toy.prepared_1d (Toy.model_1d 2))
                = (Ok [[6]], Toy.prepared_1d (Toy.model_1d 2)))
    by (vm_compute; reflexivity).
  split; [exact Hcomm|]. split; [reflexivity|]. split.
  - split; [exact Hwf1|]. split; [exact Hmir1|]. split; [exact Hps|].
    destruct (Hone (Toy.prepared_1d (Toy.model_1d 2)) 6 [[6]] Hwf1 Hmir1 Hps)
      as (st_acc & task & g_task & g_shared & _ & _ & _ & Hacc & _ & _ & Hbuf).
    exists st_acc. split; [exact Hacc|].
    assert (Hq0 : heap (Toy.prepared_1d (Toy.model_1d 2)) !! 0%nat
                  = Some (mkParam (H := T) [1] None true)) by (vm_compute; reflexivity).
    split; [exact Hq0|].
    destruct (Hbuf 0%nat 0%nat (mkParam (H := T) [1] None true))
      as (gt & gs & _ & _ & Hinc & Hq); [vm_compute; reflexivity|exact Hq0|].
    rewrite Hq. symmetry in Hinc. apply (inj Some) in Hinc. rewrite Hinc. reflexivity.
  - assert (Hrun : outer_calls (Toy.model_1d 2) [[[6]]; [[3]]]
                     (Toy.outer_step_1d 3 (Toy.outer_step_1d 6 (Toy.model_1d 2)))).
    { eapply (outer_calls_cons (H := T) _ Toy.support_labels Toy.support_input_1d None false
                (Toy.prepared_1d (Toy.model_1d 2)) 6 _ (Toy.outer_step_1d 6 (Toy.model_1d 2)));
        [vm_compute; reflexivity..|].
      eapply (outer_calls_cons (H := T) _ Toy.support_labels Toy.support_input_1d None false
                (Toy.prepared_1d (Toy.outer_step_1d 6 (Toy.model_1d 2))) 3 _
                (Toy.outer_step_1d 3 (Toy.outer_step_1d 6 (Toy.model_1d 2))));
        [vm_compute; reflexivity..|].
      apply (outer_calls_nil (H := T)). }
    split; [exact Hwf0|]. split; [reflexivity|]. split; [exact Hrun|].
    destruct (Hall _ _ _ Hwf0 eq_refl Hrun 0%nat 0%nat
                (mkParam (H := T) [1] None true) eq_refl eq_refl)
      as (col & q' & Hcol & Hq' & _ & Hg).
    rewrite Hq'. cbn. rewrite Hg.
    apply Forall2_cons_inv_l in Hcol as (c1 & col1 & [= <-] & Hcol & ->).
    apply Forall2_cons_inv_l in Hcol as (c2 & col2 & [= <-] & Hcol & ->).
    apply Forall2_nil_inv_l in Hcol as ->. reflexivity.
Defined.

End ToyEpisode.


Section StratifiedLoaderMore.
Import DataLoader.
Context {Tok : Type}.
Context {torch : TorchLong}.
Implicit Types (self : StratifiedLoader Tok) (c : Z) (cs : list Z).

Lemma next_step_Ok_pool self acc c r self' :
  next_step acc c self = (Ok r, self') -> has_pool self c.
Proof.
  destruct acc as [sup qry].
  unfold next_step, mbind, PyM_bind, PyM.bind, PyM.gets, read_pool, has_pool.
  destruct (self_data self !! c) as [[l|]|]; cbn beta iota; [eauto|intros [=]..].
Qed.

Lemma foldM_next_step_Ok_inv cs : forall self acc r self',
  PyM.foldM next_step cs acc self = (Ok r, self') ->
  NoDup cs /\ forall c, c ∈ cs -> has_pool self c.
Proof.
  induction cs as [|c cs IH]; intros self acc r self' Hfold.
  - split; [constructor|]. intros c Hc. by apply not_elem_of_nil in Hc.
  - cbn [PyM.foldM] in Hfold. unfold PyM.bind in Hfold.
    destruct (next_step acc c self) as [[r1|e] s1] eqn:Hstep; [|congruence].
    pose proof (next_step_Ok_pool _ _ _ _ _ Hstep) as Hpool.
    apply next_step_inv in Hstep as ->.
    apply IH in Hfold as [Hnd Hpools].
    assert (Hc : c ∉ cs).
    { intros Hin. destruct (Hpools c Hin) as [l Hl].
      unfold set_data in Hl; cbn [self_data] in Hl.
      rewrite lookup_insert_eq in Hl. discriminate Hl. }
    split; [by constructor|].
    intros c' [->|Hc']%elem_of_cons; [done|].
    destruct (Hpools c' Hc') as [l Hl]. exists l.
    unfold set_data in Hl; cbn [self_data] in Hl.
    rewrite lookup_insert_ne in Hl; [done|]. intros ->. done.
Qed.

Lemma next_Ok_inv self r self' :
  __next__ self = (Ok r, self') ->
  NoDup (self_labels self) /\ forall c, c ∈ self_labels self -> has_pool self c.
Proof.
  unfold __next__, mbind, PyM_bind, PyM.bind, PyM.gets. cbn beta iota.
  destruct (PyM.foldM next_step (self_labels self) (empty_set, empty_set) self)
    as [[acc|e] s1] eqn:Hfold; [|congruence].
  intros _. by eapply foldM_next_step_Ok_inv.
Qed.

Lemma return_sets_Some_inv (tok : list string -> Res Tok) (sup qry : list Example) r :
  return_sets (Some tok) (set_of sup) (set_of qry) = Ok r ->
  exists sup_text sup_labels qry_text qry_labels,
    tok (text <$> sup) = Ok sup_text /\
    LongTensor (labels <$> sup) = Ok sup_labels /\
    tok (text <$> qry) = Ok qry_text /\
    LongTensor (labels <$> qry) = Ok qry_labels /\
    r = (sup_labels, ModelInput sup_text, qry_labels, ModelInput qry_text).
Proof.
  unfold return_sets, _data_to_model_input, set_of, mbind, Res_bind.
  cbn [set_text set_labels].
  destruct (tok (text <$> sup)) as [sup_text|e]; [|done].
  destruct (LongTensor (labels <$> sup)) as [sup_labels|e]; [|done].
  destruct (tok (text <$> qry)) as [qry_text|e]; [|done].
  destruct (LongTensor (labels <$> qry)) as [qry_labels|e]; [|done].
  cbn. intros [= <-]. by exists sup_text, sup_labels, qry_text, qry_labels.
Qed.

(** X1: [__next__] returns exactly when the class list holds no class twice,
    the pool of every listed class is a list and, when a tokenizer is set,
    the conversion of the two sets that were filled returns; in any other
    state it raises. Without a tokenizer the first two conditions decide. *)
Theorem next_returns_iff self :
  let sup := self_labels self ≫= fun c => take (self_k self) (window self c) in
  let qry := self_labels self ≫= fun c => drop (self_k self) (window self c) in
  (exists r self', __next__ self = (Ok r, self')) <->
  NoDup (self_labels self) /\
  (forall c, c ∈ self_labels self -> has_pool self c) /\
  (forall tok, self_tokenizer self = Some tok ->
     exists support_set query_set,
       _data_to_model_input (set_of sup) (set_of qry) tok = Ok (support_set, query_set)).
Proof.
  intros sup qry. split.
  - intros (r & self' & Hnext).
    destruct (next_Ok_inv _ _ _ Hnext) as [Hnd Hpools].
    split; [done|]. split; [done|]. intros tok Htok.
    rewrite (next_run self Hnd Hpools), Htok in Hnext. injection Hnext as Hr _.
    fold sup qry in Hr. unfold return_sets in Hr.
    destruct (_data_to_model_input (set_of sup) (set_of qry) tok) as [[s q]|e]; [eauto|done].
  - intros (Hnd & Hpools & Hconv).
    rewrite (next_run self Hnd Hpools). fold sup qry.
    destruct (self_tokenizer self) as [tok|] eqn:Htok.
    + destruct (Hconv tok eq_refl) as (s & q & Hsq).
      unfold return_sets. rewrite Hsq. eauto.
    + rewrite return_sets_None. eauto.
Qed.

Lemma exhaust_lookup cs : forall self c,
  self_data (exhaust cs self) !! c =
    if decide (c ∈ cs) then Some None else self_data self !! c.
Proof.
  induction cs as [|c0 cs IH]; intros self c.
  - cbn. rewrite decide_False; [done|]. apply not_elem_of_nil.
  - unfold exhaust in *. cbn [foldl]. rewrite IH.
    destruct (decide (c ∈ cs)) as [Hin|Hnin].
    + rewrite decide_True; [done|]. by right.
    + unfold set_data; cbn [self_data].
      destruct (decide (c0 = c)) as [->|Hne].
      * rewrite lookup_insert_eq, decide_True; [done|]. left.
      * rewrite lookup_insert_ne by done. rewrite decide_False; [done|].
        intros [->|?]%elem_of_cons; done.
Qed.

Lemma exhaust_fields cs self :
  self_k (exhaust cs self) = self_k self /\
  self_labels (exhaust cs self) = self_labels self /\
  self_tokenizer (exhaust cs self) = self_tokenizer self /\
  self_n_classes (exhaust cs self) = self_n_classes self.
Proof.
  revert self. induction cs as [|c cs IH]; intros self; [done|].
  unfold exhaust in *. cbn [foldl]. destruct (IH (set_data c None self)) as (?&?&?&?).
  done.
Qed.

(** X2: whenever [__next__] returns, the support set is, class after class
    in the order of [self.labels], the first [k] examples of the class pool,
    and the query set the examples at positions [k .. 2k-1] (fewer when the
    pool is shorter), labels and texts in step: without a tokenizer their
    labels and texts are returned as they are, with a tokenizer what the
    tokenizer and [torch.LongTensor] made of them. Afterwards the pool of
    every listed class is [None] and every other entry of [self.data] is as
    before. *)
Theorem next_splits_each_window self r self' :
  __next__ self = (Ok r, self') ->
  let sup := self_labels self ≫= fun c => take (self_k self) (window self c) in
  let qry := self_labels self ≫= fun c => drop (self_k self) (window self c) in
  (self_tokenizer self = None ->
     r = (labels <$> sup, RawText (text <$> sup),
          labels <$> qry, RawText (text <$> qry))) /\
  (forall tok, self_tokenizer self = Some tok ->
     exists sup_text sup_labels qry_text qry_labels,
       tok (text <$> sup) = Ok sup_text /\
       LongTensor (labels <$> sup) = Ok sup_labels /\
       tok (text <$> qry) = Ok qry_text /\
       LongTensor (labels <$> qry) = Ok qry_labels /\
       r = (sup_labels, ModelInput sup_text, qry_labels, ModelInput qry_text)) /\
  (forall c, self_data self' !! c =
             if decide (c ∈ self_labels self) then Some None else self_data self !! c).
Proof.
  intros Hnext sup qry.
  destruct (next_Ok_inv _ _ _ Hnext) as [Hnd Hpools].
  rewrite (next_run self Hnd Hpools) in Hnext. injection Hnext as Hr <-.
  fold sup qry in Hr. split; [|split].
  - intros Hnone. rewrite Hnone, return_sets_None in Hr. congruence.
  - intros tok Htok. rewrite Htok in Hr. by apply return_sets_Some_inv.
  - intros c. apply exhaust_lookup.
Qed.

Lemma foldM_app {St A B} (body : B -> A -> PyM.M St B) (l1 l2 : list A) acc s :
  PyM.foldM body (l1 ++ l2) acc s =
    match PyM.foldM body l1 acc s with
    | (Ok acc', s') => PyM.foldM body l2 acc' s'
    | (Raise e, s') => (Raise e, s')
    end.
Proof.
  revert acc s. induction l1 as [|x l1 IH]; intros acc s; [done|].
  cbn [app PyM.foldM]. unfold PyM.bind.
  destruct (body acc x s) as [[acc'|e] s']; [apply IH|done].
Qed.

Lemma next_step_bad self acc c :
  ~ has_pool self c ->
  next_step acc c self =
    (Raise (if self_data self !! c is Some _ then TypeError else KeyError), self).
Proof.
  intros Hbad. destruct acc as [sup qry].
  unfold next_step, mbind, PyM_bind, PyM.bind, PyM.gets, read_pool. cbn beta iota.
  destruct (self_data self !! c) as [[l|]|] eqn:E; [|done..].
  destruct Hbad. by exists l.
Qed.

(** X3: when the classes before [c] in [self.labels] are distinct and have
    list pools but [c] has none, [__next__] raises at [c]: [KeyError] when
    [c] is not a key of [self.data], [TypeError] when its pool is [None].
    The failure is not atomic: the pools of the classes before [c] have
    already been replaced by [None]. *)
Theorem next_raises_at_first_bad_class self cs1 c cs2 :
  self_labels self = cs1 ++ c :: cs2 ->
  NoDup cs1 ->
  (forall c', c' ∈ cs1 -> has_pool self c') ->
  ~ has_pool self c ->
  __next__ self =
    (Raise (if self_data self !! c is Some _ then TypeError else KeyError),
     exhaust cs1 self).
Proof.
  intros Hlab Hnd Hpools Hbad.
  assert (Hc : c ∉ cs1) by (intros Hin; apply Hbad; by apply Hpools).
  unfold __next__, mbind, PyM_bind, PyM.bind, PyM.gets. cbn beta iota.
  rewrite Hlab, foldM_app, foldM_next_step_ok by done.
  cbn [PyM.foldM]. unfold PyM.bind at 1.
  rewrite next_step_bad.
  - by rewrite exhaust_lookup, decide_False.
  - intros [l Hl]. rewrite exhaust_lookup, decide_False in Hl by done.
    apply Hbad. by exists l.
Qed.

Lemma labels_window_replicate self c :
  class_ready self c ->
  labels <$> take (self_k self) (window self c) = replicate (self_k self) c /\
  labels <$> drop (self_k self) (window self c) = replicate (self_k self) c.
Proof.
  intros Hready.
  pose proof (window_length self c Hready) as Hlen.
  assert (Hall : forall l : list Example, (forall e, e ∈ l -> labels e = c) ->
                   labels <$> l = replicate (length l) c).
  { induction l as [|e l IH]; intros Hl; [done|].
    cbn. rewrite (Hl e) by left. f_equal. apply IH. intros e' He'. apply Hl. by right. }
  split.
  - rewrite Hall.
    + rewrite length_take. f_equal. lia.
    + intros e He. apply (window_class self); [done|]. by apply (subseteq_take (self_k self)).
  - rewrite Hall.
    + rewrite length_drop. f_equal. lia.
    + intros e He. apply (window_class self); [done|]. by apply (subseteq_drop (self_k self)).
Qed.

Lemma length_bind_const {A B} (f : A -> list B) (l : list A) n :
  (forall x, x ∈ l -> length (f x) = n) -> length (l ≫= f) = n * length l.
Proof.
  induction l as [|x l IH]; intros Hf; [cbn; lia|].
  rewrite bind_cons, length_app, Hf by left. rewrite IH; [cbn; lia|].
  intros y Hy. apply Hf. by right.
Qed.

Lemma window_lookup self c l :
  self_data self !! c = Some (Some l) -> window self c = take (2 * self_k self) l.
Proof. intros E. unfold window. by rewrite E. Qed.

Lemma labels_bind_replicate (f : Z -> list Example) cs k :
  (forall c, c ∈ cs -> labels <$> f c = replicate k c) ->
  labels <$> (cs ≫= f) = cs ≫= replicate k.
Proof.
  induction cs as [|c cs IH]; intros Hf; [done|].
  rewrite !bind_cons, fmap_app, Hf by left. f_equal. apply IH.
  intros c' Hc'. apply Hf. by right.
Qed.

(** X4: on a dataset whose classes each hold at least [2k] distinct examples
    carrying their class as label, the first call after [__init__], with or
    without shuffling, fills a support set and a query set whose labels each
    list every class [k] times, in the order of the dataset's keys; both
    sets hold [k * n_classes] examples, and every example comes from the
    dataset's list of its class. Without a tokenizer the call returns their
    labels and texts; with a tokenizer it returns or raises what their
    conversion returns or raises. *)
Theorem init_next_batch random_shuffle dataset k (tok : option (list string -> Res Tok))
    shuffle :
  (forall c l, random_shuffle c l ≡ₚ l) ->
  class_grouped k dataset ->
  exists sup qry self',
    __next__ (__init__ random_shuffle dataset k tok shuffle) =
      (return_sets tok (set_of sup) (set_of qry), self') /\
    (tok = None ->
       __next__ (__init__ random_shuffle dataset k tok shuffle) =
         (Ok (labels <$> sup, RawText (text <$> sup),
              labels <$> qry, RawText (text <$> qry)), self')) /\
    labels <$> sup = dataset.*1 ≫= replicate k /\
    labels <$> qry = dataset.*1 ≫= replicate k /\
    length sup = k * length dataset /\
    length qry = k * length dataset /\
    (forall e, e ∈ sup ++ qry -> exists l, (labels e, l) ∈ dataset /\ e ∈ l).
Proof.
  intros Hperm Hgrouped.
  pose proof (init_ready random_shuffle dataset k tok shuffle Hperm Hgrouped) as Hready.
  set (self := __init__ random_shuffle dataset k tok shuffle) in *.
  destruct Hready as [Hnd Hready].
  assert (Hpools : forall c, c ∈ self_labels self -> has_pool self c)
    by (intros c Hc; by apply class_ready_has_pool, Hready).
  pose proof (next_run self Hnd Hpools) as Hnext.
  change (self_labels self) with dataset.*1 in *.
  change (self_k self) with k in *. change (self_tokenizer self) with tok in *.
  exists (dataset.*1 ≫= fun c => take k (window self c)),
         (dataset.*1 ≫= fun c => drop k (window self c)), (exhaust dataset.*1 self).
  split; [exact Hnext|].
  split; [intros ->; by rewrite Hnext, return_sets_None|].
  split; [apply labels_bind_replicate; intros c Hc; by apply (labels_window_replicate self c), Hready|].
  split; [apply labels_bind_replicate; intros c Hc; by apply (labels_window_replicate self c), Hready|].
  assert (Hlen : length dataset.*1 = length dataset) by apply length_fmap.
  split.
  { rewrite <- Hlen. apply length_bind_const. intros c Hc.
    pose proof (window_length self c (Hready c Hc)) as Hw.
    change (self_k self) with k in Hw. rewrite length_take. lia. }
  split.
  { rewrite <- Hlen. apply length_bind_const. intros c Hc.
    pose proof (window_length self c (Hready c Hc)) as Hw.
    change (self_k self) with k in Hw. rewrite length_drop. lia. }
  intros e He.
  assert (Hw : exists c, c ∈ dataset.*1 /\ e ∈ window self c).
  { apply elem_of_app in He as [He|He]; apply list_elem_of_bind in He as (c & He & Hc);
      exists c; (split; [done|]).
    - by apply (subseteq_take k).
    - by apply (subseteq_drop k). }
  destruct Hw as (c & Hc & He'). clear He.
  pose proof (window_class self c e (Hready c Hc) He') as Hlab.
  apply list_elem_of_fmap in Hc as ([c' l] & -> & Hin). cbn [fst] in *.
  exists l. split; [by rewrite Hlab|].
  destruct Hgrouped as [Hnd' _].
  rewrite (window_lookup self c' _
             (init_lookup random_shuffle dataset k tok shuffle c' l Hnd' Hin)) in He'.
  apply (subseteq_take (2 * self_k self)) in He'.
  destruct shuffle; [by rewrite Hperm in He'|done].
Qed.

(** X5: whether it returns or raises, [__next__] leaves [k], the class
    list, the tokenizer and [n_classes] as they were and adds or removes no
    key of [self.data]; an entry of [self.data] is either unchanged or was
    the list pool of a listed class and is now [None]. *)
Theorem next_frame self :
  let self' := (__next__ self).2 in
  self_k self' = self_k self /\
  self_labels self' = self_labels self /\
  self_tokenizer self' = self_tokenizer self /\
  self_n_classes self' = self_n_classes self /\
  dom (self_data self') = dom (self_data self) /\
  (forall c, self_data self' !! c = self_data self !! c \/
             (self_data self' !! c = Some None /\ c ∈ self_labels self /\ has_pool self c)).
Proof.
  set (I := fun s : StratifiedLoader Tok =>
    self_k s = self_k self /\ self_labels s = self_labels self /\
    self_tokenizer s = self_tokenizer self /\ self_n_classes s = self_n_classes self /\
    forall c, self_data s !! c = self_data self !! c \/
              (self_data s !! c = Some None /\ c ∈ self_labels self /\ has_pool self c)).
  assert (Hstep : forall acc c, c ∈ self_labels self ->
            triple I (next_step acc c) (fun _ => I) I).
  { intros [sup qry] c Hc s Hs.
    unfold next_step, mbind, PyM_bind, PyM.bind, PyM.gets, read_pool, PyM.modify,
      mret, PyM_ret, PyM.ret.
    destruct (self_data s !! c) as [[l|]|] eqn:E; cbn beta iota; rewrite ?E;
      cbn beta iota; [|done..].
    destruct Hs as (Hk & Hlab & Htok & Hn & Hdata).
    repeat (split; [done|]). intros c'. unfold set_data; cbn [self_data].
    destruct (decide (c = c')) as [<-|Hne]; [|rewrite !lookup_insert_ne by done; apply Hdata].
    right. rewrite lookup_insert_eq. split; [done|]. split; [done|].
    destruct (Hdata c) as [Heq|[Heq _]].
    - exists l. by transitivity (self_data s !! c).
    - exfalso. assert (Some (Some l) = Some None :> option Pool) as [=].
      by transitivity (self_data s !! c). }
  assert (Htriple : triple I __next__ (fun _ => I) I).
  { unfold __next__.
    apply triple_bind with (Q1 := fun cs s => I s /\ cs = self_labels self).
    { apply triple_gets. intros s Hs. split; [done|]. apply Hs. }
    intros cs.
    apply triple_bind with (Q1 := fun _ => I).
    { intros s [Hs ->]. revert s Hs. apply triple_foldM. intros acc c Hc. by apply Hstep. }
    intros [sup qry].
    apply triple_bind with (Q1 := fun _ => I); [by apply triple_gets|intros tok].
    apply triple_lift. intros s Hs. by destruct (return_sets tok sup qry). }
  assert (HI : I self) by (repeat (split; [done|]); intros c; by left).
  specialize (Htriple self HI). intros self'.
  assert (Hfinal : I self') by (subst self'; by destruct (__next__ self) as [[r|e] s']).
  destruct Hfinal as (Hk & Hlab & Htok & Hn & Hdata).
  repeat (split; [done|]). split; [|done].
  apply set_eq. intros c. rewrite !elem_of_dom.
  destruct (Hdata c) as [Heq|(Heq & _ & l & Hl)].
  - split; intros [x Hx]; exists x;
      [transitivity (self_data self' !! c); [symmetry; exact Heq|exact Hx]
      |transitivity (self_data self !! c); [exact Heq|exact Hx]].
  - split; intros _; [exists (Some l); exact Hl|exists None; exact Heq].
Qed.

End StratifiedLoaderMore.

Section NK.
Import DataLoader.

(** X6: the draw of the number of classes never raises: its outcomes are a
    non-empty list of values between 0 and the number of classes, so the
    class sample without replacement that follows never asks for more
    classes than there are. With at most 3 classes, or with [subset_classes]
    off, the only outcome is the number of classes; otherwise every outcome
    is at least 2 and below the number of classes. *)
Theorem next_n_classes_total self :
  exists outcomes,
    next_n_classes self = Ok outcomes /\
    outcomes <> [] /\
    forall n, n ∈ outcomes ->
      (0 <= n <= Z.of_nat (length (nk_classes self)))%Z /\
      (length (nk_classes self) <= 3 \/ nk_subset_classes self = false ->
         n = Z.of_nat (length (nk_classes self))) /\
      (3 < length (nk_classes self) -> nk_subset_classes self = true ->
         (2 <= n < Z.of_nat (length (nk_classes self)))%Z).
Proof.
  unfold next_n_classes, np_random_randint.
  destruct (Z.leb_spec (Z.of_nat (length (nk_classes self))) 3) as [Hle|Hgt]; cbn [orb].
  - eexists. split; [reflexivity|]. split; [done|].
    intros n ->%list_elem_of_singleton. repeat split; lia.
  - destruct (nk_subset_classes self); cbn [negb].
    + destruct (Z.ltb_spec 2 (Z.of_nat (length (nk_classes self)))) as [_|Hge]; [|lia].
      eexists. split; [reflexivity|]. split.
      * intros Hnil. apply (f_equal length) in Hnil. rewrite length_seqZ in Hnil.
        cbn in Hnil. lia.
      * intros n Hn%elem_of_seqZ. split; [lia|]. split; [intros [?|?]; [lia|done]|lia].
    + eexists. split; [reflexivity|]. split; [done|].
      intros n ->%list_elem_of_singleton. repeat split; lia.
Qed.
End NK.



Section TempMap.
Import DataLoader.

Lemma sorted_set_elem l c : c ∈ sorted_set l <-> c ∈ l.
Proof. unfold sorted_set. rewrite merge_sort_Permutation. apply elem_of_remove_dups. Qed.

Lemma sorted_set_NoDup l : NoDup (sorted_set l).
Proof. unfold sorted_set. rewrite merge_sort_Permutation. apply NoDup_remove_dups. Qed.

Lemma sorted_set_length l : length (sorted_set l) = size (list_to_set l : gset Z).
Proof.
  rewrite <- (size_list_to_set (C := gset Z) (sorted_set l)) by apply sorted_set_NoDup.
  f_equal. apply set_eq. intros c. rewrite !elem_of_list_to_set. apply sorted_set_elem.
Qed.

Lemma sorted_set_lt l i j ci cj :
  sorted_set l !! i = Some ci -> sorted_set l !! j = Some cj ->
  (i < j <-> (ci < cj)%Z).
Proof.
  assert (Hs : StronglySorted Z.le (sorted_set l)).
  { unfold sorted_set. apply StronglySorted_merge_sort; [apply _|].
    intros x y. lia. }
  pose proof (sorted_set_NoDup l) as Hnd.
  revert Hs Hnd. generalize (sorted_set l). clear l. intros L Hs Hnd Hi Hj.
  assert (Hmono : forall a b x y, L !! a = Some x -> L !! b = Some y -> a < b -> (x < y)%Z).
  { intros a b x y Ha Hb Hab.
    assert ((x <= y)%Z).
    { rewrite <- (take_drop b L) in Hs.
      apply (StronglySorted_app_1_elem_of _ _ _ x y Hs).
      - apply (list_elem_of_lookup_2 _ a). by rewrite lookup_take_lt.
      - apply (list_elem_of_lookup_2 _ 0). by rewrite lookup_drop, Nat.add_0_r. }
    assert (x <> y).
    { intros ->. pose proof (NoDup_lookup _ _ _ _ Hnd Ha Hb). lia. }
    lia. }
  split.
  - by apply Hmono.
  - intros Hlt. destruct (Nat.lt_trichotomy i j) as [?|[->|Hgt]]; [done| |].
    + assert (ci = cj) by congruence. lia.
    + pose proof (Hmono _ _ _ _ Hj Hi Hgt). lia.
Qed.

Lemma make_temp_map_lookup l c t :
  make_temp_map l !! c = Some t <->
  exists i, sorted_set l !! i = Some c /\ t = Z.of_nat i.
Proof.
  unfold make_temp_map.
  assert (Hfst : (imap (fun i c' => (c', Z.of_nat i)) (sorted_set l)).*1 = sorted_set l).
  { rewrite fmap_imap. rewrite (imap_ext _ (const id)) by done.
    by rewrite imap_const, list_fmap_id. }
  rewrite <- elem_of_list_to_map by (rewrite Hfst; apply sorted_set_NoDup).
  rewrite elem_of_lookup_imap. split.
  - intros (i & c' & [= -> ->] & Hi). eauto.
  - intros (i & Hi & ->). eauto.
Qed.


Lemma make_temp_map_dom l c : is_Some (make_temp_map l !! c) <-> c ∈ l.
Proof.
  rewrite <- sorted_set_elem. split.
  - intros [t (i & Hi & _)%make_temp_map_lookup]. by eapply list_elem_of_lookup_2.
  - intros [i Hi]%list_elem_of_lookup_1. exists (Z.of_nat i).
    apply make_temp_map_lookup. eauto.
Qed.

Lemma make_temp_map_range l c t :
  make_temp_map l !! c = Some t ->
  (0 <= t < Z.of_nat (size (list_to_set l : gset Z)))%Z.
Proof.
  rewrite <- sorted_set_length.
  intros (i & Hi & ->)%make_temp_map_lookup. apply lookup_lt_Some in Hi. lia.
Qed.

Lemma make_temp_map_onto l t :
  (0 <= t < Z.of_nat (size (list_to_set l : gset Z)))%Z ->
  exists c, make_temp_map l !! c = Some t.
Proof.
  rewrite <- sorted_set_length. intros Ht.
  destruct (lookup_lt_is_Some_2 (sorted_set l) (Z.to_nat t)) as [c Hc]; [lia|].
  exists c. apply make_temp_map_lookup. exists (Z.to_nat t). split; [done|lia].
Qed.

(** X7: the temporary label map built from the sampled classes is defined
    exactly on the sampled classes, takes its values in [0, n) for [n] the
    number of distinct sampled classes, reaches every value of that range,
    and is strictly increasing: it numbers the sampled classes in ascending
    order. *)
Theorem make_temp_map_order_isomorphism classes_sample :
  let m := make_temp_map classes_sample in
  let n := Z.of_nat (size (list_to_set classes_sample : gset Z)) in
  (forall c, is_Some (m !! c) <-> c ∈ classes_sample) /\
  (forall c t, m !! c = Some t -> (0 <= t < n)%Z) /\
  (forall t, (0 <= t < n)%Z -> exists c, m !! c = Some t) /\
  (forall c1 c2 t1 t2, m !! c1 = Some t1 -> m !! c2 = Some t2 ->
     ((c1 < c2)%Z <-> (t1 < t2)%Z)).
Proof.
  intros m n. subst m n. split; [|split; [|split]].
  - apply make_temp_map_dom.
  - apply make_temp_map_range.
  - apply make_temp_map_onto.
  - intros c1 c2 t1 t2 (i1 & Hi1 & ->)%make_temp_map_lookup
      (i2 & Hi2 & ->)%make_temp_map_lookup.
    rewrite <- (sorted_set_lt classes_sample i1 i2 c1 c2 Hi1 Hi2). lia.
Qed.

Lemma map_labels_ok m (labels : list Z) :
  (forall l, l ∈ labels -> is_Some (m !! l)) ->
  map_labels m labels = Ok (relabel (Some m) <$> labels).
Proof.
  intros Hin. unfold map_labels. apply mapRes_ok. intros l Hl.
  destruct (Hin l Hl) as [t Ht]. unfold relabel. by rewrite Ht.
Qed.

Lemma mapRes_raise {A B} (f : A -> Res B) (l : list A) e :
  (forall x, x ∈ l -> f x = Raise e \/ exists y, f x = Ok y) ->
  (exists x, x ∈ l /\ f x = Raise e) -> mapRes f l = Raise e.
Proof.
  induction l as [|x l IH]; intros Hall (x0 & Hx0 & Hraise).
  - by apply not_elem_of_nil in Hx0.
  - cbn. destruct (Hall x) as [Hx|[y Hx]]; [left|by rewrite Hx|]. rewrite Hx. cbn.
    assert (mapRes f l = Raise e) as ->; [|done].
    apply IH; [intros z Hz; apply Hall; by right|].
    apply elem_of_cons in Hx0 as [->|Hx0]; [congruence|eauto].
Qed.

(** X8: mapping a list of labels through the temporary label map raises
    [KeyError] as soon as one label is not a sampled class. When every label
    is a sampled class it returns, position by position, the temporary label
    of each label, all in [0, n); when moreover every sampled class occurs
    among the labels, the returned labels are exactly the values [0 .. n-1]. *)
Theorem map_labels_onto_range classes_sample (labels : list Z) :
  let m := make_temp_map classes_sample in
  let n := Z.of_nat (size (list_to_set classes_sample : gset Z)) in
  ((exists l, l ∈ labels /\ l ∉ classes_sample) -> map_labels m labels = Raise KeyError) /\
  ((forall l, l ∈ labels -> l ∈ classes_sample) ->
     exists mapped,
       map_labels m labels = Ok mapped /\
       Forall2 (fun l t => m !! l = Some t) labels mapped /\
       (forall t, t ∈ mapped -> (0 <= t < n)%Z) /\
       ((forall c, c ∈ classes_sample -> c ∈ labels) ->
          forall t, t ∈ mapped <-> (0 <= t < n)%Z)).
Proof.
  intros m n.
  pose proof (make_temp_map_dom classes_sample) as Hdom.
  pose proof (make_temp_map_range classes_sample) as Hrange.
  pose proof (make_temp_map_onto classes_sample) as Honto.
  fold m n in Hdom, Hrange, Honto. split.
  - intros (l & Hl & Hno). unfold map_labels. apply mapRes_raise.
    + intros x _. destruct (m !! x); eauto.
    + exists l. split; [done|]. destruct (m !! l) as [t|] eqn:Ht; [|done].
      destruct Hno. apply Hdom. eauto.
  - intros Hin. exists (relabel (Some m) <$> labels).
    assert (Hsome : forall l, l ∈ labels -> m !! l = Some (relabel (Some m) l)).
    { intros l Hl. destruct (proj2 (Hdom l) (Hin l Hl)) as [t Ht].
      unfold relabel. by rewrite Ht. }
    split; [apply map_labels_ok; intros l Hl; apply Hdom; by apply Hin|].
    split; [|split].
    + apply Forall2_fmap_r, Forall_Forall2_diag, Forall_forall. exact Hsome.
    + intros t (l & -> & Hl)%list_elem_of_fmap. by apply (Hrange l), Hsome.
    + intros Hall t. split.
      * intros (l & -> & Hl)%list_elem_of_fmap. by apply (Hrange l), Hsome.
      * intros Ht. destruct (Honto t Ht) as [c Hc].
        assert (c ∈ labels) as Hcl by (apply Hall, Hdom; eauto).
        apply list_elem_of_fmap. exists c. split; [|done].
        pose proof (Hsome c Hcl) as Hc'. congruence.
Qed.

End TempMap.

Section QuerySize.
Import DataLoader.
Implicit Types (self : AdaptiveNKShotLoader).

Lemma mapRes_Ok_inv {A B} (f : A -> Res B) (l : list A) (l' : list B) :
  mapRes f l = Ok l' -> Forall2 (fun x y => f x = Ok y) l l'.
Proof.
  revert l'. induction l as [|x l IH]; intros l'; cbn; [intros [= <-]; constructor|].
  destruct (f x) as [y|e] eqn:Hx; cbn; [|done].
  destruct (mapRes f l) as [ys|e]; cbn; [|done].
  intros [= <-]. constructor; [done|]. by apply IH.
Qed.

Lemma foldl_min_spec (a : list Z) (x : Z) :
  (foldl Z.min x a = x \/ foldl Z.min x a ∈ a) /\
  (foldl Z.min x a <= x)%Z /\ forall y, y ∈ a -> (foldl Z.min x a <= y)%Z.
Proof.
  revert x. induction a as [|z a IH]; intros x; cbn.
  - split; [by left|]. split; [lia|]. intros y Hy. by apply not_elem_of_nil in Hy.
  - destruct (IH (Z.min x z)) as (Hin & Hle & Hall). split; [|split].
    + destruct Hin as [->|Hin]; [|right; by right].
      destruct (Z.min_spec x z) as [[_ ->]|[_ ->]]; [by left|right; left].
    + lia.
    + intros y [->|Hy]%elem_of_cons; [lia|by apply Hall].
Qed.

Lemma np_min_spec (a : list Z) m :
  np_min a = Ok m -> m ∈ a /\ forall y, y ∈ a -> (m <= y)%Z.
Proof.
  destruct a as [|x a]; [done|]. cbn. intros [= <-].
  destruct (foldl_min_spec a x) as (Hin & Hle & Hall). split.
  - destruct Hin as [->|Hin]; [left|by right].
  - intros y [->|Hy]%elem_of_cons; [done|by apply Hall].
Qed.

Lemma query_size_spec self (lens : list Z) q :
  query_size self lens = Ok q ->
  (forall n, n ∈ lens -> (0 <= n)%Z) ->
  lens <> [] /\ (0 <= q)%Z /\
  (q * Z.of_nat (length lens) <= Z.of_nat (nk_max_support_size self))%Z /\
  (forall n, n ∈ lens -> (2 * q <= n)%Z).
Proof.
  unfold query_size. destruct (np_min _) as [m|e] eqn:Hmin; cbn; [|done].
  intros [= <-] Hpos. apply np_min_spec in Hmin as [Hin Hall].
  assert (Hne : lens <> []) by (intros ->; by apply not_elem_of_nil in Hin).
  assert (Hlen : (0 < Z.of_nat (length lens))%Z) by (destruct lens; [done|cbn; lia]).
  apply list_elem_of_fmap in Hin as (n0 & -> & Hn0).
  split; [done|]. split; [|split].
  - pose proof (Hpos n0 Hn0).
    pose proof (Z.div_pos (Z.of_nat (nk_max_support_size self)) _ ltac:(lia) Hlen).
    pose proof (Z.div_pos n0 2 ltac:(lia) ltac:(lia)). lia.
  - pose proof (Z.mul_div_le (Z.of_nat (nk_max_support_size self)) _ Hlen).
    assert (Z.min (Z.of_nat (nk_max_support_size self) / Z.of_nat (length lens)) (n0 / 2)
            <= Z.of_nat (nk_max_support_size self) / Z.of_nat (length lens))%Z by lia.
    nia.
  - intros n Hn. assert ((n0 / 2 <= n / 2)%Z) as Hle.
    { apply Hall. apply list_elem_of_fmap. by exists n. }
    pose proof (Z.mul_div_le n 2 ltac:(lia)). lia.
Qed.

(** X9: when the query size is computed, at least one class was sampled,
    the query size is not negative, the query set (query size times the
    number of sampled classes) does not exceed [max_support_size], and twice
    the query size fits in the pool of every sampled class. *)
Theorem query_size_bounds self classes_sample lens q :
  class_lens self classes_sample = Ok lens ->
  query_size self lens = Ok q ->
  classes_sample <> [] /\ (0 <= q)%Z /\
  (q * Z.of_nat (length classes_sample) <= Z.of_nat (nk_max_support_size self))%Z /\
  (forall c pool, c ∈ classes_sample -> nk_data self !! c = Some pool ->
     (2 * q <= Z.of_nat (length pool))%Z).
Proof.
  intros Hlens%mapRes_Ok_inv Hq.
  assert (Hpos : forall n, n ∈ lens -> (0 <= n)%Z).
  { intros n [i Hn]%list_elem_of_lookup_1.
    destruct (Forall2_lookup_r _ _ _ _ _ Hlens Hn) as (c & _ & Hc).
    destruct (nk_data self !! c); [|done]. injection Hc as <-. lia. }
  destruct (query_size_spec self lens q Hq Hpos) as (Hne & Hq0 & Htot & Hhalf).
  pose proof (Forall2_length _ _ _ Hlens) as Hlen.
  split; [intros ->; by destruct lens|]. split; [done|]. split; [by rewrite Hlen|].
  intros c pool [i Hc]%list_elem_of_lookup_1 Hpool.
  destruct (Forall2_lookup_l _ _ _ _ _ Hlens Hc) as (n & Hn & Hcn).
  rewrite Hpool in Hcn. injection Hcn as <-.
  apply Hhalf. by eapply list_elem_of_lookup_2.
Qed.

End QuerySize.

Section NKNext.
Import DataLoader.
Context (choice_allows_empty : bool).
Context (perm_classes : list Z -> list Z).
Context (perm_pool : Z -> list Example -> list Example).
Implicit Types (self : AdaptiveNKShotLoader).












End NKNext.



Section DenseLabels.
Import ProtoMAML.
Context `{Torch}.
Implicit Types (s st self : ProtoMAMLSeqTransformer) (h : list Param).

Lemma sorted_lt_ext (l1 l2 : list Z) :
  StronglySorted Z.lt l1 -> StronglySorted Z.lt l2 ->
  (forall c, c ∈ l1 <-> c ∈ l2) -> l1 = l2.
Proof.
  intros H1. revert l2. induction H1 as [|x l1 Hs1 IH Hx]; intros l2 H2 Hel.
  - destruct l2 as [|y l2]; [done|].
    assert (y ∈ []) as Hy by (apply Hel; left). by apply not_elem_of_nil in Hy.
  - destruct H2 as [|y l2 Hs2 Hy].
    { assert (x ∈ []) as Hx' by (apply Hel; left). by apply not_elem_of_nil in Hx'. }
    rewrite Forall_forall in Hx, Hy.
    assert (x = y) as <-.
    { assert (x ∈ y :: l2) as [->|Hxin]%elem_of_cons by (apply Hel; left); [done|].
      assert (y ∈ x :: l1) as [->|Hyin]%elem_of_cons by (apply Hel; left); [done|].
      specialize (Hx _ Hyin). specialize (Hy _ Hxin). lia. }
    f_equal. apply IH; [done|]. intros c. split; intros Hc.
    + assert (c ∈ x :: l2) as [->|?]%elem_of_cons by (apply Hel; by right); [|done].
      specialize (Hx _ Hc). lia.
    + assert (c ∈ x :: l1) as [->|?]%elem_of_cons by (apply Hel; by right); [|done].
      specialize (Hy _ Hc). lia.
Qed.

Lemma seqZ_sorted (n : nat) (m : Z) : StronglySorted Z.lt (seqZ m (Z.of_nat n)).
Proof.
  revert m. induction n as [|n IH]; intros m.
  - cbn. constructor.
  - rewrite Nat2Z.inj_succ, seqZ_cons by lia.
    constructor.
    + replace (Z.pred (Z.succ (Z.of_nat n))) with (Z.of_nat n) by lia. apply IH.
    + apply Forall_forall. intros c Hc%elem_of_seqZ. lia.
Qed.

Lemma torch_unique_dense (labels : list Z) (N : Z) :
  (forall c, c ∈ labels <-> (0 <= c < N)%Z) -> torch_unique labels = seqZ 0 N.
Proof.
  intros Hdense. apply sorted_lt_ext; [apply torch_unique_sorted| |].
  - destruct (Z.le_gt_cases 0 N) as [Hle|Hgt].
    + rewrite <- (Z2Nat.id N) by done. apply seqZ_sorted.
    + rewrite seqZ_nil by lia. constructor.
  - intros c. rewrite elem_of_torch_unique, Hdense, elem_of_seqZ. lia.
Qed.

Lemma generate_clf_weights_ok labels x self y :
  seq_transformer (param_values (heap self) (model_shared self))
                  (training (model_shared self)) x = Ok y ->
  length y = length labels -> labels <> [] ->
  generate_clf_weights labels x self =
    (Ok ((fun c => mul (of_Z 2) <$> class_prototype y labels c) <$> torch_unique labels,
         (fun c => neg (norm2 (class_prototype y labels c))) <$> torch_unique labels), self).
Proof.
  intros Hy Hlen Hne.
  unfold generate_clf_weights, _generate_protoypes, call_model,
    mbind, PyM_bind, PyM.bind, PyM.gets, PyM.lift, mret, PyM_ret, PyM.ret.
  rewrite Hy, prototypes_of_ok by done.
  destruct (torch_unique labels) as [|c cs] eqn:Hu.
  - destruct labels as [|l labels]; [done|].
    assert (l ∈ torch_unique (l :: labels)) as Hin by (apply elem_of_torch_unique; left).
    rewrite Hu in Hin. by apply not_elem_of_nil in Hin.
  - cbn. by rewrite <- !list_fmap_compose.
Qed.

(** X11: when the support labels take exactly the values [0 .. N-1], as the
    temporary labels of the adaptive loader do, [generate_clf_weights]
    returns [N] rows and [N] biases, and row [c] and bias [c] are those of
    label [c]: 2 times the prototype of class [c], and minus its norm. *)
Theorem generate_clf_weights_dense_labels labels x self y (N : Z) :
  seq_transformer (param_values (heap self) (model_shared self))
                  (training (model_shared self)) x = Ok y ->
  length y = length labels ->
  (0 < N)%Z ->
  (forall c, c ∈ labels <-> (0 <= c < N)%Z) ->
  exists W b,
    generate_clf_weights labels x self = (Ok (W, b), self) /\
    length W = Z.to_nat N /\ length b = Z.to_nat N /\
    forall c, (0 <= c < N)%Z ->
      W !! Z.to_nat c = Some (mul (of_Z 2) <$> class_prototype y labels c) /\
      b !! Z.to_nat c = Some (neg (norm2 (class_prototype y labels c))).
Proof.
  intros Hy Hlen HN Hdense.
  assert (Hne : labels <> []).
  { intros ->. assert (0%Z ∈ ([] : list Z)) as Hin by (apply Hdense; lia).
    by apply not_elem_of_nil in Hin. }
  eexists _, _. split; [by apply generate_clf_weights_ok|].
  rewrite (torch_unique_dense labels N Hdense), !length_fmap, length_seqZ.
  split; [done|]. split; [done|]. intros c Hc.
  rewrite !list_lookup_fmap, lookup_seqZ_lt by lia.
  cbn. rewrite Z2Nat.id by lia. done.
Qed.

(** X12: [generate_clf_weights] never changes the model. It passes on an
    exception of the shared encoder; on an empty batch it raises
    [RuntimeError] (nothing to stack); on a non-empty batch whose labels and
    embeddings differ in length it raises [IndexError]. *)
Theorem generate_clf_weights_errors labels x self :
  (generate_clf_weights labels x self).2 = self /\
  (forall e,
     seq_transformer (param_values (heap self) (model_shared self))
                     (training (model_shared self)) x = Raise e ->
     (generate_clf_weights labels x self).1 = Raise e) /\
  (forall y,
     seq_transformer (param_values (heap self) (model_shared self))
                     (training (model_shared self)) x = Ok y ->
     (labels = [] -> (generate_clf_weights labels x self).1 = Raise RuntimeError) /\
     (labels <> [] -> length y <> length labels ->
        (generate_clf_weights labels x self).1 = Raise IndexError)).
Proof.
  split; [apply readonly_generate_clf_weights|].
  unfold generate_clf_weights, _generate_protoypes, call_model,
    mbind, PyM_bind, PyM.bind, PyM.gets, PyM.lift, mret, PyM_ret, PyM.ret.
  split.
  - intros e ->. done.
  - intros y ->. split.
    + intros ->. done.
    + intros Hne Hlen. unfold prototypes_of.
      destruct (torch_unique labels) as [|c cs] eqn:Hu.
      * destruct labels as [|l labels]; [done|].
        assert (l ∈ torch_unique (l :: labels)) as Hin by (apply elem_of_torch_unique; left).
        rewrite Hu in Hin. by apply not_elem_of_nil in Hin.
      * cbn [mapRes]. unfold index_mask. rewrite length_fmap.
        rewrite decide_False by (intros Heq; by apply Hlen). done.
Qed.

(** X13: [train] sets the training flag of the shared encoder, [eval]
    clears it, and neither touches a parameter object. With a task model in
    place both return and set its flag as well; with [model_task] still
    [None] they return and change the shared encoder only; with [model_task]
    deleted they raise [AttributeError] after the shared encoder was switched.
    Unless [model_task] is deleted, the later of two switches wins. *)
Theorem train_eval_switch_both_encoders st :
  training (model_shared (train st).2) = true /\
  training (model_shared (eval st).2) = false /\
  heap (train st).2 = heap st /\ heap (eval st).2 = heap st /\
  (forall task, model_task st = Val task ->
     train st = (Ok tt, (train st).2) /\ eval st = (Ok tt, (eval st).2) /\
     model_task (train st).2 = Val (set_training true task) /\
     model_task (eval st).2 = Val (set_training false task)) /\
  (model_task st = PyNone ->
     train st = (Ok tt, set_model_shared (set_training true (model_shared st)) st) /\
     eval st = (Ok tt, set_model_shared (set_training false (model_shared st)) st)) /\
  (model_task st = Absent ->
     train st = (Raise AttributeError,
                 set_model_shared (set_training true (model_shared st)) st) /\
     eval st = (Raise AttributeError,
                set_model_shared (set_training false (model_shared st)) st)) /\
  (model_task st <> Absent ->
     (train;; eval) st = eval st /\ (eval;; train) st = train st).
Proof.
  unfold train, eval, set_mode, getattr, mbind, PyM_bind, PyM.bind, PyM.modify,
    mret, PyM_ret, PyM.ret.
  cbn. destruct (model_task st) as [| |task] eqn:Ht; cbn; rewrite ?Ht;
    repeat split; try done; intros; simplify_eq; done.
Qed.

(** X14: a completed [adapt] leaves as [model_task] a copy with the mode
    of the shared encoder and as many parameters, which are distinct objects
    created by this call (none existed before); position by position they
    hold the value and the [requires_grad] flag of the shared parameters. *)
Theorem adapt_task_copy_fresh st labels x name verbose st' :
  wf st ->
  adapt labels x name verbose st = (Ok tt, st') ->
  exists task,
    model_task st' = Val task /\
    training task = training (model_shared st) /\
    NoDup (parameters task) /\
    length (parameters task) = length (parameters (model_shared st)) /\
    (forall l, l ∈ parameters task -> length (heap st) <= l < length (heap st')) /\
    (forall i l l',
       parameters (model_shared st) !! i = Some l -> parameters task !! i = Some l' ->
       exists p p', heap st !! l = Some p /\ heap st' !! l' = Some p' /\
                    data p' = data p /\ requires_grad p' = requires_grad p).
Proof.
  intros Hwf [(Hsh & _ & Hg & Htask) _]%adapt_adapted.
  pose proof (shared_objects_total st Hwf) as Hobj.
  pose proof (Forall2_length _ _ _ Hobj) as Hlen.
  pose proof (grad_only_length _ _ _ Hg) as Hlen'.
  unfold copied_heap in Hlen'. rewrite length_app, length_fmap in Hlen'.
  exists (task_copy st). split; [done|]. split; [done|]. cbn [task_copy parameters].
  split; [apply NoDup_seq|]. split; [by rewrite length_seq|]. split.
  - intros l Hl%elem_of_seq. lia.
  - intros i l l' Hl Hl'. apply lookup_seq in Hl' as [-> Hi].
    destruct (lookup_lt_is_Some_2 (shared_objects st) i) as [p Hp]; [done|].
    pose proof (Forall2_lookup_lr _ _ _ _ _ _ Hobj Hl Hp) as Hlp.
    destruct (lookup_lt_is_Some_2 (heap st') (length (heap st) + i)) as [p' Hp']; [lia|].
    exists p, p'. split; [done|]. split; [done|].
    destruct Hg as (_ & Hd & Hr).
    assert (Hc : copied_heap st !! (length (heap st) + i) = Some (copy_parameter p)).
    { unfold copied_heap. rewrite lookup_app_r by lia. rewrite list_lookup_fmap.
      replace (length (heap st) + i - length (heap st)) with i by lia. by rewrite Hp. }
    split.
    + assert (Some (data p') = Some (data (copy_parameter p))) as [= ->]; [|done].
      by rewrite <- (fmap_Some_2 data _ _ Hp'), <- (fmap_Some_2 data _ _ Hc),
           <- !list_lookup_fmap, Hd.
    + assert (Some (requires_grad p') = Some (requires_grad (copy_parameter p))) as [= ->];
        [|done].
      by rewrite <- (fmap_Some_2 requires_grad _ _ Hp'),
           <- (fmap_Some_2 requires_grad _ _ Hc), <- !list_lookup_fmap, Hr.
Qed.

End DenseLabels.

Section AdaptErrors.
Import ProtoMAML.
Context `{Torch}.
Implicit Types (s st : ProtoMAMLSeqTransformer) (h : list Param).

Lemma adapt_poisoned st labels x name verbose :
  poisoned st ->
  (adapt labels x name verbose st).1 = Raise AttributeError /\
  poisoned (adapt labels x name verbose st).2 /\
  heap (adapt labels x name verbose st).2 = heap st /\
  model_shared (adapt labels x name verbose st).2 = model_shared st.
Proof.
  intros Hp.
  unfold adapt, delattr, mbind, PyM_bind, PyM.bind, PyM.modify, poisoned in *. cbn.
  destruct (model_task st) as [| |task] eqn:Ht; cbn;
    [by rewrite Ht; auto| |];
    (destruct (W_task st) as [| |W] eqn:HW; cbn; [auto| |]);
    (destruct (b_task st) as [| |b] eqn:Hb; cbn; [auto|..]);
    destruct Hp as [?|[?|?]]; done.
Qed.

Lemma adapt_copy_phase st labels x name verbose :
  ~ poisoned st ->
  exists s1,
    adapting st s1 /\ W_task s1 = Absent /\ b_task s1 = Absent /\
    forall e, (generate_clf_weights labels x s1).1 = Raise e ->
      adapt labels x name verbose st = (Raise e, s1).
Proof.
  intros Hp.
  assert (Ht : model_task st <> Absent) by (intros ?; apply Hp; by left).
  assert (HW : W_task st <> Absent) by (intros ?; apply Hp; right; by left).
  assert (Hb : b_task st <> Absent) by (intros ?; apply Hp; right; by right).
  exists (mkModel
            (foldl (fun h l => update_param (fun p => set_grad (zero_grad_buffer (grad p)) p) l h)
                   (copied_heap st) (parameters (task_copy st)))
            (model_shared st) (Val (task_copy st)) (n_inner st) (n_outer st)
            (inner_lr st) (output_lr st) (lossfn st)
            (if name is Some n then Val n else PyNone) Absent Absent (clip_val st)).
  split; [|split; [done|split; [done|]]].
  - split; [done|]. split; [done|]. split; [|done]. cbn [heap].
    apply foldl_update_grad_only. intros h' l Hl.
    apply update_param_grad_only;
      [apply (keeps_value_set_grad (fun p => zero_grad_buffer (grad p)))|].
    apply elem_of_seq in Hl. lia.
  - intros e He.
    pose proof (readonly_generate_clf_weights labels x) as Hro.
    unfold adapt, delattr, deepcopy, zero_grad, mbind, PyM_bind, PyM.bind, PyM.modify, PyM.gets.
    cbn.
    destruct (model_task st) as [| |task]; [done|..]; cbn;
      (destruct (W_task st) as [| |W]; [done|..]); cbn;
      (destruct (b_task st) as [| |b]; [done|..]); cbn;
      match goal with
      | |- context [generate_clf_weights labels x ?s] =>
          change s with
            (mkModel
              (foldl (fun h l => update_param (fun p => set_grad (zero_grad_buffer (grad p)) p) l h)
                     (copied_heap st) (parameters (task_copy st)))
              (model_shared st) (Val (task_copy st)) (n_inner st) (n_outer st)
              (inner_lr st) (output_lr st) (lossfn st)
              (if name is Some n then Val n else PyNone) Absent Absent (clip_val st))
      end;
      match goal with
      | |- context [generate_clf_weights labels x ?s] =>
          specialize (Hro s); destruct (generate_clf_weights labels x s) as [[r|e'] s'];
          cbn in He, Hro; [done|congruence]
      end.
Qed.

(** X15: when the prototype computation fails on the support batch (an
    empty batch, labels and embeddings of different lengths, an error of the
    encoder), [adapt] raises that same exception after it has deleted
    [W_task] and [b_task] and installed the new task copy; the two
    attributes stay deleted, and every later [adapt], whatever its batch,
    raises [AttributeError]. *)
Theorem adapt_prototype_failure st labels x name verbose e :
  wf st -> ~ poisoned st ->
  (generate_clf_weights labels x st).1 = Raise e ->
  exists st',
    adapt labels x name verbose st = (Raise e, st') /\
    W_task st' = Absent /\ b_task st' = Absent /\
    model_task st' = Val (task_copy st) /\
    forall labels' x' name' verbose',
      (adapt labels' x' name' verbose' st').1 = Raise AttributeError.
Proof.
  intros Hwf Hp He.
  destruct (adapt_copy_phase st labels x name verbose Hp) as (s1 & Had & HW & Hb & Hraise).
  exists s1. split; [|split; [done|split; [done|split; [apply Had|]]]].
  - apply Hraise. rewrite <- He. apply generate_clf_weights_ext; [apply Had|].
    apply shared_values_frame; [done|by apply adapting_frame].
  - intros labels' x' name' verbose'. apply adapt_poisoned. right. by left.
Qed.

Lemma forward_poisoned st q :
  poisoned st ->
  (forward q st).1 = Raise AttributeError \/ (forward q st).1 = Raise ValueError.
Proof.
  unfold poisoned, forward, is_None, getattr, mbind, PyM_bind, PyM.bind, mret, PyM_ret,
    PyM.ret, PyM.raise.
  destruct (W_task st) as [| |W]; cbn; [auto..|].
  destruct (b_task st) as [| |b]; cbn; [auto..|].
  destruct (model_task st) as [| |task]; cbn; [auto|intros [?|[?|?]]; done..].
Qed.

Lemma adapt_all_poisoned batches : forall st,
  poisoned st ->
  poisoned (adapt_all batches st) /\
  heap (adapt_all batches st) = heap st /\
  model_shared (adapt_all batches st) = model_shared st.
Proof.
  induction batches as [|[labels x] batches IH]; intros st Hp; [done|].
  unfold adapt_all in *. cbn [foldl fst snd].
  destruct (adapt_poisoned st labels x None false Hp) as (_ & Hp' & Hh & Hs).
  destruct (IH _ Hp') as (? & ? & ?). repeat split; congruence.
Qed.

(** X16: once one of the attributes that [adapt] deletes is missing, the
    model never recovers: after any further sequence of [adapt] calls an
    attribute is still missing, the parameter objects and the shared encoder
    are untouched, the next [adapt] raises [AttributeError] whatever the
    batch, and [forward] raises [AttributeError] or [ValueError]. *)
Theorem adapt_never_recovers st batches labels x name verbose :
  poisoned st ->
  let st' := adapt_all batches st in
  poisoned st' /\ heap st' = heap st /\ model_shared st' = model_shared st /\
  (adapt labels x name verbose st').1 = Raise AttributeError /\
  (forall q, (forward q st').1 = Raise AttributeError \/
             (forward q st').1 = Raise ValueError).
Proof.
  intros Hp st'. destruct (adapt_all_poisoned batches st Hp) as (Hp' & Hh & Hs).
  fold st' in Hp', Hh, Hs. split; [done|]. split; [done|]. split; [done|]. split.
  - by apply adapt_poisoned.
  - intros q. by apply forward_poisoned.
Qed.

End AdaptErrors.



Section ForwardAfterAdapt.
Import ProtoMAML.
Context `{Torch}.
Implicit Types (s st : ProtoMAMLSeqTransformer) (h : list Param).

Lemma forward_spec s W b task q :
  W_task s = Val W -> b_task s = Val b -> model_task s = Val task ->
  forward q s =
    (y ← seq_transformer (param_values (heap s) task) (training task) q;
     linear y (leaf_data W) (leaf_data b), s).
Proof.
  intros HW Hb Htask.
  unfold forward, is_None, getattr, call_model, leaf_of, mbind, PyM_bind, PyM.bind, mret,
    PyM_ret, PyM.ret, PyM.raise, PyM.gets, PyM.lift.
  rewrite HW. cbn. rewrite Hb. cbn. rewrite Htask. cbn.
  destruct (seq_transformer _ _ _) as [y|e]; [|done].
  rewrite HW. cbn. rewrite Hb. reflexivity.
Qed.

Lemma adapted_raw_values st labels x s :
  wf st -> adapted st labels x s ->
  exists W_init b_init,
    (generate_clf_weights labels x st).1 = Ok (W_init, b_init) /\
    W_task s = Val (mkLeaf (madd W_init (msub W_init W_init)) None) /\
    b_task s = Val (mkLeaf (vadd b_init (vsub b_init b_init)) None) /\
    model_task s = Val (task_copy st) /\
    param_values (heap s) (task_copy st) = param_values (heap st) (model_shared st).
Proof.
  intros Hwf (Had & W_init & b_init & s1 & Hs1 & Hgen & HW & Hb).
  exists W_init, b_init. split; [|split; [done|split; [done|split; [apply Had|]]]].
  - rewrite <- (generate_clf_weights_ext labels x st s1).
    + by rewrite Hgen.
    + apply Hs1.
    + apply shared_values_frame; [done|by apply adapting_frame].
  - destruct Had as (_ & _ & (_ & Hd & _) & _).
    rewrite (param_values_data _ _ _ Hd). apply task_copy_values.
Qed.



Lemma set_mode_Ok b s s' :
  set_mode b s = (Ok tt, s') ->
  heap s' = heap s /\ W_task s' = W_task s /\ b_task s' = b_task s /\
  model_shared s' = set_training b (model_shared s) /\
  (forall task, model_task s = Val task -> model_task s' = Val (set_training b task)).
Proof.
  unfold set_mode, getattr, mbind, PyM_bind, PyM.bind, PyM.modify, mret, PyM_ret, PyM.ret.
  cbn. destruct (model_task s) as [| |task] eqn:Ht; [done|..]; intros [= <-]; cbn;
    repeat split; congruence.
Qed.

(** X18: after the sequence [train(); adapt(...); eval()] of the training
    loop, both encoders are in evaluation mode; the classifier was
    initialised from the shared encoder run in training mode, and [forward]
    on a query batch runs the encoder, with the values of the shared
    parameters, in evaluation mode and applies the classifier
    [W_init + (W_init - W_init)], [b_init + (b_init - b_init)] that [adapt]
    left, which is [W_init], [b_init] in arithmetic where [x + (x - x) = x]. *)
Theorem query_forward_in_eval_mode st labels x name verbose st1 q :
  wf st ->
  (train;; adapt labels x name verbose;; eval) st = (Ok tt, st1) ->
  training (model_shared st1) = false /\
  (exists task, model_task st1 = Val task /\ training task = false) /\
  exists W_init b_init,
    (generate_clf_weights labels x (train st).2).1 = Ok (W_init, b_init) /\
    training (model_shared (train st).2) = true /\
    forward q st1 =
      (y ← seq_transformer (param_values (heap st) (model_shared st)) false q;
       linear y (madd W_init (msub W_init W_init)) (vadd b_init (vsub b_init b_init)),
       st1) /\
    (exact_cancel ->
     forward q st1 =
       (y ← seq_transformer (param_values (heap st) (model_shared st)) false q;
        linear y W_init b_init, st1)).
Proof.
  intros Hwf Hrun.
  apply bind_Ok_inv in Hrun as ([] & sa & Htrain & Hrun).
  apply bind_Ok_inv in Hrun as ([] & sb & Hadapt & Heval).
  rewrite Htrain. cbn [snd]. unfold train in Htrain.
  apply set_mode_Ok in Htrain as (Hha & _ & _ & Hsa & _).
  apply set_mode_Ok in Heval as (Hh1 & HW1 & Hb1 & Hs1 & Ht1).
  assert (Hwfa : wf sa).
  { apply (wf_transport st); [by rewrite Hsa|by rewrite Hha|done]. }
  apply adapt_adapted in Hadapt.
  destruct (adapted_raw_values sa labels x sb Hwfa Hadapt)
    as (W_init & b_init & Hgen & HW & Hb & Htask & Hpv).
  split; [by rewrite Hs1|].
  split; [exists (set_training false (task_copy sa)); split; [by apply Ht1|done]|].
  exists W_init, b_init. split; [done|]. split; [by rewrite Hsa|].
  assert (Hfwd : forward q st1 =
            (y ← seq_transformer (param_values (heap st) (model_shared st)) false q;
             linear y (madd W_init (msub W_init W_init)) (vadd b_init (vsub b_init b_init)),
             st1)).
  { rewrite (forward_spec st1 (mkLeaf (madd W_init (msub W_init W_init)) None)
               (mkLeaf (vadd b_init (vsub b_init b_init)) None)
               (set_training false (task_copy sa)) q);
      [|congruence|congruence|by apply Ht1].
    cbn [training set_training leaf_data].
    assert (Hpv1 : param_values (heap st1) (set_training false (task_copy sa))
                   = param_values (heap st) (model_shared st)).
    { transitivity (param_values (heap sb) (task_copy sa)); [by rewrite Hh1|].
      rewrite Hpv, Hha, Hsa. reflexivity. }
    by rewrite Hpv1. }
  split; [exact Hfwd|].
  intros Hc. by rewrite Hfwd, madd_msub_cancel, vadd_vsub_cancel.
Qed.

End ForwardAfterAdapt.



Section BackwardFrame.
Import ProtoMAML.
Context `{Torch}.
Implicit Types (s st : ProtoMAMLSeqTransformer) (h : list Param).

Lemma grads_within_refl ls h : grads_within ls h h.
Proof. split; [apply grad_only_refl|done]. Qed.

Lemma grads_within_update ls h h' (f : Param -> Param) l :
  keeps_value f -> l ∈ ls -> grads_within ls h h' -> grads_within ls h (update_param f l h').
Proof.
  intros Hf Hl [Hg Hframe]. split.
  - eapply grad_only_trans; [exact Hg|]. apply update_param_grad_only; [done|lia].
  - intros l' Hl'. rewrite update_param_lookup_ne; [by apply Hframe|]. intros ->. done.
Qed.

Lemma grads_within_foldl {A} ls (step : list Param -> A -> list Param) (items : list A) h :
  (forall h' a, a ∈ items -> grads_within ls h h' -> grads_within ls h (step h' a)) ->
  forall h0, grads_within ls h h0 -> grads_within ls h (foldl step h0 items).
Proof.
  induction items as [|a items IH]; intros Hstep h0 Hh0; [done|].
  cbn [foldl]. apply IH.
  - intros h' a' Ha'. apply Hstep. by right.
  - apply Hstep; [left|done].
Qed.

Lemma backward_inv_params st s :
  backward_inv st s ->
  filter (fun l => is_updateable (heap s) l = true) (parameters (model_shared st))
  = shared_params st.
Proof.
  intros (_ & _ & _ & _ & _ & _ & (_ & _ & Hrg) & _). unfold shared_params.
  apply filter_ext_in. intros l _. by rewrite (is_updateable_flags _ _ l Hrg).
Qed.

Lemma backward_inv_set_heap st s h :
  backward_inv st s -> grads_within (shared_params st) (heap st) h ->
  backward_inv st (set_heap h s).
Proof.
  intros (?&?&?&?&?&?&?) Hh. unfold backward_inv. cbn. repeat (split; [done|]). done.
Qed.

Lemma triple_clip_backward st ps max_norm :
  (forall l, l ∈ ps -> l ∈ shared_params st) ->
  triple (backward_inv st) (clip ps max_norm) (fun _ => backward_inv st) (backward_inv st).
Proof.
  intros Hps s Hs. unfold clip, PyM.modify. apply backward_inv_set_heap; [done|].
  apply grads_within_foldl; [|apply Hs].
  intros h' [l g] Hin Hh'.
  apply grads_within_update; [apply (keeps_value_set_grad (fun _ => Some g))| |done].
  apply elem_of_zip_l in Hin. apply list_elem_of_filter in Hin as [_ Hin]. by apply Hps.
Qed.

Lemma triple_backward_accumulate st loss :
  triple (backward_inv st) (backward_accumulate loss) (fun _ => backward_inv st)
         (backward_inv st).
Proof.
  unfold backward_accumulate.
  apply triple_bind with (Q1 := fun _ => backward_inv st);
    [apply triple_readonly_inv; [apply readonly_getattr|done]|intros task].
  apply triple_bind with (Q1 := fun _ => backward_inv st);
    [apply triple_readonly_inv; [apply readonly_parameters_of|done]|intros task'].
  apply triple_bind with (Q1 := fun _ => backward_inv st);
    [apply triple_readonly_inv; [apply readonly_updateable|done]|intros task_params].
  apply triple_bind with (Q1 := fun _ => backward_inv st);
    [apply triple_readonly_inv; [apply readonly_lift|done]|intros task_grads].
  apply triple_bind with (Q1 := fun shared s => backward_inv st s /\ shared = model_shared st).
  { apply triple_gets. intros s Hs. split; [done|]. apply Hs. }
  intros shared.
  apply triple_bind with (Q1 := fun ps s => backward_inv st s /\ ps = shared_params st).
  { intros s [Hs ->]. cbn. split; [done|]. by apply backward_inv_params. }
  intros ps.
  apply triple_bind with (Q1 := fun _ s => backward_inv st s /\ ps = shared_params st).
  { intros s [Hs ->]. unfold PyM.lift. by destruct (autograd_grad _ _). }
  intros shared_grads.
  apply triple_bind with (Q1 := fun _ s => backward_inv st s /\ ps = shared_params st).
  { apply triple_gets. by intros s Hs. }
  intros n s [Hs ->]. revert s Hs. apply triple_foldM.
  intros [] [[p gt] gs] Hin s Hs. cbn [accumulate_step]. unfold PyM.modify.
  apply backward_inv_set_heap; [done|].
  apply grads_within_update; [|by apply elem_of_zip_l, elem_of_zip_l in Hin|apply Hs].
  apply (keeps_value_set_grad
           (fun q => accumulate (grad q) (tdiv (vadd gs gt) (of_Z n)))).
Qed.

Lemma backward_clip_spec st s :
  backward_inv st s ->
  backward_clip s =
    (Ok tt, if ltb zero (clip_val st)
            then (clip (shared_params st) (clip_val st) s).2 else s).
Proof.
  intros Hs. pose proof (backward_inv_params st s Hs) as Hps.
  destruct Hs as (Hsh & _ & _ & _ & _ & (_ & _ & _ & Hcv & _) & _).
  unfold backward_clip, _get_updateable_parameters, mbind, PyM_bind, PyM.bind, PyM.gets,
    mret, PyM_ret, PyM.ret.
  rewrite Hcv. destruct (ltb zero (clip_val st)); [|done].
  rewrite Hsh, Hps. reflexivity.
Qed.

Lemma backward_inv_refl st : backward_inv st st.
Proof. repeat split. Qed.

Lemma triple_backward st loss :
  triple (backward_inv st) (backward loss) (fun _ => backward_inv st) (backward_inv st).
Proof.
  unfold backward.
  apply triple_bind with (Q1 := fun _ => backward_inv st);
    [apply triple_backward_accumulate|intros _].
  intros s Hs. rewrite (backward_clip_spec st s Hs).
  destruct (ltb zero (clip_val st)); [|done].
  pose proof (triple_clip_backward st (shared_params st) (clip_val st)
                (fun l Hl => Hl) s Hs) as Hc.
  unfold clip, PyM.modify in *. exact Hc.
Qed.

(** X19: whether it returns or raises, [backward] leaves the modules and
    the classifier tensors as they were, changes no value and no
    [requires_grad] flag, and touches no parameter object other than the
    trainable shared parameters: frozen parameters and the parameters of the
    task copy keep their gradient buffers. Without a task model it raises
    [AttributeError] and changes nothing. *)
Theorem backward_writes_only_shared_grads st loss :
  let st' := (backward loss st).2 in
  model_shared st' = model_shared st /\ model_task st' = model_task st /\
  W_task st' = W_task st /\ b_task st' = b_task st /\
  data <$> heap st' = data <$> heap st /\
  requires_grad <$> heap st' = requires_grad <$> heap st /\
  (forall l, l ∉ shared_params st -> heap st' !! l = heap st !! l) /\
  ((forall task, model_task st <> Val task) ->
     backward loss st = (Raise AttributeError, st)).
Proof.
  intros st'.
  assert (Hinv : backward_inv st st').
  { assert (H0 : backward_inv st st).
    { repeat split. }
    pose proof (triple_backward st loss st H0) as Ht. subst st'.
    by destruct (backward loss st) as [[[]|e] s']. }
  destruct Hinv as (Hsh & Htask & HW & Hb & _ & _ & (_ & Hd & Hr) & Hframe).
  repeat (split; [done|]).
  intros Hno. unfold backward, backward_accumulate, getattr, parameters_of,
    mbind, PyM_bind, PyM.bind, PyM.raise.
  destruct (model_task st) as [| |t]; [done|done|]. by destruct (Hno t).
Qed.

Lemma set_grads_cons l g items h :
  set_grads ((l, g) :: items) h = set_grads items (update_param (set_grad (Some g)) l h).
Proof. done. Qed.

Lemma set_grads_other items : forall h l,
  l ∉ items.*1 -> set_grads items h !! l = h !! l.
Proof.
  induction items as [|[l0 g0] items IH]; intros h l Hl; [done|].
  cbn in Hl. apply not_elem_of_cons in Hl as [Hne Hl].
  rewrite set_grads_cons, IH by done.
  by apply update_param_lookup_ne.
Qed.

Lemma set_grads_lookup items : forall h i l g q,
  NoDup items.*1 -> items !! i = Some (l, g) -> h !! l = Some q ->
  set_grads items h !! l = Some (set_grad (Some g) q).
Proof.
  induction items as [|[l0 g0] items IH]; intros h i l g q Hnd Hi Hq; [done|].
  cbn in Hnd. apply NoDup_cons in Hnd as [Hl0 Hnd].
  rewrite set_grads_cons.
  destruct i as [|i]; cbn in Hi.
  - injection Hi as -> ->.
    rewrite (set_grads_other items) by done.
    by apply update_param_lookup_eq.
  - assert (l0 <> l) as Hne.
    { intros ->. apply Hl0. apply list_elem_of_fmap. exists (l, g).
      split; [done|]. by eapply list_elem_of_lookup_2. }
    eapply IH; [done|exact Hi|]. by rewrite update_param_lookup_ne.
Qed.

Lemma omap_filter_None {A B} (f : A -> option B) (P : A -> Prop)
    `{!forall x, Decision (P x)} (l : list A) :
  (forall x, x ∈ l -> ~ P x -> f x = None) -> omap f (filter P l) = omap f l.
Proof.
  induction l as [|x l IH]; intros Hf; [done|].
  rewrite filter_cons. destruct (decide (P x)) as [HP|HP].
  - cbn. rewrite IH; [done|]. intros y Hy. apply Hf. by right.
  - cbn. rewrite (Hf x) by (done || left). apply IH. intros y Hy. apply Hf. by right.
Qed.

Lemma omap_lookup_eq {A B} (f : A -> option B) (l : list A) (k : list B) :
  length l = length k ->
  (forall i x, l !! i = Some x -> f x = k !! i) -> omap f l = k.
Proof.
  revert k. induction l as [|x l IH]; intros [|y k] Hlen Hf; try done.
  cbn. rewrite (Hf 0 x eq_refl). cbn. f_equal. apply IH; [by injection Hlen|].
  intros i x' Hx'. apply (Hf (S i)). done.
Qed.

Lemma length_grads_of_with_grad h ps :
  length (grads_of h (filter (fun l => has_grad h l = true) ps)) =
  length (filter (fun l => has_grad h l = true) ps).
Proof.
  unfold grads_of. induction ps as [|l ps IH]; [done|].
  rewrite filter_cons. destruct (decide (has_grad h l = true)) as [Hg|Hg]; [|done].
  cbn. unfold has_grad in Hg. destruct (h !! l) as [p|]; [|done]. cbn.
  destruct (grad p); [|done]. cbn. by rewrite IH.
Qed.

Lemma grads_of_with_grad h' h ps :
  (forall l, l ∈ ps -> has_grad h l <> true -> h' !! l = h !! l) ->
  grads_of h' (filter (fun l => has_grad h l = true) ps) = grads_of h' ps.
Proof.
  intros Hsame. unfold grads_of. apply omap_filter_None.
  intros l Hl Hno. rewrite (Hsame l Hl Hno).
  unfold has_grad in Hno. destruct (h !! l) as [p|]; [|done]. cbn.
  by destruct (grad p).
Qed.

Lemma clip_grads_of ps max_norm s :
  NoDup ps ->
  grads_of (heap (clip ps max_norm s).2) ps = clip_grad_norm_ (grads_of (heap s) ps) max_norm.
Proof.
  intros Hnd. unfold clip, PyM.modify. cbn [snd heap set_heap].
  set (h := heap s).
  set (wg := filter (fun l => has_grad h l = true) ps).
  fold (grads_of h wg).
  set (clipped := clip_grad_norm_ (grads_of h wg) max_norm).
  fold (set_grads (zip wg clipped) h).
  assert (Hlen : length clipped = length wg).
  { unfold clipped. rewrite clip_grad_norm_length. apply length_grads_of_with_grad. }
  assert (Hfst : (zip wg clipped).*1 = wg) by (apply fst_zip; lia).
  assert (Hwg : grads_of h wg = grads_of h ps) by (by apply grads_of_with_grad).
  rewrite <- Hwg. fold clipped.
  assert (Hps : grads_of (set_grads (zip wg clipped) h) wg
                = grads_of (set_grads (zip wg clipped) h) ps).
  { apply grads_of_with_grad. intros l _ Hl. apply set_grads_other.
    rewrite Hfst. intros [Hg _]%list_elem_of_filter. done. }
  rewrite <- Hps. apply omap_lookup_eq; [done|].
  intros i l Hl.
  destruct (lookup_lt_is_Some_2 clipped i) as [g Hg];
    [rewrite Hlen; by eapply lookup_lt_Some|].
  rewrite Hg.
  assert (Hin : l ∈ wg) by (by eapply list_elem_of_lookup_2).
  apply list_elem_of_filter in Hin as [Hhas _].
  unfold has_grad in Hhas. destruct (h !! l) as [q|] eqn:Hq; [|done].
  erewrite set_grads_lookup; [done| |by rewrite lookup_zip_with, Hl; cbn; rewrite Hg|done].
  rewrite Hfst. by apply NoDup_filter.
Qed.

(** X20: when [backward] returns, the gradients held by the trainable
    shared parameters are, with [clip_val > 0], the result of one
    [clip_grad_norm_] call on all the accumulated buffers together (what was
    there before plus this call's increments), and the accumulated buffers
    themselves otherwise. *)
Theorem backward_clips_accumulated st loss st' :
  wf st ->
  backward loss st = (Ok tt, st') ->
  exists st_acc,
    backward_accumulate loss st = (Ok tt, st_acc) /\
    grads_of (heap st') (shared_params st) =
      if ltb zero (clip_val st)
      then clip_grad_norm_ (grads_of (heap st_acc) (shared_params st)) (clip_val st)
      else grads_of (heap st_acc) (shared_params st).
Proof.
  intros [Hnd _] Hback. unfold backward in Hback.
  apply bind_Ok_inv in Hback as ([] & st_acc & Hacc & Hclip).
  exists st_acc. split; [done|].
  pose proof (triple_backward_accumulate st loss st (backward_inv_refl st)) as Hinv.
  rewrite Hacc in Hinv.
  rewrite (backward_clip_spec st st_acc Hinv) in Hclip. injection Hclip as <-.
  destruct (ltb zero (clip_val st)); [|done].
  apply clip_grads_of. by apply NoDup_filter.
Qed.

End BackwardFrame.

Section EpisodeEnd.
Import ProtoMAML.
Context `{Torch}.
Implicit Types (s st : ProtoMAMLSeqTransformer) (h : list Param).

Lemma update_all_cons f l ls h :
  update_all f (l :: ls) h = update_all f ls (update_param f l h).
Proof. done. Qed.

Lemma update_all_other f ls : forall h l,
  l ∉ ls -> update_all f ls h !! l = h !! l.
Proof.
  induction ls as [|l0 ls IH]; intros h l Hl; [done|].
  apply not_elem_of_cons in Hl as [Hne Hl].
  rewrite update_all_cons, IH by done. by apply update_param_lookup_ne.
Qed.

Lemma update_param_lookup f l h : update_param f l h !! l = f <$> h !! l.
Proof.
  destruct (h !! l) as [p|] eqn:Hl.
  - by rewrite (update_param_lookup_eq f l h p Hl).
  - unfold update_param. by rewrite Hl, Hl.
Qed.

Lemma update_all_lookup f ls : forall h l,
  NoDup ls -> l ∈ ls -> update_all f ls h !! l = f <$> h !! l.
Proof.
  induction ls as [|l0 ls IH]; intros h l Hnd Hl; [by apply not_elem_of_nil in Hl|].
  apply NoDup_cons in Hnd as [Hl0 Hnd]. rewrite update_all_cons.
  destruct (decide (l = l0)) as [->|Hne].
  - rewrite update_all_other by done. apply update_param_lookup.
  - apply elem_of_cons in Hl as [?|Hl]; [done|].
    rewrite IH by done. by rewrite update_param_lookup_ne.
Qed.

Lemma update_all_lookup_idem f ls : forall h l,
  (forall p, f (f p) = f p) -> l ∈ ls -> update_all f ls h !! l = f <$> h !! l.
Proof.
  intros h l Hidem. revert h.
  induction ls as [|l0 ls IH]; intros h Hl; [by apply not_elem_of_nil in Hl|].
  rewrite update_all_cons.
  destruct (decide (l ∈ ls)) as [Hin|Hnin].
  - rewrite IH by done. destruct (decide (l = l0)) as [->|Hne].
    + rewrite update_param_lookup. destruct (h !! l0); cbn; [|done]. by rewrite Hidem.
    + by rewrite update_param_lookup_ne.
  - apply elem_of_cons in Hl as [->|?]; [|done].
    rewrite update_all_other by done. apply update_param_lookup.
Qed.

Lemma zero_grad_buffer_idem (g : option PTensor) :
  zero_grad_buffer (zero_grad_buffer g) = zero_grad_buffer g.
Proof.
  unfold zero_grad_buffer. destruct zero_grad_set_to_none; [done|].
  destruct g as [t|]; [|done]. f_equal. rewrite <- list_fmap_compose. done.
Qed.

Lemma sgd_update_keeps lr (p : Param) :
  requires_grad (sgd_update lr p) = requires_grad p /\ grad (sgd_update lr p) = grad p.
Proof. unfold sgd_update. destruct (grad p) eqn:E; cbn; rewrite ?E; done. Qed.

Lemma episode_end_run st lr task :
  model_task st = Val task ->
  episode_end lr st =
    (Ok tt,
     set_heap
       (update_all (fun p => set_grad (zero_grad_buffer (grad p)) p) (parameters task)
          (update_all (fun p => set_grad (zero_grad_buffer (grad p)) p)
             (parameters (model_shared st))
             (update_all (sgd_update lr) (parameters (model_shared st)) (heap st)))) st).
Proof.
  intros Htask.
  unfold episode_end, shared_optimizer_step, zero_grad, getattr, parameters_of,
    mbind, PyM_bind, PyM.bind, PyM.modify, PyM.gets, mret, PyM_ret, PyM.ret.
  cbn. rewrite Htask. reflexivity.
Qed.

Lemma episode_heap_lookup lr (shared task : list loc) h l p :
  NoDup shared -> h !! l = Some p ->
  exists p',
    update_all (fun p => set_grad (zero_grad_buffer (grad p)) p) task
      (update_all (fun p => set_grad (zero_grad_buffer (grad p)) p) shared
         (update_all (sgd_update lr) shared h)) !! l = Some p' /\
    requires_grad p' = requires_grad p /\
    data p' = (if decide (l ∈ shared) then data (sgd_update lr p) else data p) /\
    grad p' = (if decide (l ∈ shared \/ l ∈ task)
               then zero_grad_buffer (grad p) else grad p).
Proof.
  intros Hnd Hp.
  set (zg := fun p : Param => set_grad (zero_grad_buffer (grad p)) p).
  assert (Hzg : forall p, zg (zg p) = zg p).
  { intros q. unfold zg, set_grad. cbn. by rewrite zero_grad_buffer_idem. }
  assert (H1 : update_all (sgd_update lr) shared h !! l =
               Some (if decide (l ∈ shared) then sgd_update lr p else p)).
  { destruct (decide (l ∈ shared)) as [Hin|Hnin].
    - by rewrite update_all_lookup, Hp.
    - by rewrite update_all_other. }
  assert (H2 : update_all zg shared (update_all (sgd_update lr) shared h) !! l =
               Some (if decide (l ∈ shared) then zg (sgd_update lr p) else p)).
  { destruct (decide (l ∈ shared)) as [Hin|Hnin].
    - by rewrite update_all_lookup, H1.
    - by rewrite update_all_other. }
  destruct (sgd_update_keeps lr p) as [Hsr Hsg].
  destruct (decide (l ∈ task)) as [Ht|Ht].
  - rewrite update_all_lookup_idem, H2 by (exact Hzg || done). cbn.
    eexists. split; [reflexivity|].
    destruct (decide (l ∈ shared)) as [Hin|Hnin]; cbn.
    + rewrite decide_True by (by left). rewrite Hsg, zero_grad_buffer_idem. done.
    + rewrite decide_True by (by right). done.
  - rewrite update_all_other, H2 by done.
    eexists. split; [reflexivity|].
    destruct (decide (l ∈ shared)) as [Hin|Hnin]; cbn.
    + rewrite decide_True by (by left). by rewrite Hsg.
    + rewrite decide_False by (intros [?|?]; done). done.
Qed.

(** X21: at the end of an episode, with a task model in place, the optimizer
    step and the two [zero_grad] calls return and leave the modules and the
    classifier tensors as they were. Every parameter object keeps its
    [requires_grad] flag; its value changes only if it is a shared encoder
    parameter holding a gradient [g], to [data - lr * g]; its gradient buffer
    is reset if it belongs to the shared encoder or to the task copy, and is
    untouched otherwise. *)
Theorem episode_end_updates st lr task :
  wf st -> model_task st = Val task ->
  exists st',
    episode_end lr st = (Ok tt, st') /\
    model_shared st' = model_shared st /\ model_task st' = Val task /\
    W_task st' = W_task st /\ b_task st' = b_task st /\
    forall l p, heap st !! l = Some p ->
      exists p',
        heap st' !! l = Some p' /\ requires_grad p' = requires_grad p /\
        data p' = (if decide (l ∈ parameters (model_shared st))
                   then match grad p with
                        | Some g => zip_with (fun x d => add x (mul (neg lr) d)) (data p) g
                        | None => data p
                        end
                   else data p) /\
        grad p' = (if decide (l ∈ parameters (model_shared st) \/ l ∈ parameters task)
                   then zero_grad_buffer (grad p) else grad p).
Proof.
  intros [Hnd _] Htask. eexists. split; [by apply episode_end_run|].
  split; [done|]. split; [done|]. split; [done|]. split; [done|].
  intros l p Hp. cbn [heap set_heap].
  destruct (episode_heap_lookup lr (parameters (model_shared st)) (parameters task)
              (heap st) l p Hnd Hp) as (p' & Hp' & Hr & Hd & Hg).
  exists p'. split; [done|]. split; [done|]. split; [|done].
  rewrite Hd. unfold sgd_update. by destruct (grad p).
Qed.

Lemma outer_calls_nil_inv st st' : outer_calls st [] st' -> st' = st.
Proof. by inversion 1. Qed.

Lemma outer_calls_model st incss st' :
  add_comm -> wf st -> ltb zero (clip_val st) = false ->
  outer_calls st incss st' ->
  wf st' /\ parameters (model_shared st') = parameters (model_shared st) /\
  (incss <> [] -> exists task, model_task st' = Val task).
Proof.
  intros Hcomm Hwf Hclip Hrun. induction Hrun
    as [st|st labels model_input name verbose st1 loss incs st2 incss st3 Hprep Hps Hback Hrest IH].
  - done.
  - destruct (outer_prepare _ _ _ _ _ _ Hwf Hprep) as (Hwf1 & Hmir1 & Hcfg1 & Hpar1 & _).
    assert (Hclip1 : ltb zero (clip_val st1) = false).
    { destruct Hcfg1 as (_ & _ & _ & -> & _). done. }
    destruct (backward_no_clip _ _ _ _ Hcomm Hwf1 Hmir1 Hclip1 Hps Hback)
      as (Hwf2 & Hcfg2 & Hpar2 & _).
    assert (Hclip2 : ltb zero (clip_val st2) = false).
    { destruct Hcfg2 as (_ & _ & _ & -> & _). done. }
    destruct (IH Hwf2 Hclip2) as (Hwf3 & Hpar3 & Htask3).
    split; [done|]. split; [congruence|]. intros _.
    destruct incss as [|incs' incss]; [|by apply Htask3].
    apply outer_calls_nil_inv in Hrest as ->.
    pose proof (triple_backward st1 loss st1 (backward_inv_refl st1)) as Hinv.
    rewrite Hback in Hinv. destruct Hinv as (_ & Ht & _).
    destruct Hmir1 as (task & Htask & _). exists task. congruence.
Qed.

Lemma foldl_accumulate_Some (g : option PTensor) (col : list PTensor) :
  col <> [] -> is_Some (foldl accumulate g col).
Proof.
  intros Hne. destruct col as [|c col]; [done|]. cbn [foldl].
  assert (Hsome : forall x, is_Some (accumulate g x)) by (intros x; destruct g; cbn; eauto).
  destruct (Hsome c) as [g0 ->]. clear Hne Hsome. revert g0.
  induction col as [|c' col IH]; intros g0; [eauto|]. cbn [foldl]. apply IH.
Qed.

(** X22: one episode of the training loop without clipping: after any
    positive number of outer steps (train, adapt, eval, backward), the
    optimizer step and the [zero_grad] calls return, and each trainable
    shared parameter has moved from its value [data] at the start of the
    episode to [data - lr * g], where [g] is the buffer it held at the start
    plus the scaled pair-sums of all the [backward] calls; its gradient
    buffer is reset. *)
Theorem episode_applies_accumulated_gradient st incss st' lr :
  add_comm -> wf st -> ltb zero (clip_val st) = false ->
  outer_calls st incss st' -> incss <> [] ->
  exists st'',
    episode_end lr st' = (Ok tt, st'') /\
    forall i p q, shared_params st !! i = Some p -> heap st !! p = Some q ->
      exists col g q'',
        Forall2 (fun incs inc => incs !! i = Some inc) incss col /\
        foldl accumulate (grad q) col = Some g /\
        heap st'' !! p = Some q'' /\
        data q'' = zip_with (fun x d => add x (mul (neg lr) d)) (data q) g /\
        grad q'' = zero_grad_buffer (Some g).
Proof.
  intros Hcomm Hwf Hclip Hrun Hne.
  destruct (outer_calls_model st incss st' Hcomm Hwf Hclip Hrun) as (Hwf' & Hpar & Htask).
  destruct (Htask Hne) as [task Ht].
  eexists. split; [by apply episode_end_run|].
  intros i p q Hp Hq.
  destruct (outer_calls_sum st incss st' Hcomm Hwf Hclip Hrun i p q Hp Hq)
    as (col & q' & Hcol & Hq' & Hd & Hg).
  assert (Hcol_ne : col <> []).
  { intros ->. apply Forall2_length in Hcol. by destruct incss. }
  destruct (foldl_accumulate_Some (grad q) col Hcol_ne) as [g Hgs].
  destruct Hwf' as [Hnd' _].
  destruct (episode_heap_lookup lr (parameters (model_shared st')) (parameters task)
              (heap st') p q' Hnd' Hq') as (q'' & Hq'' & Hr'' & Hd'' & Hg'').
  assert (Hin : p ∈ parameters (model_shared st')).
  { rewrite Hpar. apply list_elem_of_lookup_2 in Hp.
    by apply list_elem_of_filter in Hp as [_ Hp]. }
  rewrite decide_True in Hd'' by done. rewrite decide_True in Hg'' by (by left).
  exists col, g, q''. split; [done|]. split; [done|]. split; [done|].
  rewrite Hg, Hgs in Hg''. split; [|done].
  rewrite Hd''. unfold sgd_update. rewrite Hg, Hgs. cbn. by rewrite Hd.
Qed.

End EpisodeEnd.


(** ** When [backward] returns *)

Section BackwardReturns.
Import ProtoMAML.
Context `{Torch}.
Implicit Types (s st : ProtoMAMLSeqTransformer) (h : list Param).

Lemma backward_clip_Ok s : exists s', backward_clip s = (Ok tt, s').
Proof.
  unfold backward_clip, _get_updateable_parameters, clip, mbind, PyM_bind, PyM.bind,
    PyM.gets, PyM.modify, mret, PyM_ret, PyM.ret.
  destruct (ltb zero (clip_val s)); eauto.
Qed.

(** X23: [backward] returns exactly when a task model is set and both
    gradient computations (for the task copy's and for the shared encoder's
    trainable parameters) return; the accumulation and the clipping never
    raise.  When it raises, it has written nothing: the model is the one it
    was called on. *)
Theorem backward_returns_iff st loss :
  ((exists st', backward loss st = (Ok tt, st')) <->
   exists task g_task g_shared,
     model_task st = Val task /\
     autograd_grad loss
       (RefParam <$> filter (fun l => is_updateable (heap st) l = true) (parameters task))
       = Ok g_task /\
     autograd_grad loss (RefParam <$> shared_params st) = Ok g_shared) /\
  (forall e, (backward loss st).1 = Raise e -> (backward loss st).2 = st).
Proof.
  unfold backward, backward_accumulate, getattr, parameters_of,
    _get_updateable_parameters, mbind, PyM_bind, PyM.bind, PyM.gets, PyM.lift,
    PyM.raise, mret, PyM_ret, PyM.ret.
  unfold shared_params.
  destruct (model_task st) as [| |task] eqn:Ht; cbn.
  1,2: split; [split; [intros (? & [=])|intros (? & ? & ? & [=] & _)]|intros e _; reflexivity].
  destruct (autograd_grad loss (RefParam <$> filter _ (parameters task))) as [gt|e1] eqn:Hgt;
    cbn.
  2: { split; [split; [intros (? & [=])|intros (? & ? & ? & [= <-] & Hgt' & _)]|intros e _; reflexivity].
       rewrite Hgt in Hgt'. discriminate Hgt'. }
  destruct (autograd_grad loss (RefParam <$> filter _ (parameters (model_shared st))))
    as [gs|e2] eqn:Hgs; cbn.
  2: { split; [split; [intros (? & [=])|intros (? & ? & ? & _ & _ & [=])]|intros e _; reflexivity]. }
  rewrite foldM_accumulate_step.
  match goal with |- context [backward_clip ?s] =>
    destruct (backward_clip_Ok s) as [s' Hs'] end.
  rewrite Hs'. split; [|intros e [=]]. split; [|eauto]. intros _. exists task, gt, gs. done.
Qed.

End BackwardReturns.


(** ** When [adapt] returns *)

Section AdaptReturns.
Import ProtoMAML.
Context `{Torch}.
Implicit Types (s st : ProtoMAMLSeqTransformer) (h : list Param).

Lemma bind_ext_state {St A B} (m : PyM.M St A) (k k' : A -> PyM.M St B) (t t' : St) :
  t = t' -> (forall a u, k a u = k' a u) -> (m ≫= k) t = (m ≫= k') t'.
Proof.
  intros <- Hk. unfold mbind, PyM_bind, PyM.bind.
  destruct (m t) as [[a|e] u]; [apply Hk|done].
Qed.

Lemma adapt_phases st labels x name verbose :
  ~ poisoned st ->
  exists s1,
    adapting st s1 /\ W_task s1 = Absent /\ b_task s1 = Absent /\
    adapt labels x name verbose st =
      (p ← generate_clf_weights labels x; adapt_inner labels x p.1 p.2) s1.
Proof.
  intros Hp.
  assert (Ht : model_task st <> Absent) by (intros ?; apply Hp; by left).
  assert (HW : W_task st <> Absent) by (intros ?; apply Hp; right; by left).
  assert (Hb : b_task st <> Absent) by (intros ?; apply Hp; right; by right).
  exists (mkModel
            (foldl (fun h l => update_param (fun p => set_grad (zero_grad_buffer (grad p)) p) l h)
                   (copied_heap st) (parameters (task_copy st)))
            (model_shared st) (Val (task_copy st)) (n_inner st) (n_outer st)
            (inner_lr st) (output_lr st) (lossfn st)
            (if name is Some n then Val n else PyNone) Absent Absent (clip_val st)).
  split; [|split; [done|split; [done|]]].
  - split; [done|]. split; [done|]. split; [|done]. cbn [heap].
    apply foldl_update_grad_only. intros h' l Hl.
    apply update_param_grad_only;
      [apply (keeps_value_set_grad (fun p => zero_grad_buffer (grad p)))|].
    apply elem_of_seq in Hl. lia.
  - unfold adapt, delattr, deepcopy, zero_grad.
    unfold mbind at 1 2 3 4 5 6 7 8. unfold PyM_bind, PyM.bind, PyM.modify, PyM.gets.
    cbn [set_task_name model_task W_task b_task set_model_task set_W_task set_b_task
         fst snd heap model_shared set_heap].
    destruct (model_task st) as [| |task]; [done|..];
      cbn [set_task_name model_task W_task b_task set_model_task set_W_task set_b_task
           fst snd heap model_shared set_heap];
      (destruct (W_task st) as [| |W]; [done|..]);
      cbn [set_task_name model_task W_task b_task set_model_task set_W_task set_b_task
           fst snd heap model_shared set_heap];
      (destruct (b_task st) as [| |b]; [done|..]);
      cbn [set_task_name model_task W_task b_task set_model_task set_W_task set_b_task
           fst snd heap model_shared set_heap].
    all: apply bind_ext_state; [reflexivity|intros [W_init b_init] u; reflexivity].
Qed.
Lemma bind_Ok {St A B} (m : PyM.M St A) (k : A -> PyM.M St B) (t t' : St) a :
  m t = (Ok a, t') -> (m ≫= k) t = k a t'.
Proof. intros Hm. unfold mbind, PyM_bind, PyM.bind. by rewrite Hm. Qed.

Lemma inner_inv_values st W b s :
  inner_inv st W b s ->
  param_values (heap s) (task_copy st) = param_values (heap st) (model_shared st).
Proof.
  intros [(_ & _ & (_ & Hd & _) & _) _].
  rewrite (param_values_data _ _ _ Hd). apply task_copy_values.
Qed.

Lemma inner_inv_forward st W b s x :
  inner_inv st W b s ->
  forward x s =
    (y ← seq_transformer (param_values (heap st) (model_shared st))
                         (training (model_shared st)) x;
     linear y W b, s).
Proof.
  intros Hinv. pose proof (inner_inv_values st W b s Hinv) as Hpv.
  destruct Hinv as [(_ & _ & _ & Htask) (gw & gb & HW & Hb)].
  by rewrite (forward_spec s _ _ _ x HW Hb Htask), Hpv.
Qed.

Lemma inner_inv_task_refs st W b s :
  inner_inv st W b s -> task_refs s = (Ok (inner_refs st), s).
Proof.
  intros [(_ & _ & (_ & _ & Hrg) & Htask) (gw & gb & HW & Hb)].
  unfold task_refs, getattr, parameters_of, _get_updateable_parameters,
    mbind, PyM_bind, PyM.bind, PyM.gets, mret, PyM_ret, PyM.ret.
  rewrite HW, Hb, Htask. cbn beta iota. unfold inner_refs.
  assert (Hf : filter (fun l => is_updateable (heap s) l = true) (parameters (task_copy st)) =
               filter (fun l => is_updateable (copied_heap st) l = true)
                      (parameters (task_copy st))).
  { apply list_filter_iff. intros l. by rewrite (is_updateable_flags _ _ l Hrg). }
  by rewrite Hf.
Qed.

Lemma triple_store_grad_returns st W b r g :
  (forall l, r = RefParam l -> length (heap st) <= l) ->
  triple (inner_inv st W b) (store_grad r g) (fun _ => inner_inv st W b) (fun _ => False).
Proof.
  intros Hr s [Had (gw & gb & HW & Hb)].
  destruct r as [| |l]; cbn.
  - unfold getattr, leaf_of, mbind, PyM_bind, PyM.bind, mret, PyM_ret, PyM.ret, PyM.modify.
    rewrite HW. cbn. split; [done|]. by exists (Some g), gb.
  - unfold getattr, leaf_of, mbind, PyM_bind, PyM.bind, mret, PyM_ret, PyM.ret, PyM.modify.
    rewrite Hb. cbn. split; [done|]. by exists gw, (Some g).
  - unfold PyM.modify. split; [|by exists gw, gb].
    apply adapting_set_heap; [done|].
    apply update_param_grad_only; [apply (keeps_value_set_grad (fun _ => Some g))|by apply Hr].
Qed.

Lemma inner_refs_fresh st l : RefParam l ∈ inner_refs st -> length (heap st) <= l.
Proof.
  unfold inner_refs. intros Hl.
  repeat (apply elem_of_cons in Hl as [?|Hl]; [done|]).
  apply list_elem_of_fmap in Hl as (l' & [= ->] & Hl').
  apply list_elem_of_filter in Hl' as [_ Hl']. apply elem_of_seq in Hl'. lia.
Qed.

(** The part of an inner step that follows the gradient computation: storing
    the gradients and clipping. *)
Lemma inner_tail_returns st W b (grads : list PTensor) s :
  inner_inv st W b s ->
  exists s',
    (PyM.foldM (fun (_ : unit) '(param, grad) => store_grad param grad)
               (zip (inner_refs st) grads) tt;;
     clip_val ← PyM.gets clip_val;
     (if ltb zero clip_val
      then task ← getattr model_task; task ← parameters_of task;
           ps ← _get_updateable_parameters task;
           clip ps clip_val
      else mret tt)) s = (Ok tt, s') /\
    inner_inv st W b s'.
Proof.
  intros Hs.
  match goal with |- exists s', ?m s = _ /\ _ =>
    assert (Ht : triple (inner_inv st W b) m (fun _ => inner_inv st W b) (fun _ => False))
  end.
  { apply triple_bind with (Q1 := fun _ => inner_inv st W b).
    { apply triple_foldM. intros [] [r g] Hin. apply triple_store_grad_returns.
      intros l ->. apply inner_refs_fresh. by apply elem_of_zip_l in Hin. }
    intros _.
    apply triple_bind with (Q1 := fun _ => inner_inv st W b); [by apply triple_gets|intros cv].
    destruct (ltb zero cv); [|by apply triple_ret].
    intros s0 Hinv. pose proof Hinv as [(_ & _ & _ & Htask) _].
    unfold getattr, parameters_of, _get_updateable_parameters, mbind, PyM_bind, PyM.bind,
      PyM.gets, mret, PyM_ret, PyM.ret.
    rewrite Htask. cbn beta iota.
    unfold clip, PyM.modify. split; [|apply Hinv].
    apply adapting_set_heap; [apply Hinv|].
    apply foldl_update_grad_only. intros h' [l g] Hin.
    apply update_param_grad_only; [apply (keeps_value_set_grad (fun _ => Some g))|].
    apply elem_of_zip_l in Hin. apply list_elem_of_filter in Hin as [_ Hin].
    apply list_elem_of_filter in Hin as [_ Hin]. apply elem_of_seq in Hin. lia. }
  specialize (Ht s Hs).
  match goal with |- exists s', ?m s = _ /\ _ => destruct (m s) as [[[]|e] s'] end;
    [eauto|done].
Qed.

Lemma inner_step_returns st W b labels x i s :
  inner_inv st W b s ->
  inner_pass_ok st labels x W b ->
  exists s', inner_step labels x i s = (Ok tt, s') /\ inner_inv st W b s'.
Proof.
  intros Hinv (logits & loss & grads & Hfwd & Hloss & Hgrads).
  pose proof Hinv as [(_ & (_ & _ & Hlf & _) & _) _].
  unfold inner_step.
  rewrite (bind_Ok _ _ s s logits) by (by rewrite (inner_inv_forward st W b s x Hinv), Hfwd).
  rewrite (bind_Ok _ _ s s (lossfn s)) by done.
  rewrite (bind_Ok _ _ s s loss) by (unfold PyM.lift; by rewrite Hlf, Hloss).
  rewrite (bind_Ok _ _ s s (inner_refs st)) by (by apply (inner_inv_task_refs st W b)).
  rewrite (bind_Ok _ _ s s grads) by (unfold PyM.lift; by rewrite Hgrads).
  rewrite (bind_Ok _ _ s s (inner_refs st)) by (by apply (inner_inv_task_refs st W b)).
  by apply inner_tail_returns.
Qed.

Lemma inner_step_Ok_inv st W b labels x i s s' :
  inner_inv st W b s ->
  inner_step labels x i s = (Ok tt, s') ->
  inner_pass_ok st labels x W b.
Proof.
  intros Hinv Hstep.
  pose proof Hinv as [(_ & (_ & _ & Hlf & _) & _) _].
  unfold inner_step in Hstep.
  apply bind_Ok_inv in Hstep as (logits & s1 & Hfwd & Hstep).
  rewrite (inner_inv_forward st W b s x Hinv) in Hfwd. injection Hfwd as Hfwd <-.
  apply bind_Ok_inv in Hstep as (lf & s1 & [= <- <-] & Hstep).
  apply bind_Ok_inv in Hstep as (loss & s1 & Hloss & Hstep).
  unfold PyM.lift in Hloss. injection Hloss as Hloss <-.
  apply bind_Ok_inv in Hstep as (refs & s1 & Hrefs & Hstep).
  rewrite (inner_inv_task_refs st W b s Hinv) in Hrefs. injection Hrefs as <- <-.
  apply bind_Ok_inv in Hstep as (grads & s1 & Hgrads & _).
  unfold PyM.lift in Hgrads. injection Hgrads as Hgrads <-.
  exists logits, loss, grads. split; [done|]. split; [by rewrite <- Hlf|done].
Qed.

Lemma repeatM_inner_returns st W b labels x n : forall i s,
  inner_inv st W b s ->
  inner_pass_ok st labels x W b ->
  exists s', PyM.repeatM n (inner_step labels x) i s = (Ok tt, s') /\ inner_inv st W b s'.
Proof.
  induction n as [|n IH]; intros i s Hinv Hok; [by exists s|].
  cbn [PyM.repeatM]. unfold PyM.bind.
  destruct (inner_step_returns st W b labels x i s Hinv Hok) as (s1 & -> & Hinv1).
  by apply IH.
Qed.

Lemma adapt_inner_returns st labels x W b s1 :
  adapting st s1 ->
  (n_inner st <= 0)%Z \/ inner_pass_ok st labels x W b ->
  exists s', adapt_inner labels x W b s1 = (Ok tt, s').
Proof.
  intros Had Hok.
  set (s2 := set_b_task (Val (mkLeaf b None)) (set_W_task (Val (mkLeaf W None)) s1)).
  assert (Hinv2 : inner_inv st W b s2).
  { split; [by destruct Had as (?&?&?&?)|]. by exists None, None. }
  assert (Hn : n_inner s2 = n_inner st) by (destruct Had as (_ & (Hn & _) & _); exact Hn).
  assert (Hloop : exists s3,
            PyM.repeatM (Z.to_nat (n_inner st)) (inner_step labels x) 0 s2 = (Ok tt, s3) /\
            inner_inv st W b s3).
  { destruct Hok as [Hle|Hok]; [|by apply repeatM_inner_returns].
    replace (Z.to_nat (n_inner st)) with 0 by lia. by exists s2. }
  destruct Hloop as (s3 & Hloop & [_ (gw & gb & HW3 & Hb3)]).
  unfold adapt_inner.
  rewrite (bind_Ok _ _ s1 (set_W_task (Val (mkLeaf W None)) s1) tt) by done.
  rewrite (bind_Ok _ _ _ s2 tt) by done.
  rewrite (bind_Ok _ _ s2 s2 (n_inner st)) by (unfold PyM.gets; by rewrite Hn).
  rewrite (bind_Ok _ _ s2 s3 tt) by done.
  unfold getattr, leaf_of, mbind, PyM_bind, PyM.bind, mret, PyM_ret, PyM.ret, PyM.modify.
  rewrite HW3. cbn. rewrite Hb3. cbn. eauto.
Qed.

Lemma adapt_inner_Ok_inv st labels x W b s1 s' :
  adapting st s1 ->
  adapt_inner labels x W b s1 = (Ok tt, s') ->
  (n_inner st <= 0)%Z \/ inner_pass_ok st labels x W b.
Proof.
  intros Had Hrun.
  set (s2 := set_b_task (Val (mkLeaf b None)) (set_W_task (Val (mkLeaf W None)) s1)).
  assert (Hinv2 : inner_inv st W b s2).
  { split; [by destruct Had as (?&?&?&?)|]. by exists None, None. }
  assert (Hn : n_inner s2 = n_inner st) by (destruct Had as (_ & (Hn & _) & _); exact Hn).
  unfold adapt_inner in Hrun.
  rewrite (bind_Ok _ _ s1 (set_W_task (Val (mkLeaf W None)) s1) tt) in Hrun by done.
  rewrite (bind_Ok _ _ _ s2 tt) in Hrun by done.
  rewrite (bind_Ok _ _ s2 s2 (n_inner st)) in Hrun by (unfold PyM.gets; by rewrite Hn).
  apply bind_Ok_inv in Hrun as ([] & s3 & Hloop & _).
  destruct (Z.to_nat (n_inner st)) as [|n] eqn:Hz; [left; lia|right].
  cbn [PyM.repeatM] in Hloop.
  apply (bind_Ok_inv (B := unit)) in Hloop as ([] & s4 & Hstep & _).
  by eapply inner_step_Ok_inv.
Qed.

(** X24: on a well-formed model, [adapt] returns exactly when none of
    [model_task], [W_task], [b_task] was deleted before the call, the
    prototype weights can be computed from the support batch, and, when
    [n_inner] is positive, one pass of the inner loop goes through (the
    forward pass with the prototype classifier, the loss and the gradient
    computation).  Since no pass changes a parameter value, one pass decides
    for all of them. *)
Theorem adapt_returns_iff st labels x name verbose :
  wf st ->
  ((exists st', adapt labels x name verbose st = (Ok tt, st')) <->
   ~ poisoned st /\
   exists W_init b_init,
     (generate_clf_weights labels x st).1 = Ok (W_init, b_init) /\
     ((n_inner st <= 0)%Z \/ inner_pass_ok st labels x W_init b_init)).
Proof.
  intros Hwf.
  assert (Hgen : forall s1, adapting st s1 ->
            (generate_clf_weights labels x s1).1 = (generate_clf_weights labels x st).1).
  { intros s1 Had. apply generate_clf_weights_ext; [apply Had|].
    apply shared_values_frame; [done|by apply adapting_frame]. }
  split.
  - intros (st' & Hadapt).
    assert (Hp : ~ poisoned st).
    { intros Hp. destruct (adapt_poisoned st labels x name verbose Hp) as [Hraise _].
      rewrite Hadapt in Hraise. discriminate Hraise. }
    split; [done|].
    destruct (adapt_phases st labels x name verbose Hp) as (s1 & Had & _ & _ & Heq).
    rewrite Heq in Hadapt.
    apply bind_Ok_inv in Hadapt as ([W_init b_init] & s1' & Hg & Hinner).
    pose proof (readonly_generate_clf_weights labels x s1) as Hro.
    rewrite Hg in Hro. cbn in Hro. subst s1'.
    exists W_init, b_init. split; [by rewrite <- (Hgen s1 Had), Hg|].
    by apply (adapt_inner_Ok_inv st labels x W_init b_init s1 st').
  - intros (Hp & W_init & b_init & Hg & Hok).
    destruct (adapt_phases st labels x name verbose Hp) as (s1 & Had & _ & _ & Heq).
    rewrite Heq.
    assert (Hg1 : generate_clf_weights labels x s1 = (Ok (W_init, b_init), s1)).
    { pose proof (readonly_generate_clf_weights labels x s1) as Hro.
      pose proof (Hgen s1 Had) as Hg1. rewrite Hg in Hg1.
      destruct (generate_clf_weights labels x s1) as [r s1']. cbn in *. congruence. }
    rewrite (bind_Ok _ _ s1 s1 (W_init, b_init)) by done.
    by apply (adapt_inner_returns st).
Qed.

End AdaptReturns.


(** ** The inner loop of [adapt], pass by pass *)

Section InnerPasses.
Import ProtoMAML.
Context `{Torch}.
Implicit Types (s st : ProtoMAMLSeqTransformer) (h : list Param).








End InnerPasses.


(** ** The samplers' further guarantees on concrete loaders *)

Section LoaderExamples.
Import DataLoader.
Local Open Scope string_scope.
#[local] Existing Instance Toy.Int64Long.

Lemma next_returns_iff_witness :
  NoDup (self_labels Examples.overflow_loader) /\
  (forall c, c ∈ self_labels Examples.overflow_loader ->
     has_pool Examples.overflow_loader c) /\
  LongTensor [(2 ^ 63)%Z] = Raise ValueError /\
  ~ exists r self', __next__ Examples.overflow_loader = (Ok r, self').
Proof.
  split; [apply (bool_decide_unpack _); vm_compute; exact I|]. split.
  { intros c Hc. change (c ∈ [(2 ^ 63)%Z]) in Hc.
    apply list_elem_of_singleton in Hc as ->. eexists. vm_compute. reflexivity. }
  split; [reflexivity|].
  intros Hret.
  apply (proj1 (next_returns_iff Examples.overflow_loader)) in Hret as (_ & _ & Hconv).
  destruct (Hconv Examples.lengths eq_refl) as (support_set & query_set & Hsq).
  vm_compute in Hsq. discriminate Hsq.
Defined.

Lemma next_splits_each_window_witness :
  __next__ Examples.tokenized_loader =
    (Ok ([0; 1]%Z, ModelInput [1; 1], [0; 1]%Z, ModelInput [1; 1]),
     (__next__ Examples.tokenized_loader).2) /\
  (exists sup_text qry_text,
     Examples.lengths ["a"; "d"] = Ok sup_text /\ Examples.lengths ["b"; "e"] = Ok qry_text /\
     (__next__ Examples.tokenized_loader).1 =
       Ok ([0; 1]%Z, ModelInput sup_text, [0; 1]%Z, ModelInput qry_text)) /\
  self_data (__next__ Examples.tokenized_loader).2 !! 1%Z = Some None.
Proof.
  assert (Hnext : __next__ Examples.tokenized_loader =
            (Ok ([0; 1]%Z, ModelInput [1; 1], [0; 1]%Z, ModelInput [1; 1]),
             (__next__ Examples.tokenized_loader).2)) by (vm_compute; reflexivity).
  split; [exact Hnext|].
  destruct (next_splits_each_window Examples.tokenized_loader _ _ Hnext)
    as (_ & Htok & Hdata).
  split; [|rewrite Hdata; reflexivity].
  destruct (Htok Examples.lengths eq_refl)
    as (sup_text & sup_labels & qry_text & qry_labels & Hst & _ & Hqt & _ & Hr).
  exists sup_text, qry_text. split; [exact Hst|]. split; [exact Hqt|].
  rewrite Hnext. cbn [fst]. f_equal. injection Hr as _ <- _ <-. reflexivity.
Defined.

Lemma next_raises_at_first_bad_class_witness :
  __next__ Examples.half_drained_loader =
    (Raise TypeError, exhaust [0%Z] Examples.half_drained_loader).
Proof.
  apply (next_raises_at_first_bad_class Examples.half_drained_loader [0%Z] 1%Z []).
  - reflexivity.
  - apply NoDup_singleton.
  - intros c ->%list_elem_of_singleton. eexists. reflexivity.
  - intros [l Hl]. vm_compute in Hl. discriminate Hl.
Defined.

Lemma init_next_batch_witness :
  class_grouped 1 Toy.dataset /\
  exists sup qry self',
    __next__ Toy.loader =
      (Ok (labels <$> sup, RawText (text <$> sup),
           labels <$> qry, RawText (text <$> qry)), self') /\
    labels <$> sup = [0; 1]%Z /\ labels <$> qry = [0; 1]%Z /\
    length sup = 2 /\ length qry = 2.
Proof.
  assert (Hgrouped : class_grouped 1 Toy.dataset)
    by (apply (bool_decide_unpack _); vm_compute; exact I).
  split; [exact Hgrouped|].
  destruct (init_next_batch (Tok := unit) (fun _ l => l) Toy.dataset 1 None true
              (fun c l => reflexivity l) Hgrouped)
    as (sup & qry & self' & _ & Hnext & Hsup & Hqry & Hls & Hlq & _).
  exists sup, qry, self'. split; [exact (Hnext eq_refl)|].
  split; [exact Hsup|]. split; [exact Hqry|]. split; [exact Hls|exact Hlq].
Defined.

Lemma query_size_bounds_witness :
  class_lens Examples.nk_loader [0; 1]%Z = Ok [3; 2]%Z /\
  query_size Examples.nk_loader [3; 2]%Z = Ok 1%Z /\
  (1 * Z.of_nat (length [0; 1]%Z) <= Z.of_nat (nk_max_support_size Examples.nk_loader))%Z.
Proof.
  assert (Hlens : class_lens Examples.nk_loader [0; 1]%Z = Ok [3; 2]%Z)
    by (vm_compute; reflexivity).
  assert (Hq : query_size Examples.nk_loader [3; 2]%Z = Ok 1%Z) by (vm_compute; reflexivity).
  split; [exact Hlens|]. split; [exact Hq|].
  apply (query_size_bounds Examples.nk_loader [0; 1]%Z [3; 2]%Z 1%Z Hlens Hq).
Defined.


End LoaderExamples.


(** ** The model's further guarantees on a concrete episode *)

Section ModelExamples.
Import ProtoMAML.
Local Open Scope Z_scope.

Abbreviation T := Toy.ZTorch.
#[local] Existing Instance Toy.ZTorch.

Lemma generate_clf_weights_dense_labels_witness :
  seq_transformer (param_values (heap (Toy.model 5)) (model_shared (Toy.model 5)))
                  (training (model_shared (Toy.model 5))) Toy.support_input
    = Ok [[2; 4]; [4; 6]; [6; 9]] /\
  (forall c, c ∈ Toy.support_labels <-> 0 <= c < 2) /\
  exists W b,
    generate_clf_weights Toy.support_labels Toy.support_input (Toy.model 5)
      = (Ok (W, b), Toy.model 5) /\
    W !! 1%nat = Some [10; 14] /\ b !! 1%nat = Some (-8).
Proof.
  assert (Hy : seq_transformer (param_values (heap (Toy.model 5)) (model_shared (Toy.model 5)))
                 (training (model_shared (Toy.model 5))) Toy.support_input
               = Ok [[2; 4]; [4; 6]; [6; 9]]) by (vm_compute; reflexivity).
  assert (Hdense : forall c, c ∈ Toy.support_labels <-> 0 <= c < 2).
  { intros c. unfold Toy.support_labels. rewrite !elem_of_cons, elem_of_nil. lia. }
  split; [exact Hy|]. split; [exact Hdense|].
  destruct (generate_clf_weights_dense_labels (H := T) Toy.support_labels Toy.support_input
              (Toy.model 5) [[2; 4]; [4; 6]; [6; 9]] 2 Hy eq_refl eq_refl Hdense)
    as (W & b & Hgen & _ & _ & Hrows).
  exists W, b. split; [exact Hgen|].
  destruct (Hrows 1) as [HW Hb]; [lia|].
  change (Z.to_nat 1) with 1%nat in HW, Hb.
  split; [etrans; [exact HW|]|etrans; [exact Hb|]]; vm_compute; reflexivity.
Defined.

Lemma adapt_task_copy_fresh_witness :
  wf (Toy.model 5) /\
  adapt Toy.support_labels Toy.support_input None false (Toy.model 5)
    = (Ok tt, Toy.adapted_model 5) /\
  exists task,
    model_task (Toy.adapted_model 5) = Val task /\
    length (parameters task) = 2%nat /\ NoDup (parameters task).
Proof.
  assert (Hwf : wf (Toy.model 5)) by (apply (bool_decide_unpack _); vm_compute; exact I).
  assert (Hadapt : adapt Toy.support_labels Toy.support_input None false (Toy.model 5)
                   = (Ok tt, Toy.adapted_model 5)) by (vm_compute; reflexivity).
  split; [exact Hwf|]. split; [exact Hadapt|].
  destruct (adapt_task_copy_fresh (H := T) (Toy.model 5) Toy.support_labels Toy.support_input
              None false (Toy.adapted_model 5) Hwf Hadapt)
    as (task & Htask & _ & Hnd & Hlen & _).
  exists task. split; [exact Htask|]. split; [exact Hlen|exact Hnd].
Defined.

Lemma adapt_prototype_failure_witness :
  wf (Toy.model 5) /\
  ~ poisoned (Toy.model 5) /\
  (generate_clf_weights [] Toy.support_input (Toy.model 5)).1 = Raise RuntimeError /\
  exists st',
    adapt [] Toy.support_input None false (Toy.model 5) = (Raise RuntimeError, st') /\
    W_task st' = Absent /\ b_task st' = Absent /\
    (adapt Toy.support_labels Toy.support_input None false st').1 = Raise AttributeError.
Proof.
  assert (Hwf : wf (Toy.model 5)) by (apply (bool_decide_unpack _); vm_compute; exact I).
  assert (Hp : ~ poisoned (Toy.model 5)).
  { intros [Hp|[Hp|Hp]]; cbn in Hp; discriminate Hp. }
  assert (Hgen : (generate_clf_weights [] Toy.support_input (Toy.model 5)).1
                 = Raise RuntimeError) by (vm_compute; reflexivity).
  split; [exact Hwf|]. split; [exact Hp|]. split; [exact Hgen|].
  destruct (adapt_prototype_failure (H := T) (Toy.model 5) [] Toy.support_input None false
              RuntimeError Hwf Hp Hgen)
    as (st' & Hadapt & HW & Hb & _ & Hlater).
  exists st'. split; [exact Hadapt|]. split; [exact HW|]. split; [exact Hb|].
  apply Hlater.
Defined.

Lemma adapt_never_recovers_witness :
  poisoned Examples.failed_model /\
  (adapt Toy.support_labels Toy.support_input None false
     (adapt_all [(Toy.support_labels, Toy.support_input)] Examples.failed_model)).1
    = Raise AttributeError.
Proof.
  assert (Hp : poisoned Examples.failed_model) by (right; left; vm_compute; reflexivity).
  split; [exact Hp|].
  apply (adapt_never_recovers (H := T) Examples.failed_model
           [(Toy.support_labels, Toy.support_input)]
           Toy.support_labels Toy.support_input None false Hp).
Defined.


Lemma query_forward_in_eval_mode_witness :
  wf (Toy.model 5) /\
  (train;; adapt Toy.support_labels Toy.support_input None false;; eval) (Toy.model 5)
    = (Ok tt, Toy.prepared (Toy.model 5)) /\
  training (model_shared (Toy.prepared (Toy.model 5))) = false /\
  exists task, model_task (Toy.prepared (Toy.model 5)) = Val task /\ training task = false.
Proof.
  assert (Hwf : wf (Toy.model 5)) by (apply (bool_decide_unpack _); vm_compute; exact I).
  assert (Hrun : (train;; adapt Toy.support_labels Toy.support_input None false;; eval)
                   (Toy.model 5) = (Ok tt, Toy.prepared (Toy.model 5)))
    by (vm_compute; reflexivity).
  split; [exact Hwf|]. split; [exact Hrun|].
  destruct (query_forward_in_eval_mode (H := T) (Toy.model 5) Toy.support_labels
              Toy.support_input None false (Toy.prepared (Toy.model 5)) [[1; 1]]
              Hwf Hrun) as (Hmode & Htask & _).
  split; [exact Hmode|exact Htask].
Defined.

Lemma backward_clips_accumulated_witness :
  wf (Toy.adapted_model 5) /\
  backward 6 (Toy.adapted_model 5) = (Ok tt, (backward 6 (Toy.adapted_model 5)).2) /\
  exists st_acc,
    backward_accumulate 6 (Toy.adapted_model 5) = (Ok tt, st_acc) /\
    grads_of (heap (backward 6 (Toy.adapted_model 5)).2) (shared_params (Toy.adapted_model 5))
      = clip_grad_norm_ (grads_of (heap st_acc) (shared_params (Toy.adapted_model 5))) 5.
Proof.
  assert (Hwf : wf (Toy.adapted_model 5))
    by (apply (bool_decide_unpack _); vm_compute; exact I).
  assert (Hback : backward 6 (Toy.adapted_model 5)
                  = (Ok tt, (backward 6 (Toy.adapted_model 5)).2))
    by (vm_compute; reflexivity).
  split; [exact Hwf|]. split; [exact Hback|].
  assert (Hclip : clip_val (Toy.adapted_model 5) = 5) by (vm_compute; reflexivity).
  destruct (backward_clips_accumulated (H := T) (Toy.adapted_model 5) 6 _ Hwf Hback)
    as (st_acc & Hacc & Hgrads).
  exists st_acc. split; [exact Hacc|].
  assert (Hlt : ltb zero 5 = true) by reflexivity.
  rewrite Hclip, Hlt in Hgrads. exact Hgrads.
Defined.

Lemma episode_end_updates_witness :
  wf (Toy.outer_step 6 (Toy.model 0)) /\
  model_task (Toy.outer_step 6 (Toy.model 0)) = Val (mkSeqTransformer [2%nat; 3%nat] false) /\
  exists st',
    episode_end 1 (Toy.outer_step 6 (Toy.model 0)) = (Ok tt, st') /\
    model_shared st' = model_shared (Toy.outer_step 6 (Toy.model 0)) /\
    W_task st' = W_task (Toy.outer_step 6 (Toy.model 0)).
Proof.
  assert (Hwf : wf (Toy.outer_step 6 (Toy.model 0)))
    by (apply (bool_decide_unpack _); vm_compute; exact I).
  assert (Htask : model_task (Toy.outer_step 6 (Toy.model 0))
                  = Val (mkSeqTransformer [2%nat; 3%nat] false)) by (vm_compute; reflexivity).
  split; [exact Hwf|]. split; [exact Htask|].
  destruct (episode_end_updates (H := T) (Toy.outer_step 6 (Toy.model 0)) 1 _ Hwf Htask)
    as (st' & Hend & Hsh & _ & HW & _).
  exists st'. split; [exact Hend|]. split; [exact Hsh|exact HW].
Defined.

Lemma episode_applies_accumulated_gradient_witness :
  add_comm /\
  n_outer (Toy.model_1d 2) = 2 /\
  wf (Toy.model_1d 2) /\ ltb zero (clip_val (Toy.model_1d 2)) = false /\
  heap (Toy.model_1d 2) !! 0%nat = Some (mkParam (H := T) [1] None true) /\
  outer_calls (Toy.model_1d 2) [[[6]]; [[3]]]
    (Toy.outer_step_1d 3 (Toy.outer_step_1d 6 (Toy.model_1d 2))) /\
  exists st'' q'',
    episode_end 1 (Toy.outer_step_1d 3 (Toy.outer_step_1d 6 (Toy.model_1d 2)))
      = (Ok tt, st'') /\
    heap st'' !! 0%nat = Some q'' /\
    data q'' = [-8] /\ grad q'' = None.
Proof.
  assert (Hcomm : add_comm) by (intros x y; cbn; lia).
  assert (Hwf0 : wf (Toy.model_1d 2)) by (apply (bool_decide_unpack _); vm_compute; exact I).
  assert (Hrun : outer_calls (Toy.model_1d 2) [[[6]]; [[3]]]
                   (Toy.outer_step_1d 3 (Toy.outer_step_1d 6 (Toy.model_1d 2)))).
  { eapply (outer_calls_cons (H := T) _ Toy.support_labels Toy.support_input_1d None false
              (Toy.prepared_1d (Toy.model_1d 2)) 6 _ (Toy.outer_step_1d 6 (Toy.model_1d 2)));
      [vm_compute; reflexivity..|].
    eapply (outer_calls_cons (H := T) _ Toy.support_labels Toy.support_input_1d None false
              (Toy.prepared_1d (Toy.outer_step_1d 6 (Toy.model_1d 2))) 3 _
              (Toy.outer_step_1d 3 (Toy.outer_step_1d 6 (Toy.model_1d 2))));
      [vm_compute; reflexivity..|].
    apply (outer_calls_nil (H := T)). }
  split; [exact Hcomm|]. split; [reflexivity|]. split; [exact Hwf0|].
  split; [reflexivity|]. split; [reflexivity|]. split; [exact Hrun|].
  destruct (episode_applies_accumulated_gradient (H := T) (Toy.model_1d 2) _ _ 1
              Hcomm Hwf0 eq_refl Hrun) as (st'' & Hend & Hupd); [discriminate|].
  destruct (Hupd 0%nat 0%nat (mkParam (H := T) [1] None true) eq_refl eq_refl)
    as (col & g & q'' & Hcol & Hg & Hq'' & Hd & Hgr).
  exists st'', q''. split; [exact Hend|]. split; [exact Hq''|].
  apply Forall2_cons_inv_l in Hcol as (c1 & col1 & [= <-] & Hcol & ->).
  apply Forall2_cons_inv_l in Hcol as (c2 & col2 & [= <-] & Hcol & ->).
  apply Forall2_nil_inv_l in Hcol as ->.
  cbn in Hg. injection Hg as <-. split; [exact Hd|exact Hgr].
Defined.


Lemma adapt_returns_iff_witness :
  wf (Toy.model 5) /\
  ~ poisoned (Toy.model 5) /\
  exists W_init b_init,
    (generate_clf_weights Toy.support_labels Toy.support_input (Toy.model 5)).1
      = Ok (W_init, b_init) /\
    (n_inner (Toy.model 5) <= 0 \/
     inner_pass_ok (Toy.model 5) Toy.support_labels Toy.support_input W_init b_init).
Proof.
  assert (Hwf : wf (Toy.model 5)) by (apply (bool_decide_unpack _); vm_compute; exact I).
  assert (Hadapt : adapt Toy.support_labels Toy.support_input None false (Toy.model 5)
                   = (Ok tt, Toy.adapted_model 5)) by (vm_compute; reflexivity).
  split; [exact Hwf|].
  pose proof (proj1 (adapt_returns_iff (H := T) (Toy.model 5) Toy.support_labels
                       Toy.support_input None false Hwf)) as Hiff.
  apply Hiff. exists (Toy.adapted_model 5). exact Hadapt.
Defined.

End ModelExamples.


(** ** The straight-through reconstruction on an infinite prototype *)

Section InfinitePrototype.
Import ProtoMAML.


End InfinitePrototype.
